(** * Car-parking trainer: controller, simulation world and evolution engine

    A shallow embedding of [src/demo/src/brain.py], [src/demo/src/environment.py],
    [src/demo/src/genetic_algorithm.py] and the evaluation loop of
    [src/demo/train.py], followed by the properties of the design document
    that are settled on the embedding.

    Numbers.  Python [int]s are [Z].  Python [float]s that are always finite
    in the source (positions, speeds, coefficients, signals) are exact
    rationals [Q]: rounding of the binary64 format is not modelled.  The
    quantities that the source initialises to [float('inf')] (best distance,
    average distance, reward, fitness) are [pyfloat]s, rationals extended
    with the IEEE special values and their arithmetic.

    Errors.  A Python call that can raise is a function into [result]. *)

From Stdlib Require Import String.
From Stdlib Require Import ZArith QArith Qabs Qpower Qround List Bool Lia Lqa.
From Stdlib Require Import Permutation Sorted.
Import ListNotations.

Set Implicit Arguments.

(* ================================================================== *)
(** * Python run-time model *)
(* ================================================================== *)

Module Py.

(** The built-in exceptions that the modelled code can raise. *)
Inductive exn : Type :=
| ValueError (msg : string)
| ZeroDivisionError
| IndexError
| OverflowError.

Inductive result (A : Type) : Type :=
| Ok (a : A)
| Raise (e : exn).
Arguments Ok {A} a.
Arguments Raise {A} e.

Definition bind {A B} (m : result A) (k : A -> result B) : result B :=
  match m with
  | Ok a => k a
  | Raise e => Raise e
  end.

(** [[f(x) for x in l]] where [f] may raise: the first exception wins. *)
Fixpoint mapM {A B} (f : A -> result B) (l : list A) : result (list B) :=
  match l with
  | [] => Ok []
  | x :: l' =>
      bind (f x) (fun y => bind (mapM f l') (fun ys => Ok (y :: ys)))
  end.

(** [x < y] on finite floats. *)
Definition Qltb (x y : Q) : bool :=
  match x ?= y with Lt => true | _ => false end.

(** [min(x, y)]: the first argument unless the second is strictly smaller. *)
Definition min (x y : Q) : Q := if Qltb y x then y else x.

(** [max(x, y)]: the first argument unless the second is strictly larger. *)
Definition max (x y : Q) : Q := if Qltb x y then y else x.

(** [x / y] on floats. *)
Definition div (x y : Q) : result Q :=
  if Qeq_bool y 0 then Raise ZeroDivisionError else Ok (x / y).

(** [sum(l)]: starts from [0] and adds from the left. *)
Definition sum (l : list Q) : Q := fold_left Qplus l 0.
Definition sumZ (l : list Z) : Z := fold_left Z.add l 0%Z.

(** [enumerate(l)]. *)
Definition enumerate {A} (l : list A) : list (nat * A) :=
  combine (seq 0 (length l)) l.

(** [l[lo:hi]] for [0 <= lo], [0 <= hi]; [l[lo:]] is [skipn lo l]. *)
Definition slice {A} (lo hi : nat) (l : list A) : list A :=
  firstn (hi - lo)%nat (skipn lo l).

(** [range(0, stop, step)] for a positive [step]. *)
Definition range_step (stop step : nat) : list nat :=
  map (fun k => k * step)%nat (seq 0 ((stop + step - 1) / step)%nat).

(** [int(x)]: truncation toward zero. *)
Definition int (x : Q) : Z := Z.quot (Qnum x) (Zpos (Qden x)).

(** Truth value of an [int]. *)
Definition truthy (n : Z) : bool := negb (n =? 0)%Z.

(** ** Floats that may be infinite *)

Inductive pyfloat : Type :=
| Fin (q : Q)
| PInf
| NInf
| NaN.

Definition fneg (x : pyfloat) : pyfloat :=
  match x with
  | Fin q => Fin (- q)
  | PInf => NInf
  | NInf => PInf
  | NaN => NaN
  end.

Definition fadd (x y : pyfloat) : pyfloat :=
  match x, y with
  | NaN, _ | _, NaN => NaN
  | Fin a, Fin b => Fin (a + b)
  | PInf, NInf | NInf, PInf => NaN
  | PInf, _ | _, PInf => PInf
  | NInf, _ | _, NInf => NInf
  end.

Definition fsub (x y : pyfloat) : pyfloat := fadd x (fneg y).

(** Sign of a float: [Lt] negative, [Eq] zero, [Gt] positive. *)
Definition fsign (x : pyfloat) : option comparison :=
  match x with
  | Fin q => Some (q ?= 0)
  | PInf => Some Gt
  | NInf => Some Lt
  | NaN => None
  end.

Definition fmul (x y : pyfloat) : pyfloat :=
  match x, y with
  | Fin a, Fin b => Fin (a * b)
  | _, _ =>
      match fsign x, fsign y with
      | Some Eq, _ | _, Some Eq => NaN
      | Some Gt, Some Gt | Some Lt, Some Lt => PInf
      | Some Gt, Some Lt | Some Lt, Some Gt => NInf
      | None, _ | _, None => NaN
      end
  end.

(** [x < y]; every comparison with NaN is false. *)
Definition fltb (x y : pyfloat) : bool :=
  match x, y with
  | NaN, _ | _, NaN => false
  | Fin a, Fin b => Qltb a b
  | NInf, NInf => false
  | NInf, _ => true
  | _, NInf => false
  | PInf, _ => false
  | Fin _, PInf => true
  end.

(** The same float value: [Qeq] on the finite ones. *)
Definition feq (x y : pyfloat) : Prop :=
  match x, y with
  | Fin a, Fin b => a == b
  | PInf, PInf | NInf, NInf | NaN, NaN => True
  | _, _ => False
  end.

Definition is_finite (x : pyfloat) : bool :=
  match x with Fin _ => true | _ => false end.

End Py.

Import Py.

Notation "x <- m ;; k" := (Py.bind m (fun x => k))
  (at level 61, m at next level, right associativity).
Notation "' pat <- m ;; k" :=
  (Py.bind m (fun v => match v with pat => k end))
  (at level 61, pat pattern, m at next level, right associativity).

(* ================================================================== *)
(** * Host libraries *)
(* ================================================================== *)

(** The functions of Python's [math] module that the source calls.  They are
    transcendental (or irrational) on floats, so the embedding takes them as
    a parameter: [math_exp x = None] stands for [OverflowError]. *)
Class MathLib : Type := {
  math_exp : Q -> option Q;
  (** [math.cos(math.radians(d))] and [math.sin(math.radians(d))] *)
  math_cos_deg : Z -> Q;
  math_sin_deg : Z -> Q;
  math_sqrt : Q -> Q
}.

(** What the embedding needs to know about [math.exp]: its value is positive,
    and it is a function of the number, not of the fraction that denotes it. *)
Definition exp_positive `{MathLib} : Prop :=
  forall x y, math_exp x = Some y -> 0 < y.

Definition exp_respects `{MathLib} : Prop :=
  forall x y, x == y -> math_exp x = math_exp y.

(* ================================================================== *)
(** * brain.py *)
(* ================================================================== *)

Module Brain.
Section WithMath.
Context `{MathLib}.

Record t : Type := mk {
  genome : list Z;
  engine_coefficients : list Q;
  wheel_coefficients : list Q
}.

Record decision : Type := mk_decision {
  engine : Z;
  wheels : Z
}.

Definition _binary_to_float (bits : list Z) : result Q :=
  if negb (length bits =? 10)%nat then Raise (ValueError "Expected 10 bits")
  else
    let sign : Q := if truthy (nth 0 bits 0%Z) then -1 else 1 in
    let exponent_bits := slice 1 5 bits in
    let exponent :=
      sumZ (map (fun '(i, bit) => (bit * 2 ^ Z.of_nat i)%Z)
                (enumerate (rev exponent_bits))) in
    let exponent := (exponent - 7)%Z in
    let mantissa_bits := skipn 5 bits in
    let mantissa :=
      sum (map (fun '(i, bit) => inject_Z bit * 2 ^ (- (Z.of_nat i + 1)))
               (enumerate mantissa_bits)) in
    let result := sign * (1 + mantissa) * 2 ^ exponent in
    Ok (max (min result 100) (-100)).

Definition _bits_to_coefficients (bits : list Z) : result (list Q) :=
  mapM (fun i => _binary_to_float (slice i (i + 10)%nat bits))
       (range_step (length bits) 10).

Definition __init__ (genome : list Z) : result t :=
  if negb (length genome =? 180)%nat
  then Raise (ValueError "Genome must be 180 bits long")
  else
    ec <- _bits_to_coefficients (firstn 90 genome) ;;
    wc <- _bits_to_coefficients (skipn 90 genome) ;;
    Ok (mk genome ec wc).

Definition _signal_to_action (signal : Q) : result Z :=
  let signal := max (min signal 500) (-500) in
  normalized <-
    match math_exp (- signal) with
    | Some e => div 1 (1 + e)
    | None => Ok (if Qltb 0 signal then 1 else 0)
    end ;;
  if Qltb normalized (33 # 100) then Ok (-1)%Z
  else if Qltb (66 # 100) normalized then Ok 1%Z
  else Ok 0%Z.

(** [coefficients[-1]] *)
Definition last_item (l : list Q) : result Q :=
  match l with
  | [] => Raise IndexError
  | _ => Ok (last l 0)
  end.

(** [sum(c * s for c, s in zip(coefficients[:-1], sensors)) + coefficients[-1]] *)
Definition weighted_signal (coefficients sensors : list Q) : result Q :=
  let signal :=
    sum (map (fun '(c, s) => c * s) (combine (removelast coefficients) sensors)) in
  bias <- last_item coefficients ;;
  Ok (signal + bias).

Definition make_decision (self : t) (sensors : list Q) : result decision :=
  if negb (length sensors =? 8)%nat
  then Raise (ValueError "Expected 8 sensor values")
  else
    let sensors := map (fun s => max (min s 100) 0) sensors in
    engine_signal <- weighted_signal (engine_coefficients self) sensors ;;
    wheel_signal <- weighted_signal (wheel_coefficients self) sensors ;;
    let engine_signal := max (min engine_signal 100) (-100) in
    let wheel_signal := max (min wheel_signal 100) (-100) in
    e <- _signal_to_action engine_signal ;;
    w <- _signal_to_action wheel_signal ;;
    Ok (mk_decision e w).

End WithMath.
End Brain.

(* ================================================================== *)
(** * The part of pygame that environment.py uses *)
(* ================================================================== *)

Module Pygame.

(** [pygame.Rect]: integer position of the top-left corner and size. *)
Record Rect : Type := mkRect {
  x : Z;
  y : Z;
  w : Z;
  h : Z
}.

Definition left (r : Rect) : Z := x r.
Definition top (r : Rect) : Z := y r.
Definition right (r : Rect) : Z := (x r + w r)%Z.
Definition bottom (r : Rect) : Z := (y r + h r)%Z.

(** [r.center]: the size is halved with C integer division. *)
Definition centerx (r : Rect) : Z := (x r + Z.quot (w r) 2)%Z.
Definition centery (r : Rect) : Z := (y r + Z.quot (h r) 2)%Z.
Definition center (r : Rect) : Z * Z := (centerx r, centery r).

(** [r.centerx = v] and [r.centery = v]. *)
Definition set_centerx (v : Z) (r : Rect) : Rect :=
  mkRect (v - Z.quot (w r) 2) (y r) (w r) (h r).
Definition set_centery (v : Z) (r : Rect) : Rect :=
  mkRect (x r) (v - Z.quot (h r) 2) (w r) (h r).

(** [surface.get_rect(center=c)] for a surface of the given size. *)
Definition get_rect (size : Z * Z) (c : Z * Z) : Rect :=
  set_centery (snd c) (set_centerx (fst c) (mkRect 0 0 (fst size) (snd size))).

(** [a == b] on rectangles. *)
Definition rect_eqb (a b : Rect) : bool :=
  ((x a =? x b) && (y a =? y b) && (w a =? w b) && (h a =? h b))%Z.

(** [bool(r)]: a rectangle of zero width or height is false. *)
Definition truth (r : Rect) : bool :=
  negb (w r =? 0)%Z && negb (h r =? 0)%Z.

(** [a.colliderect(b)]: the interiors overlap; never for an empty rectangle. *)
Definition colliderect (a b : Rect) : bool :=
  if ((w a =? 0) || (h a =? 0) || (w b =? 0) || (h b =? 0))%Z then false
  else
    ((Z.min (x a) (x a + w a) <? Z.max (x b) (x b + w b)) &&
     (Z.min (y a) (y a + h a) <? Z.max (y b) (y b + h b)) &&
     (Z.min (x b) (x b + w b) <? Z.max (x a) (x a + w a)) &&
     (Z.min (y b) (y b + h b) <? Z.max (y a) (y a + h a)))%Z.

End Pygame.

(** [pygame.transform.rotate(self.rectangle_surf, angle)] enters the
    simulation only through the size of the surface it returns (the bounding
    box of the rotated 44 x 30 car picture), which pygame computes in floating
    point: the embedding takes that size as a parameter of the angle. *)
Class PygameLib : Type := {
  rotated_size : Z -> Z * Z
}.

(** A rotated picture is never empty. *)
Definition rotated_size_positive `{PygameLib} : Prop :=
  forall a, (0 < fst (rotated_size a) /\ 0 < snd (rotated_size a))%Z.

(* ================================================================== *)
(** * environment.py *)
(* ================================================================== *)

Module Environment.
Section WithHost.
Context `{MathLib} `{PygameLib}.
Import Pygame.

(** The dictionary [current_state], with its fixed keys. *)
Record car_state : Type := mk_car_state {
  car_pos_x : Q;
  car_pos_y : Q;
  car_speed : Q;
  rotation : Z;
  collision_counter : Z;
  time_elapsed : Z
}.

(** The attributes of an [Environment] object that change after
    construction; the constants are the definitions below. *)
Record t : Type := mk {
  car_rect : Rect;
  rotated_collision_rect : option Rect;
  custom_rectangles : list Rect;
  current_state : car_state;
  episode_finished : bool;
  current_step : Z;
  best_distance : pyfloat;
  current_fitness : pyfloat;
  ray_distances : list Z;
  distance_to_parking : option Q;
  average_distance : pyfloat
}.

(** The dictionary returned by [get_state]. *)
Record observation : Type := mk_observation {
  obs_sensors : list Z;
  obs_distance_to_parking : pyfloat;
  obs_collision : bool;
  obs_position : Q * Q;
  obs_rotation : Z;
  obs_speed : Q
}.

(** The [info] dictionary of [step]. *)
Definition info : Type := list (string * string).

(** ** Constants of [__init__] *)

Definition WIDTH : Z := 800.
Definition HEIGHT : Z := 600.
Definition CAR_SIZE : Z := 50 / 5.
Definition MAX_SPEED : Q := 5 / 2.
Definition MAX_SPEED_BACKWARD : Q := MAX_SPEED / 2.
Definition ACCELERATION : Q := (5 # 100) / 2.
Definition DECELERATION : Q := (5 # 100) / 2.
Definition MIN_TURN_SPEED : Q := 1 # 10.

Definition parking_spot : Rect :=
  mkRect 600 200
    (Py.int (inject_Z (150 / 3 * 2) / (15 # 10)))
    (Py.int (inject_Z (100 / 3 * 2) / (15 # 10))).

Definition barrier_thickness : Z := Py.int (inject_Z (10 / 3 * 2) / (15 # 10)).

Definition _create_barriers : list Rect :=
  [ mkRect 0 0 WIDTH barrier_thickness;
    mkRect 0 0 barrier_thickness HEIGHT;
    mkRect 0 (HEIGHT - barrier_thickness) WIDTH barrier_thickness;
    mkRect (WIDTH - barrier_thickness) 0 barrier_thickness HEIGHT ].

Definition barriers : list Rect := _create_barriers.

Definition initial_state : car_state :=
  mk_car_state 100 300 0 0 0 0.

Definition max_episode_steps : Z := 1000.

Definition __init__ : t :=
  {| car_rect := mkRect 0 0 CAR_SIZE CAR_SIZE;
     rotated_collision_rect := None;
     custom_rectangles := [];
     current_state := initial_state;
     episode_finished := false;
     current_step := 0;
     best_distance := PInf;
     current_fitness := Fin 0;
     ray_distances := repeat 0%Z 8;
     distance_to_parking := None;
     average_distance := PInf |}.

(** ** Attribute and key assignment *)

Definition set_car_speed (v : Q) (s : car_state) : car_state :=
  mk_car_state (car_pos_x s) (car_pos_y s) v (rotation s)
               (collision_counter s) (time_elapsed s).
Definition set_rotation (v : Z) (s : car_state) : car_state :=
  mk_car_state (car_pos_x s) (car_pos_y s) (car_speed s) v
               (collision_counter s) (time_elapsed s).
Definition set_collision_counter (v : Z) (s : car_state) : car_state :=
  mk_car_state (car_pos_x s) (car_pos_y s) (car_speed s) (rotation s)
               v (time_elapsed s).
Definition set_car_pos (vx vy : Q) (s : car_state) : car_state :=
  mk_car_state vx vy (car_speed s) (rotation s)
               (collision_counter s) (time_elapsed s).

Definition with_current_state (f : car_state -> car_state) (e : t) : t :=
  mk (car_rect e) (rotated_collision_rect e) (custom_rectangles e)
     (f (current_state e)) (episode_finished e) (current_step e)
     (best_distance e) (current_fitness e) (ray_distances e)
     (distance_to_parking e) (average_distance e).
Definition set_rects (cr : Rect) (rr : option Rect) (e : t) : t :=
  mk cr rr (custom_rectangles e)
     (current_state e) (episode_finished e) (current_step e)
     (best_distance e) (current_fitness e) (ray_distances e)
     (distance_to_parking e) (average_distance e).
Definition set_custom_rectangles (l : list Rect) (e : t) : t :=
  mk (car_rect e) (rotated_collision_rect e) l
     (current_state e) (episode_finished e) (current_step e)
     (best_distance e) (current_fitness e) (ray_distances e)
     (distance_to_parking e) (average_distance e).
Definition set_episode_finished (b : bool) (e : t) : t :=
  mk (car_rect e) (rotated_collision_rect e) (custom_rectangles e)
     (current_state e) b (current_step e)
     (best_distance e) (current_fitness e) (ray_distances e)
     (distance_to_parking e) (average_distance e).
Definition set_current_step (n : Z) (e : t) : t :=
  mk (car_rect e) (rotated_collision_rect e) (custom_rectangles e)
     (current_state e) (episode_finished e) n
     (best_distance e) (current_fitness e) (ray_distances e)
     (distance_to_parking e) (average_distance e).
Definition set_best_distance (d : pyfloat) (e : t) : t :=
  mk (car_rect e) (rotated_collision_rect e) (custom_rectangles e)
     (current_state e) (episode_finished e) (current_step e)
     d (current_fitness e) (ray_distances e)
     (distance_to_parking e) (average_distance e).
Definition set_current_fitness (f : pyfloat) (e : t) : t :=
  mk (car_rect e) (rotated_collision_rect e) (custom_rectangles e)
     (current_state e) (episode_finished e) (current_step e)
     (best_distance e) f (ray_distances e)
     (distance_to_parking e) (average_distance e).
Definition set_ray_distances (l : list Z) (e : t) : t :=
  mk (car_rect e) (rotated_collision_rect e) (custom_rectangles e)
     (current_state e) (episode_finished e) (current_step e)
     (best_distance e) (current_fitness e) l
     (distance_to_parking e) (average_distance e).
Definition set_distances (d : Q) (avg : pyfloat) (e : t) : t :=
  mk (car_rect e) (rotated_collision_rect e) (custom_rectangles e)
     (current_state e) (episode_finished e) (current_step e)
     (best_distance e) (current_fitness e) (ray_distances e)
     (Some d) avg.

(** ** Methods *)

Definition _point_inside_rect (point : Q * Q) (rect : Rect) : bool :=
  let '(px, py) := point in
  negb (Qltb px (inject_Z (left rect))) &&
  negb (Qltb (inject_Z (right rect)) px) &&
  negb (Qltb py (inject_Z (top rect))) &&
  negb (Qltb (inject_Z (bottom rect)) py).

(** The body of [for i in range(int(max_distance))], from index [i] with
    [n] iterations left: [Some i] is [return i], [None] the end of the loop. *)
Fixpoint _ray_loop (n : nat) (i : Z) (px py dx dy : Q) (barriers : list Rect)
  : option Z :=
  match n with
  | O => None
  | S n' =>
      let px := px + dx in
      let py := py + dy in
      if existsb (_point_inside_rect (px, py)) barriers then Some i
      else if Qltb px 0 || Qltb (inject_Z WIDTH) px ||
              Qltb py 0 || Qltb (inject_Z HEIGHT) py then Some i
      else _ray_loop n' (i + 1)%Z px py dx dy barriers
  end.

Definition _ray_distance (start_point : Q * Q) (angle : Z)
           (barriers : list Rect) (max_distance : Z) : Z :=
  let '(px, py) := start_point in
  let dx := math_cos_deg angle in
  let dy := math_sin_deg angle in
  match _ray_loop (Z.to_nat max_distance) 0 px py dx dy barriers with
  | Some i => i
  | None => max_distance
  end.

Definition _distance (point1 point2 : Q * Q) : Q :=
  math_sqrt ((fst point1 - fst point2) ^ 2 + (snd point1 - snd point2) ^ 2).

Definition _nearest_point_on_rect (rect : Rect) (point : Q * Q) : Q * Q :=
  let '(px, py) := point in
  let nearest_x := max (inject_Z (left rect)) (min px (inject_Z (right rect))) in
  let nearest_y := max (inject_Z (top rect)) (min py (inject_Z (bottom rect))) in
  (nearest_x, nearest_y).

Definition point_of (p : Z * Z) : Q * Q := (inject_Z (fst p), inject_Z (snd p)).

Definition _update_parking_distance (e : t) : t :=
  match rotated_collision_rect e with
  | None => e
  | Some rect =>
      let rect_center := point_of (center rect) in
      let nearest_point := _nearest_point_on_rect parking_spot rect_center in
      let dist := _distance rect_center nearest_point in
      let corners :=
        map point_of
            [ (left rect, top rect); (right rect, top rect);
              (right rect, bottom rect); (left rect, bottom rect) ] in
      let corner_distances :=
        map (fun corner =>
               _distance corner (_nearest_point_on_rect parking_spot corner))
            corners in
      set_distances dist
        (Fin (sum corner_distances / inject_Z (Z.of_nat (length corner_distances))))
        e
  end.

Definition ray_angles : list Z := [0; 45; 90; 135; 180; 225; 270; 315]%Z.

(** [round] is applied to an [int] here, which it returns unchanged. *)
Definition _update_sensors (e : t) : t :=
  let start_point :=
    (car_pos_x (current_state e), car_pos_y (current_state e)) in
  let distances :=
    map (fun angle =>
           let adjusted_angle := (angle + rotation (current_state e))%Z in
           _ray_distance start_point adjusted_angle
                         (barriers ++ custom_rectangles e) 150)
        ray_angles in
  _update_parking_distance (set_ray_distances distances e).

Definition get_state (e : t) : observation :=
  {| obs_sensors := ray_distances e;
     obs_distance_to_parking := average_distance e;
     obs_collision := (0 <? collision_counter (current_state e))%Z;
     obs_position := (car_pos_x (current_state e), car_pos_y (current_state e));
     obs_rotation := rotation (current_state e);
     obs_speed := car_speed (current_state e) |}.

Definition reset (e : t) : t * observation :=
  let e := with_current_state (fun _ => initial_state) e in
  let e := set_episode_finished false e in
  let e := set_current_step 0 e in
  let e := set_best_distance PInf e in
  let e := set_current_fitness (Fin 0) e in
  let e := _update_sensors e in
  (e, get_state e).

(** The rectangle that [_update_position] has just stored; the method is
    only called after that assignment. *)
Definition the_collision_rect (e : t) : Rect :=
  match rotated_collision_rect e with
  | Some r => r
  | None => mkRect 0 0 0 0
  end.

(** Each of the two loops stops at the first hit, and a hit only zeroes the
    speed and raises the flag, so a loop is one [existsb]. *)
Definition _check_collisions (e : t) : t * bool :=
  let rect := the_collision_rect e in
  let collision_detected := false in
  let '(e, collision_detected) :=
    if existsb (colliderect rect) barriers
    then (with_current_state (set_car_speed 0) e, true)
    else (e, collision_detected) in
  let '(e, collision_detected) :=
    if existsb (colliderect rect) (custom_rectangles e)
    then (with_current_state (set_car_speed 0) e, true)
    else (e, collision_detected) in
  let '(e, collision_detected) :=
    if ((left rect <? 0) || (WIDTH <? right rect) ||
        (top rect <? 0) || (HEIGHT <? bottom rect))%Z
    then (with_current_state (set_car_speed 0) e, true)
    else (e, collision_detected) in
  let e :=
    if collision_detected
    then with_current_state
           (fun s => set_collision_counter (collision_counter s + 1) s) e
    else e in
  (e, collision_detected).

Definition _update_position (e : t) : t :=
  let s := current_state e in
  let new_car_pos_x := car_pos_x s + car_speed s * math_cos_deg (rotation s) in
  let new_car_pos_y := car_pos_y s + car_speed s * math_sin_deg (rotation s) in
  let cr := set_centerx (Py.int new_car_pos_x) (car_rect e) in
  let cr := set_centery (Py.int new_car_pos_y) cr in
  let rr := get_rect (rotated_size (- rotation s)) (center cr) in
  let e := set_rects cr (Some rr) e in
  let '(e, collision_detected) := _check_collisions e in
  if negb collision_detected && negb (Qeq_bool (car_speed (current_state e)) 0)
  then with_current_state (set_car_pos new_car_pos_x new_car_pos_y) e
  else e.

(** An action is the dictionary that [Brain.make_decision] returns. *)
Definition _apply_action (action : Brain.decision) (e : t) : t :=
  let engine_signal := Brain.engine action in
  let wheel_signal := Brain.wheels action in
  let e :=
    if (engine_signal =? 1)%Z then
      with_current_state
        (fun s => set_car_speed (min (car_speed s + ACCELERATION) MAX_SPEED) s) e
    else if (engine_signal =? -1)%Z then
      with_current_state
        (fun s => set_car_speed
                    (max (car_speed s - DECELERATION) (- MAX_SPEED_BACKWARD)) s) e
    else e in
  let e :=
    if negb (Qltb (Qabs (car_speed (current_state e))) MIN_TURN_SPEED) then
      with_current_state
        (fun s => set_rotation ((rotation s + wheel_signal) mod 360) s) e
    else e in
  _update_position e.

Definition _is_parked_correctly (e : t) : bool :=
  match rotated_collision_rect e with
  | None => false
  | Some rect =>
      if negb (truth rect) then false
      else if colliderect parking_spot rect then
        if ((left parking_spot <=? left rect) &&
            (right rect <=? right parking_spot) &&
            (top parking_spot <=? top rect) &&
            (bottom rect <=? bottom parking_spot))%Z
        then
          let angle_threshold := 10%Z in
          let target_angle := 0%Z in
          let current_angle := (rotation (current_state e) mod 360)%Z in
          let angle_diff :=
            Z.min (Z.abs (current_angle - target_angle))
                  (Z.abs (current_angle - (target_angle + 360))) in
          if (angle_diff <=? angle_threshold)%Z then true else false
        else false
      else false
  end.

Definition _calculate_reward (state : observation) (e : t) : t * pyfloat :=
  let reward := Fin 0 in
  let reward := if obs_collision state then fsub reward (Fin 100) else reward in
  let current_distance := obs_distance_to_parking state in
  let '(e, reward) :=
    if fltb current_distance (best_distance e)
    then (set_best_distance current_distance e,
          fadd reward (fmul (fsub (best_distance e) current_distance) (Fin 10)))
    else (e, reward) in
  let reward := if _is_parked_correctly e then fadd reward (Fin 1000) else reward in
  let reward := fsub reward (Fin (1 # 10)) in
  (set_current_fitness (fadd (current_fitness e) reward) e, reward).

Definition get_fitness (e : t) : pyfloat := current_fitness e.

Definition _check_episode_end (state : observation) (e : t) : t * bool :=
  if obs_collision state || (max_episode_steps <=? current_step e)%Z ||
     _is_parked_correctly e
  then (set_episode_finished true e, true)
  else (e, false).

Definition step (action : Brain.decision) (e : t)
  : t * (observation * pyfloat * bool * info) :=
  if episode_finished e then (e, (get_state e, Fin 0, true, []))
  else
    let e := _apply_action action e in
    let e := set_current_step (current_step e + 1) e in
    let e := _update_sensors e in
    let new_state := get_state e in
    let '(e, reward) := _calculate_reward new_state e in
    let '(e, done) := _check_episode_end new_state e in
    (e, (new_state, reward, done, [])).

Definition add_custom_rectangle (rect : Rect) (e : t) : t :=
  set_custom_rectangles (custom_rectangles e ++ [rect]) e.

(** [list.remove] deletes the first element equal to [rect]. *)
Fixpoint list_remove (rect : Rect) (l : list Rect) : list Rect :=
  match l with
  | [] => []
  | r :: l' => if rect_eqb r rect then l' else r :: list_remove rect l'
  end.

Definition remove_custom_rectangle (rect : Rect) (e : t) : t :=
  if existsb (fun r => rect_eqb r rect) (custom_rectangles e)
  then set_custom_rectangles (list_remove rect (custom_rectangles e)) e
  else e.

(** The worlds that a caller can obtain through the public methods. *)
Inductive reachable : t -> Prop :=
| reach_init : reachable __init__
| reach_reset e : reachable e -> reachable (fst (reset e))
| reach_step a e : reachable e -> reachable (fst (step a e))
| reach_add r e : reachable e -> reachable (add_custom_rectangle r e)
| reach_remove r e : reachable e -> reachable (remove_custom_rectangle r e).

(** The world after a sequence of steps. *)
Fixpoint run (actions : list Brain.decision) (e : t) : t :=
  match actions with
  | [] => e
  | a :: rest => run rest (fst (step a e))
  end.

End WithHost.
End Environment.

(* ================================================================== *)
(** * The part of Python's random module that genetic_algorithm.py uses *)
(* ================================================================== *)

(** The generator is the sequence of raw outcomes that it is going to
    produce: every behaviour of the real generator is the behaviour of some
    tape, and a property proved for all tapes holds whatever the generator
    does. *)
Module Random.

Definition rng : Type := list Z.

Definition draw (g : rng) : Z * rng :=
  match g with
  | [] => (0%Z, [])
  | v :: g' => (v, g')
  end.

(** [random.random()]: a multiple of [2^-53] in [[0, 1)]. *)
Definition random (g : rng) : Q * rng :=
  let '(v, g) := draw g in
  (Qmake (v mod 2 ^ 53) (2 ^ 53), g).

(** [random.randint(0, 1)]. *)
Definition randint01 (g : rng) : Z * rng :=
  let '(v, g) := draw g in ((v mod 2)%Z, g).

Fixpoint remove_nth {A} (j : nat) (l : list A) : list A :=
  match j, l with
  | _, [] => []
  | O, _ :: l' => l'
  | S j', a :: l' => a :: remove_nth j' l'
  end.

(** [k] picks without replacement. *)
Fixpoint sample_loop {A} (k : nat) (pool : list A) (g : rng) : list A * rng :=
  match k with
  | O => ([], g)
  | S k' =>
      let '(v, g) := draw g in
      let j := Z.to_nat (v mod Z.of_nat (length pool)) in
      match nth_error pool j with
      | Some a =>
          let '(rest, g) := sample_loop k' (remove_nth j pool) g in
          (a :: rest, g)
      | None => ([], g)
      end
  end.

(** [random.sample(pool, k)]. *)
Definition sample {A} (pool : list A) (k : nat) (g : rng)
  : result (list A * rng) :=
  if (length pool <? k)%nat
  then Raise (ValueError "Sample larger than population or is negative")
  else Ok (sample_loop k pool g).

End Random.

(* ================================================================== *)
(** * genetic_algorithm.py *)
(* ================================================================== *)

Module GeneticAlgorithm.
Import Random.

Definition genome : Type := list Z.

(** Sizes are counts, so they are [nat]; scores are finite numbers. *)
Record t : Type := mk {
  population_size : nat;
  genome_length : nat;
  mutation_rate : Q;
  elite_size : nat;
  tournament_size : nat;
  population : list genome;
  generation : Z
}.

Definition set_population (p : list genome) (gen : Z) (self : t) : t :=
  mk (population_size self) (genome_length self) (mutation_rate self)
     (elite_size self) (tournament_size self) p gen.

(** [[f(g) for _ in range(n)]] for a function that draws from the generator. *)
Fixpoint repeat_draw {A} (f : rng -> A * rng) (n : nat) (g : rng)
  : list A * rng :=
  match n with
  | O => ([], g)
  | S n' =>
      let '(a, g) := f g in
      let '(l, g) := repeat_draw f n' g in
      (a :: l, g)
  end.

Definition _initialize_population (size len : nat) (g : rng)
  : list genome * rng :=
  repeat_draw (repeat_draw randint01 len) size g.

Definition __init__ (population_size genome_length : nat) (mutation_rate : Q)
           (elite_size tournament_size : nat) (g : rng) : t * rng :=
  let '(p, g) := _initialize_population population_size genome_length g in
  (mk population_size genome_length mutation_rate elite_size tournament_size
      p 0, g).

(** [max(l, key=...)]: the first element whose key is maximal. *)
Definition max_by_key {A} (key : A -> Q) (l : list A) : result A :=
  match l with
  | [] => Raise (ValueError "max() arg is an empty sequence")
  | a :: l' =>
      Ok (fold_left (fun best c => if Qltb (key best) (key c) then c else best)
                    l' a)
  end.

(** [min(l)] and [max(l)] on numbers. *)
Definition min_list (l : list Q) : result Q :=
  match l with
  | [] => Raise (ValueError "min() arg is an empty sequence")
  | a :: l' => Ok (fold_left (fun best c => if Qltb c best then c else best) l' a)
  end.

Definition max_list (l : list Q) : result Q := max_by_key (fun v => v) l.

(** [l[i]] for [0 <= i]. *)
Definition getitem {A} (l : list A) (i : nat) : result A :=
  match nth_error l i with
  | Some a => Ok a
  | None => Raise IndexError
  end.

Definition _select_parent (self : t) (fitness_scores : list Q) (g : rng)
  : result (genome * rng) :=
  '(tournament, g) <-
    sample (enumerate fitness_scores) (tournament_size self) g ;;
  winner <- max_by_key snd tournament ;;
  let winner_idx := fst winner in
  parent <- getitem (population self) winner_idx ;;
  Ok (parent, g).

Definition _crossover (parent1 parent2 : genome) (g : rng)
  : result (genome * genome * rng) :=
  if negb (length parent1 =? length parent2)%nat
  then Raise (ValueError "Parents must have same length")
  else
    '(points, g) <- sample (seq 0 (length parent1)) 2 g ;;
    let a := nth 0 points O in
    let b := nth 1 points O in
    let point1 := Nat.min a b in
    let point2 := Nat.max a b in
    let child1 :=
      firstn point1 parent1 ++ slice point1 point2 parent2 ++ skipn point2 parent1 in
    let child2 :=
      firstn point1 parent2 ++ slice point1 point2 parent1 ++ skipn point2 parent2 in
    Ok (child1, child2, g).

(** [l[i] = 1 - l[i]]. *)
Fixpoint flip (i : nat) (l : genome) : genome :=
  match i, l with
  | _, [] => []
  | O, b :: l' => (1 - b)%Z :: l'
  | S i', b :: l' => b :: flip i' l'
  end.

(** One iteration of the loop of [_mutate]; [and] does not evaluate its
    second operand, and so draws nothing, when the first is false. *)
Definition _mutate_step (rate : Q) (st : genome * rng) (i : nat)
  : genome * rng :=
  let '(mutated, g) := st in
  let '(r, g) := random g in
  if Qltb r rate then
    let mutated := flip i mutated in
    let '(mutated, g) :=
      if (0 <? i)%nat then
        let '(r, g) := random g in
        if Qltb r (3 # 10) then (flip (i - 1) mutated, g) else (mutated, g)
      else (mutated, g) in
    let '(mutated, g) :=
      if (i <? length mutated - 1)%nat then
        let '(r, g) := random g in
        if Qltb r (3 # 10) then (flip (i + 1) mutated, g) else (mutated, g)
      else (mutated, g) in
    (mutated, g)
  else (mutated, g).

Definition _mutate (self : t) (gen : genome) (g : rng) : genome * rng :=
  fold_left (_mutate_step (mutation_rate self)) (seq 0 (length gen)) (gen, g).

(** [sorted(l, key=..., reverse=True)]: descending, elements with equal
    keys stay in their original order. *)
Fixpoint insert_desc (key : nat -> Q) (i : nat) (l : list nat) : list nat :=
  match l with
  | [] => [i]
  | j :: l' =>
      if Qltb (key i) (key j) then j :: insert_desc key i l' else i :: l
  end.

Definition sorted_desc (key : nat -> Q) (l : list nat) : list nat :=
  fold_right (insert_desc key) [] l.

(** The [while] loop of [evolve].  Each iteration appends at least one
    child, so [population_size] iterations always suffice; [None] is an
    exhausted iteration budget. *)
Fixpoint _evolve_loop (fuel : nat) (self : t) (normalized_fitness : list Q)
         (new_population : list genome) (g : rng)
  : option (result (list genome * rng)) :=
  if negb (length new_population <? population_size self)%nat
  then Some (Ok (new_population, g))
  else
    match fuel with
    | O => None
    | S fuel' =>
        match _select_parent self normalized_fitness g with
        | Raise e => Some (Raise e)
        | Ok (parent1, g) =>
        match _select_parent self normalized_fitness g with
        | Raise e => Some (Raise e)
        | Ok (parent2, g) =>
        match _crossover parent1 parent2 g with
        | Raise e => Some (Raise e)
        | Ok (child1, child2, g) =>
            let '(child1, g) := _mutate self child1 g in
            let new_population :=
              if (length new_population <? population_size self)%nat
              then new_population ++ [child1] else new_population in
            let '(new_population, g) :=
              if (length new_population <? population_size self)%nat
              then let '(child2, g) := _mutate self child2 g in
                   (new_population ++ [child2], g)
              else (new_population, g) in
            _evolve_loop fuel' self normalized_fitness new_population g
        end end end
    end.

Definition normalize (fitness_scores : list Q) : result (list Q) :=
  min_fitness <- min_list fitness_scores ;;
  max_fitness <- max_list fitness_scores ;;
  if negb (Qeq_bool max_fitness min_fitness) then
    mapM (fun f => div (f - min_fitness) (max_fitness - min_fitness))
         fitness_scores
  else
    share <- div 1 (inject_Z (Z.of_nat (length fitness_scores))) ;;
    Ok (repeat share (length fitness_scores)).

Definition elite_indices (self : t) (fitness_scores : list Q) : list nat :=
  firstn (elite_size self)
         (sorted_desc (fun i => nth i fitness_scores 0)
                      (seq 0 (length fitness_scores))).

Definition evolve (self : t) (fitness_scores : list Q) (g : rng)
  : option (result (t * (list genome * Z) * rng)) :=
  match normalize fitness_scores with
  | Raise e => Some (Raise e)
  | Ok normalized_fitness =>
      match mapM (getitem (population self)) (elite_indices self fitness_scores) with
      | Raise e => Some (Raise e)
      | Ok new_population =>
          match _evolve_loop (population_size self) self normalized_fitness
                             new_population g with
          | None => None
          | Some (Raise e) => Some (Raise e)
          | Some (Ok (new_population, g)) =>
              let self := set_population new_population (generation self + 1) self in
              Some (Ok (self, (population self, generation self), g))
          end
      end
  end.

End GeneticAlgorithm.

(* ================================================================== *)
(** * train.py: the evaluation of one genome *)
(* ================================================================== *)

Module Trainer.
Section WithHost.
Context `{MathLib} `{PygameLib}.

(** The [for step in range(max_steps)] loop of [evaluate_genome] with
    [visualize=False], [n] iterations left. *)
Fixpoint _evaluate_loop (n : nat) (brain : Brain.t) (env : Environment.t)
         (state : Environment.observation) (total_reward : pyfloat)
  : result (Environment.t * pyfloat) :=
  match n with
  | O => Ok (env, total_reward)
  | S n' =>
      if Environment.obs_collision state || Environment.episode_finished env
      then Ok (env, total_reward)
      else
        action <- Brain.make_decision brain
                    (map inject_Z (Environment.obs_sensors state)) ;;
        let '(env, (next_state, reward, done, _)) :=
          Environment.step action env in
        _evaluate_loop n' brain env next_state (fadd total_reward reward)
  end.

(** [evaluate_genome(genome)]: the trainer's environment is threaded
    through, the value is the total reward. *)
Definition evaluate_genome (env : Environment.t) (genome : list Z)
  : result (Environment.t * pyfloat) :=
  brain <- Brain.__init__ genome ;;
  let total_reward := Fin 0 in
  let max_steps := 1000%nat in
  let '(env, state) := Environment.reset env in
  '(env, total_reward) <- _evaluate_loop max_steps brain env state total_reward ;;
  let '(env, _) := Environment.reset env in
  Ok (env, total_reward).

End WithHost.
End Trainer.

(* ================================================================== *)
(** * A computable host *)
(* ================================================================== *)

(** Rational stand-ins for the host functions, used to run the embedding on
    concrete inputs.  They are exact where the examples below rely on them:
    on headings that are multiples of 90 degrees and on perfect squares. *)
Module Host.

(** [e^x] to about two digits: with [k = floor(x * log2 e)] and
    [x = k * ln 2 + 2 h], the value [2^k * (1 + h + h^2 / 2)^2]. *)
Definition exp_pow2 (x : Q) : option Q :=
  let x := Qred x in
  let k := Qfloor (x * (14427 # 10000)) in
  let h := (x - inject_Z k * (10000 # 14427)) / 2 in
  let half := 1 + h + h * h / 2 in
  Some (2 ^ k * (half * half)).

(** Bhaskara's rational approximation of the sine of an angle in degrees. *)
Definition sin_deg (d : Z) : Q :=
  let d := (d mod 360)%Z in
  let half (u : Z) : Q :=
    Qmake (4 * u * (180 - u)) 1 / inject_Z (40500 - u * (180 - u)) in
  if (d <=? 180)%Z then half d else - half (d - 180)%Z.

Definition cos_deg (d : Z) : Q := sin_deg (d + 90).

(** Square root to six decimals. *)
Definition sqrt6 (q : Q) : Q :=
  Qmake (Z.sqrt (Qfloor (q * inject_Z (10 ^ 12)))) (10 ^ 6).

(** Bounding box of the 44 x 30 picture turned by [a] degrees. *)
Definition box (a : Z) : Z * Z :=
  let c := Qabs (cos_deg a) in
  let s := Qabs (sin_deg a) in
  (Z.max 30 (Qceiling (44 * c + 30 * s)), Z.max 30 (Qceiling (44 * s + 30 * c))).

#[export] Instance math : MathLib :=
  {| math_exp := exp_pow2;
     math_cos_deg := cos_deg;
     math_sin_deg := sin_deg;
     math_sqrt := sqrt6 |}.

#[export] Instance pygame : PygameLib :=
  {| rotated_size := box |}.

End Host.

(** Concrete worlds and actions on the computable host. *)
Module Examples.
Import Host Pygame Environment.

Definition idle : Brain.decision := Brain.mk_decision 0 0.
Definition forward : Brain.decision := Brain.mk_decision 1 0.

(** The world after one forward step from construction. *)
Definition rolling : t := fst (step forward __init__).

(** A fresh world with an obstacle registered on top of the car. *)
Definition blocked : t := add_custom_rectangle (mkRect 90 290 20 20) __init__.

(** The car has hit the obstacle: the episode is over. *)
Definition crashed : t := fst (step forward blocked).

(** A running world with the car at full speed next to the right barrier. *)
Definition near_wall : t :=
  {| car_rect := mkRect 770 295 10 10;
     rotated_collision_rect := Some (mkRect 753 285 44 30);
     custom_rectangles := [];
     current_state := mk_car_state 775 300 MAX_SPEED 0 0 0;
     episode_finished := false;
     current_step := 270;
     best_distance := Fin 0;
     current_fitness := PInf;
     ray_distances := repeat 0%Z 8;
     distance_to_parking := Some 0;
     average_distance := Fin 0 |}.

(** A world whose car rectangle lies inside the parking target, with the
    given heading. *)
Definition in_target (heading : Z) : t :=
  {| car_rect := mkRect 627 215 10 10;
     rotated_collision_rect := Some (mkRect 610 205 44 30);
     custom_rectangles := [];
     current_state := mk_car_state 632 220 0 heading 0 0;
     episode_finished := false;
     current_step := 400;
     best_distance := Fin 0;
     current_fitness := PInf;
     ray_distances := repeat 0%Z 8;
     distance_to_parking := Some 0;
     average_distance := Fin 0 |}.


(** Four genomes of 180 bits, genome [k] having bit [k] set alone;
    elite size 1 and the given tournament size. *)
Definition marked (k : nat) : list Z :=
  repeat 0%Z k ++ [1%Z] ++ repeat 0%Z (179 - k).

Definition four (tournament : nat) : GeneticAlgorithm.t :=
  GeneticAlgorithm.mk 4 180 (1 # 100) 1 tournament
                      [marked 0; marked 1; marked 2; marked 3] 0.

(** Two genomes of a single bit. *)
Definition one_bit : GeneticAlgorithm.t :=
  GeneticAlgorithm.mk 2 1 (1 # 100) 0 2 [[0%Z]; [1%Z]] 0.

(** A tape of raw outcomes for the generator. *)
Definition tape : Random.rng :=
  map (fun k => (k * 2 ^ 50 + 3 * k + 1)%Z) (map Z.of_nat (seq 0 40)).

End Examples.

(* ================================================================== *)
(** * The design document's words, as definitions *)
(* ================================================================== *)

Module Doc.

(** Saturation of [v] to the closed interval [[lo, hi]]. *)
Definition clamp (lo hi v : Q) : Q :=
  if Qltb v lo then lo else if Qltb hi v then hi else v.

Definition binary (b : list Z) : Prop :=
  Forall (fun v => v = 0%Z \/ v = 1%Z) b.

Definition bit (b : list Z) (i : nat) : Z := nth i b 0%Z.

(** Gene layout: sign bit, big-endian 4-bit exponent, 5-bit fraction. *)
Definition gene_sign (b : list Z) : Q := if (bit b 0 =? 1)%Z then -1 else 1.

Definition gene_exponent (b : list Z) : Z :=
  (8 * bit b 1 + 4 * bit b 2 + 2 * bit b 3 + bit b 4)%Z.

Definition gene_mantissa (b : list Z) : Q :=
  inject_Z (bit b 5) * (1 # 2) + inject_Z (bit b 6) * (1 # 4) +
  inject_Z (bit b 7) * (1 # 8) + inject_Z (bit b 8) * (1 # 16) +
  inject_Z (bit b 9) * (1 # 32).

Definition gene_value (b : list Z) : Q :=
  gene_sign b * (1 + gene_mantissa b) * 2 ^ (gene_exponent b - 7).

Section Controller.
Context `{MathLib}.

(** The signal of one channel: eight weights applied to the sensor
    values clamped to [[0, 100]], plus the bias, clamped to [[-100, 100]]. *)
Definition channel_signal (c : list Q) (sensors : list Q) : Q :=
  let s i := clamp 0 100 (nth i sensors 0) in
  let w i := nth i c 0 in
  clamp (-100) 100
    (w 0%nat * s 0%nat + w 1%nat * s 1%nat + w 2%nat * s 2%nat +
     w 3%nat * s 3%nat + w 4%nat * s 4%nat + w 5%nat * s 5%nat +
     w 6%nat * s 6%nat + w 7%nat * s 7%nat + w 8%nat).

(** Logistic squashing of the signal clamped to [[-500, 500]]; when the
    exponential overflows, 1 for a positive signal and 0 otherwise. *)
Definition squash (signal : Q) : Q :=
  let s := clamp (-500) 500 signal in
  match math_exp (- s) with
  | Some e => 1 / (1 + e)
  | None => if Qltb 0 s then 1 else 0
  end.

(** The three-way threshold on the squashed value. *)
Definition threshold (v : Q) : Z :=
  if Qltb v (33 # 100) then (-1)%Z
  else if Qltb (66 # 100) v then 1%Z
  else 0%Z.

Definition action (signal : Q) : Z := threshold (squash signal).

End Controller.

Section World.
Context `{MathLib} `{PygameLib}.
Import Pygame Environment.

(** Speed and heading once the action is applied: the engine moves the
    speed by one increment toward the forward or the reverse cap, and
    steering turns the heading, wrapped into [[0, 360)], only at or
    above the minimum turning speed. *)
Definition controlled_speed (engine : Z) (speed : Q) : Q :=
  if (engine =? 1)%Z then
    if Qltb MAX_SPEED (speed + ACCELERATION) then MAX_SPEED
    else speed + ACCELERATION
  else if (engine =? -1)%Z then
    if Qltb (speed - DECELERATION) (- MAX_SPEED_BACKWARD)
    then - MAX_SPEED_BACKWARD
    else speed - DECELERATION
  else speed.

Definition controlled_heading (wheels : Z) (speed : Q) (heading : Z) : Z :=
  if Qle_bool MIN_TURN_SPEED (Qabs speed) then ((heading + wheels) mod 360)%Z
  else heading.

(** The state of the car once the controls are applied. *)
Definition controlled (a : Brain.decision) (s : car_state) : car_state :=
  let speed := controlled_speed (Brain.engine a) (car_speed s) in
  set_rotation (controlled_heading (Brain.wheels a) speed (rotation s))
               (set_car_speed speed s).

(** One unit step along the heading at the current speed. *)
Definition candidate_position (pos : Q * Q) (speed : Q) (heading : Z) : Q * Q :=
  (fst pos + speed * math_cos_deg heading,
   snd pos + speed * math_sin_deg heading).

(** The car's rotated bounding rectangle, centred on a position. *)
Definition car_rectangle (pos : Q * Q) (heading : Z) : Rect :=
  get_rect (rotated_size (- heading)) (Py.int (fst pos), Py.int (snd pos)).

(** Overlap with a boundary barrier, a registered obstacle or the arena
    edges. *)
Definition overlaps (rect : Rect) (obstacles : list Rect) : bool :=
  existsb (colliderect rect) barriers ||
  existsb (colliderect rect) obstacles ||
  ((left rect <? 0) || (WIDTH <? right rect) ||
   (top rect <? 0) || (HEIGHT <? bottom rect))%Z.

(** A collision rectangle, once computed, is not empty. *)
Definition rect_ok (e : t) : Prop :=
  forall r, rotated_collision_rect e = Some r -> (0 < w r /\ 0 < h r)%Z.

(** The state in which every step after the first finds an episode:
    a finite best distance and an infinite fitness. *)
Definition saturated (e : t) : Prop :=
  (exists d, best_distance e = Fin d) /\ current_fitness e = PInf.

(** The rectangle lies within the target on all four sides. *)
Definition contained (rect target : Rect) : Prop :=
  (left target <= left rect /\ right rect <= right target /\
   top target <= top rect /\ bottom rect <= bottom target)%Z.

(** Deviation of a heading in [[0, 360)] from the target heading 0: the
    smaller of the direct and the wrap-around difference. *)
Definition heading_deviation (heading : Z) : Z :=
  Z.min (Z.abs (heading - 0)) (Z.abs (heading - 360)).

(** The reward of one step, term by term. *)
Definition collision_term (collided : bool) : pyfloat :=
  if collided then Fin (-100) else Fin 0.

Definition shaping_term (best current : pyfloat) : pyfloat :=
  if fltb current best then fmul (fsub best current) (Fin 10) else Fin 0.

Definition parking_term (parked : bool) : pyfloat :=
  if parked then Fin 1000 else Fin 0.

Definition time_penalty : pyfloat := Fin (- (1 # 10)).

(** The world once the car has been moved and the sensors and
    distances recomputed, before the reward is computed. *)
Definition after_move (a : Brain.decision) (e : t) : t :=
  let e := _apply_action a e in
  _update_sensors (set_current_step (current_step e + 1) e).

(** What [step] does once the car has been moved: observe, reward,
    decide whether the episode ends. *)
Definition finish (w : t) : t * (observation * pyfloat * bool * info) :=
  let st := get_state w in
  let rewarded := _calculate_reward st w in
  let ended := _check_episode_end st (fst rewarded) in
  (fst ended, (st, snd rewarded, snd ended, [])).

Definition reward_sum (collided : bool) (best current : pyfloat)
           (parked : bool) : pyfloat :=
  fadd (fadd (fadd (collision_term collided) (shaping_term best current))
             (parking_term parked))
       time_penalty.

End World.

Section Evolution.
Import GeneticAlgorithm.

(** Genome [i] is ranked before genome [j]: a higher raw score, or the
    same score and a lower index. *)
Definition ranks_before (scores : list Q) (i j : nat) : Prop :=
  nth j scores 0 < nth i scores 0 \/
  (nth i scores 0 == nth j scores 0 /\ (i < j)%nat).

(** The ranking of the population by raw score, as the source sorts it. *)
Definition ranking (scores : list Q) : list nat :=
  sorted_desc (fun i => nth i scores 0) (seq 0 (length scores)).

(** The population has the configured size and every genome the
    configured length. *)
Definition well_formed (self : t) : Prop :=
  length (population self) = population_size self /\
  Forall (fun g => length g = genome_length self) (population self).

End Evolution.

End Doc.

(* ================================================================== *)
(** * Facts about the run-time model *)
(* ================================================================== *)

Module PyFacts.

Lemma Qltb_lt (x y : Q) : Qltb x y = true <-> x < y.
Proof.
  unfold Qltb. rewrite Qlt_alt. destruct (x ?= y); split; congruence.
Qed.

Lemma Qltb_ge (x y : Q) : Qltb x y = false <-> y <= x.
Proof.
  pose proof (Qltb_lt x y) as Hlt.
  destruct (Qltb x y); split; intros Hx.
  - discriminate.
  - apply Qle_not_lt in Hx. exfalso. apply Hx, Hlt. reflexivity.
  - apply Qnot_lt_le. intros Hxy. apply Hlt in Hxy. discriminate.
  - reflexivity.
Qed.

#[export] Instance Qltb_proper : Proper (Qeq ==> Qeq ==> eq) Qltb.
Proof.
  intros x x' Hx y y' Hy. unfold Qltb. now rewrite Hx, Hy.
Qed.

(** [max(min(v, hi), lo)] saturates. *)
Lemma max_min_clamp (lo hi v : Q) :
  lo <= hi -> max (min v hi) lo == Doc.clamp lo hi v.
Proof.
  intros Hlh. unfold max, min, Doc.clamp.
  destruct (Qltb hi v) eqn:E1.
  - apply Qltb_lt in E1.
    destruct (Qltb hi lo) eqn:E2; [apply Qltb_lt in E2; lra|].
    destruct (Qltb v lo) eqn:E3; [apply Qltb_lt in E3; lra|reflexivity].
  - destruct (Qltb v lo) eqn:E3; reflexivity.
Qed.

Lemma clamp_bounds (lo hi v : Q) :
  lo <= hi -> lo <= Doc.clamp lo hi v <= hi.
Proof.
  intros Hlh. unfold Doc.clamp.
  destruct (Qltb v lo) eqn:E1; [lra|].
  destruct (Qltb hi v) eqn:E2; [lra|].
  apply Qltb_ge in E1, E2. lra.
Qed.

#[export] Instance clamp_proper : Proper (Qeq ==> Qeq ==> Qeq ==> Qeq) Doc.clamp.
Proof.
  intros lo lo' Hlo hi hi' Hhi v v' Hv. unfold Doc.clamp.
  rewrite (Qltb_proper Hv Hlo), (Qltb_proper Hhi Hv).
  destruct (Qltb v' lo'); [assumption|].
  destruct (Qltb hi' v'); assumption.
Qed.

(** A value already inside the interval is returned as it is. *)
Lemma max_min_id (lo hi v : Q) :
  lo <= v -> v <= hi -> max (min v hi) lo = v.
Proof.
  intros H1 H2. unfold max, min.
  apply Qltb_ge in H2. rewrite H2.
  apply Qltb_ge in H1. now rewrite H1.
Qed.

(** [max(min(v, hi), lo)] is one of [v], [hi], [lo], and lies in between. *)
Lemma max_min_bounds (lo hi v : Q) :
  lo <= hi -> lo <= max (min v hi) lo <= hi.
Proof.
  intros Hlh. rewrite (max_min_clamp v Hlh). now apply clamp_bounds.
Qed.

Lemma Qle_bool_negb_Qltb (a b : Q) : Qle_bool a b = negb (Qltb b a).
Proof.
  destruct (Qltb b a) eqn:E; cbn.
  - apply Qltb_lt in E. destruct (Qle_bool a b) eqn:E'; [|reflexivity].
    apply Qle_bool_iff in E'. lra.
  - apply Qltb_ge in E. now apply Qle_bool_iff.
Qed.

(** ** Floats that may be infinite *)

Lemma feq_refl (x : pyfloat) : feq x x.
Proof. destruct x; cbn; auto. reflexivity. Qed.

Lemma feq_sym (x y : pyfloat) : feq x y -> feq y x.
Proof. destruct x, y; cbn; auto. intros E. now symmetry. Qed.

Lemma feq_trans (x y z : pyfloat) : feq x y -> feq y z -> feq x z.
Proof.
  destruct x, y, z; cbn; auto; try contradiction.
  intros E1 E2. now rewrite E1.
Qed.

Lemma fadd_feq (x x' y y' : pyfloat) :
  feq x x' -> feq y y' -> feq (fadd x y) (fadd x' y').
Proof.
  destruct x, x', y, y'; cbn; auto; try contradiction.
  intros E1 E2. now rewrite E1, E2.
Qed.

Lemma feq_PInf (x : pyfloat) : feq x PInf -> x = PInf.
Proof. destruct x; cbn; intros E; try contradiction. reflexivity. Qed.

Lemma fltb_irrefl (x : pyfloat) : fltb x x = false.
Proof.
  destruct x; cbn; try reflexivity. apply Qltb_ge. apply Qle_refl.
Qed.

Lemma fltb_asym (x y : pyfloat) : fltb x y = true -> fltb y x = false.
Proof.
  destruct x, y; cbn; try reflexivity; try discriminate.
  intros E. apply Qltb_lt in E. apply Qltb_ge. lra.
Qed.

End PyFacts.

(* ================================================================== *)
(** * Further definitions used to state properties *)
(* ================================================================== *)

Module More.

(** All binary sequences of a given length. *)
Fixpoint all_binary (n : nat) : list (list Z) :=
  match n with
  | O => [[]]
  | S n' => flat_map (fun l => [0%Z :: l; 1%Z :: l]) (all_binary n')
  end.

(** What is checked on every gene: the decoded value has the sign that
    bit 0 announces and a magnitude between 2^-7 and 100. *)
Definition gene_in_range (b : list Z) : bool :=
  match Brain._binary_to_float b with
  | Ok v =>
      Qle_bool (1 # 128) (Qabs v) && Qle_bool (Qabs v) 100 &&
      (if (nth 0 b 0 =? 1)%Z then Qltb v 0 else Qltb 0 v)
  | Raise _ => false
  end.

(** One of the three discrete actions. *)
Definition is_action (z : Z) : Prop := z = (-1)%Z \/ z = 0%Z \/ z = 1%Z.

Section World.
Import Pygame Environment.

(** What every world keeps: the speed within the two caps, the heading
    in [[0, 360)], at most one collision (which ends the episode), at
    most 1000 steps (fewer while the episode runs), and 8 sensor
    readings between 0 and the range of the rays. *)
Definition world_ok (e : t) : Prop :=
  let s := current_state e in
  (- MAX_SPEED_BACKWARD <= car_speed s <= MAX_SPEED) /\
  (0 <= rotation s < 360)%Z /\
  (collision_counter s = 0%Z \/
   (collision_counter s = 1%Z /\ episode_finished e = true)) /\
  (0 <= current_step e <= 1000)%Z /\
  (episode_finished e = false -> (current_step e < 1000)%Z) /\
  length (ray_distances e) = 8%nat /\
  Forall (fun d => (0 <= d <= 150)%Z) (ray_distances e).

(** The same position and heading. *)
Definition same_pose (e1 e2 : t) : Prop :=
  car_pos_x (current_state e1) = car_pos_x (current_state e2) /\
  car_pos_y (current_state e1) = car_pos_y (current_state e2) /\
  rotation (current_state e1) = rotation (current_state e2).

(** The done flag that [step] returns. *)
Definition done_of (r : t * (observation * pyfloat * bool * info)) : bool :=
  snd (fst (snd r)).

End World.


(** A bit after mutation: as before, or inverted. *)
Definition kept_or_inverted (old new : Z) : Prop :=
  new = old \/ new = (1 - old)%Z.

(** The configuration of the evolution engine. *)
Definition same_settings (a b : GeneticAlgorithm.t) : Prop :=
  GeneticAlgorithm.population_size a = GeneticAlgorithm.population_size b /\
  GeneticAlgorithm.genome_length a = GeneticAlgorithm.genome_length b /\
  GeneticAlgorithm.mutation_rate a = GeneticAlgorithm.mutation_rate b /\
  GeneticAlgorithm.elite_size a = GeneticAlgorithm.elite_size b /\
  GeneticAlgorithm.tournament_size a = GeneticAlgorithm.tournament_size b.

End More.

(* ================================================================== *)
(** * The computable host obeys the laws asked of a host *)
(* ================================================================== *)

Module HostFacts.

Lemma exp_pow2_positive : @exp_positive Host.math.
Proof.
  intros x y Hy. cbn in Hy. unfold Host.exp_pow2 in Hy.
  injection Hy as <-.
  set (h := (Qred x - inject_Z (Qfloor (Qred x * (14427 # 10000))) * (10000 # 14427)) / 2).
  assert (Hsq : 0 <= (h + 1) ^ 2) by apply Qsqr_nonneg.
  assert (Hhalf : 0 < 1 + h + h * h / 2).
  { setoid_replace (1 + h + h * h / 2) with (((h + 1) ^ 2 + 1) / 2) by (simpl; field).
    set (s := (h + 1) ^ 2) in *. apply Qlt_shift_div_l; lra. }
  apply Qmult_lt_0_compat; [apply Qpower_0_lt; reflexivity|].
  now apply Qmult_lt_0_compat.
Qed.

Lemma exp_pow2_respects : @exp_respects Host.math.
Proof.
  intros x y Hxy. cbn. unfold Host.exp_pow2.
  now rewrite (Qred_complete x y Hxy).
Qed.

Lemma box_positive : @rotated_size_positive Host.pygame.
Proof.
  intros a. cbn. unfold Host.box. cbn [fst snd]. lia.
Qed.

End HostFacts.

(* ================================================================== *)
(** * The gene codec and the controller *)
(* ================================================================== *)

Module BrainFacts.
Import PyFacts Doc.

Lemma list_len10 (b : list Z) :
  length b = 10%nat ->
  exists b0 b1 b2 b3 b4 b5 b6 b7 b8 b9,
    b = [b0; b1; b2; b3; b4; b5; b6; b7; b8; b9].
Proof.
  intros Hlen.
  do 10 (destruct b as [|? b]; [discriminate|]).
  destruct b; [|discriminate].
  repeat eexists.
Qed.

(** Before the clamp, the decoder computes the value of the layout. *)
Lemma raw_value (b : list Z) :
  length b = 10%nat -> binary b ->
  exists r,
    Brain._binary_to_float b = Ok (max (min r 100) (-100)) /\ r == gene_value b.
Proof.
  intros Hlen Hbin.
  destruct (list_len10 b Hlen) as (b0&b1&b2&b3&b4&b5&b6&b7&b8&b9&->).
  unfold Brain._binary_to_float. cbn [length Nat.eqb negb].
  eexists; split; [reflexivity|].
  unfold gene_value, gene_sign, gene_exponent, gene_mantissa, bit.
  cbn -[Qpower Qmult Qplus Z.mul Z.add Z.sub Z.pow inject_Z].
  replace (0 + b4 * 2 ^ 0 + b3 * 2 ^ 1 + b2 * 2 ^ 2 + b1 * 2 ^ 3 - 7)%Z
    with (8 * b1 + 4 * b2 + 2 * b3 + b4 - 7)%Z by ring.
  change (2 ^ (- (0 + 1))) with (1 # 2).
  change (2 ^ (- (1 + 1))) with (1 # 4).
  change (2 ^ (- (2 + 1))) with (1 # 8).
  change (2 ^ (- (3 + 1))) with (1 # 16).
  change (2 ^ (- (4 + 1))) with (1 # 32).
  assert (Hs : (if truthy b0 then -1 else 1) = (if (b0 =? 1)%Z then -1 else 1) :> Q).
  { inversion Hbin as [|? ? [-> | ->] _]; reflexivity. }
  rewrite Hs. ring.
Qed.

(** C4.  For every 10-element binary sequence, the decoder returns the
    value sign * (1 + mantissa) * 2^(e - 7) of the bit layout (sign bit,
    big-endian 4-bit exponent biased by 7, 5-bit fraction) saturated to
    [[-100, 100]]; the result therefore lies in that closed interval. *)
Theorem decode_is_clamped_layout_value (b : list Z) :
  length b = 10%nat ->
  binary b ->
  exists v,
    Brain._binary_to_float b = Ok v /\
    v == clamp (-100) 100 (gene_value b) /\
    -100 <= v <= 100.
Proof.
  intros Hlen Hbin.
  destruct (raw_value Hlen Hbin) as (r & Hr & Hv).
  exists (max (min r 100) (-100)). split; [exact Hr|]. split.
  - rewrite max_min_clamp by lra. now rewrite Hv.
  - apply max_min_bounds. lra.
Qed.

(** The all-zeros gene decodes to +1 * (1 + 0) * 2^-7, inside the interval. *)
Lemma decode_is_clamped_layout_value_witness :
  exists v,
    Brain._binary_to_float (repeat 0%Z 10) = Ok v /\
    v == clamp (-100) 100 (gene_value (repeat 0%Z 10)) /\
    -100 <= v <= 100.
Proof.
  apply (@decode_is_clamped_layout_value (repeat 0%Z 10)).
  - reflexivity.
  - repeat constructor.
Defined.

Example decode_all_zeros :
  exists v, Brain._binary_to_float (repeat 0%Z 10) = Ok v /\ v == 1 * (1 + 0) * 2 ^ (-7).
Proof. eexists. split; [reflexivity|]. reflexivity. Qed.

(** The all-ones gene is -(1 + 31/32) * 2^8 = -504 before the clamp and
    saturates at the lower boundary. *)
Example decode_all_ones :
  gene_value (repeat 1%Z 10) == -504 /\
  Brain._binary_to_float (repeat 1%Z 10) = Ok (-100).
Proof. split; reflexivity. Qed.

(** The largest positive gene saturates at the upper boundary. *)
Example decode_largest :
  gene_value [0; 1; 1; 1; 1; 1; 1; 1; 1; 1]%Z == 504 /\
  Brain._binary_to_float [0; 1; 1; 1; 1; 1; 1; 1; 1; 1]%Z = Ok 100.
Proof. split; reflexivity. Qed.

Lemma slice_length {A} (lo hi : nat) (l : list A) :
  length (slice lo hi l) = Nat.min (hi - lo) (length l - lo).
Proof. unfold slice. rewrite length_firstn, length_skipn. reflexivity. Qed.

Lemma binary_to_float_length (bits : list Z) :
  (length bits <> 10%nat ->
   Brain._binary_to_float bits = Raise (ValueError "Expected 10 bits")) /\
  (length bits = 10%nat -> exists v, Brain._binary_to_float bits = Ok v).
Proof.
  unfold Brain._binary_to_float. split; intros Hlen.
  - apply Nat.eqb_neq in Hlen. now rewrite Hlen.
  - rewrite Hlen. cbn [Nat.eqb negb]. eexists. reflexivity.
Qed.

Lemma mapM_ok {A B} (f : A -> result B) (l : list A) :
  (forall a, In a l -> exists b, f a = Ok b) ->
  exists bs, mapM f l = Ok bs /\ length bs = length l.
Proof.
  induction l as [|a l IH]; intros Hall.
  - exists []. split; reflexivity.
  - destruct (Hall a (or_introl eq_refl)) as [b Hb].
    destruct IH as (bs & Hbs & Hlen).
    { intros a' Ha'. apply Hall. now right. }
    exists (b :: bs). cbn. rewrite Hb. cbn. rewrite Hbs. cbn.
    split; [reflexivity | now rewrite Hlen].
Qed.

Lemma mapM_raise {A B} (f : A -> result B) (l : list A) (e : exn) :
  (forall a, In a l -> f a = Raise e \/ exists b, f a = Ok b) ->
  (exists a, In a l /\ f a = Raise e) ->
  mapM f l = Raise e.
Proof.
  induction l as [|a l IH]; intros Hall (a0 & Hin & Hraise).
  - destruct Hin.
  - cbn. destruct (Hall a (or_introl eq_refl)) as [Ha | [b Hb]].
    + now rewrite Ha.
    + rewrite Hb. cbn. rewrite IH; [reflexivity | |].
      * intros a' Ha'. apply Hall. now right.
      * destruct Hin as [-> | Hin]; [congruence|]. now exists a0.
Qed.

(** The value at each position of a comprehension that did not raise. *)
Lemma mapM_nth {A B} (f : A -> result B) (l : list A) (bs : list B) :
  mapM f l = Ok bs ->
  length bs = length l /\
  forall i da db, (i < length l)%nat -> f (nth i l da) = Ok (nth i bs db).
Proof.
  revert bs. induction l as [|a l IH]; intros bs Hm; cbn in Hm.
  - injection Hm as <-. split; [reflexivity|]. intros i ? ? Hi. inversion Hi.
  - destruct (f a) as [b|] eqn:Hb; [|discriminate]. cbn in Hm.
    destruct (mapM f l) as [bs'|] eqn:Hbs; [|discriminate]. cbn in Hm.
    injection Hm as <-. destruct (IH bs' eq_refl) as [Hlen Hnth].
    split; [cbn; now rewrite Hlen|].
    intros [|i] da db Hi; cbn; [exact Hb|]. apply Hnth. cbn in Hi. lia.
Qed.

Lemma in_range_step (n i : nat) :
  In i (range_step n 10) <-> exists k, i = (k * 10)%nat /\ (k * 10 < n)%nat.
Proof.
  unfold range_step. rewrite in_map_iff. split.
  - intros (k & <- & Hk). apply in_seq in Hk. exists k. split; [reflexivity|].
    assert (Hd := Nat.div_mod_eq (n + 10 - 1) 10).
    assert (Hm := Nat.mod_upper_bound (n + 10 - 1) 10). lia.
  - intros (k & -> & Hk). exists k. split; [reflexivity|]. apply in_seq.
    assert (Hd := Nat.div_mod_eq (n + 10 - 1) 10).
    assert (Hm := Nat.mod_upper_bound (n + 10 - 1) 10). lia.
Qed.

(** The vector decoder accepts every whole number of 10-bit chunks. *)
Lemma bits_to_coefficients_length (bits : list Z) :
  ((length bits mod 10 <> 0)%nat ->
   Brain._bits_to_coefficients bits = Raise (ValueError "Expected 10 bits")) /\
  ((length bits mod 10 = 0)%nat ->
   exists cs, Brain._bits_to_coefficients bits = Ok cs /\
              length cs = (length bits / 10)%nat).
Proof.
  unfold Brain._bits_to_coefficients.
  assert (Hd := Nat.div_mod_eq (length bits) 10).
  assert (Hm := Nat.mod_upper_bound (length bits) 10).
  split; intros Hlen.
  - apply mapM_raise.
    + intros i _.
      destruct (Nat.eq_dec (length (slice i (i + 10) bits)) 10) as [E | E].
      * right. now apply binary_to_float_length.
      * left. now apply binary_to_float_length.
    + exists (length bits / 10 * 10)%nat. split.
      * apply in_range_step. eexists. split; [reflexivity|]. lia.
      * apply binary_to_float_length. rewrite slice_length. lia.
  - destruct (@mapM_ok _ _ (fun i => Brain._binary_to_float (slice i (i + 10) bits))
                       (range_step (length bits) 10)) as (cs & Hcs & Hl).
    + intros i Hi. apply in_range_step in Hi. destruct Hi as (k & -> & Hk).
      apply binary_to_float_length. rewrite slice_length. lia.
    + exists cs. split; [exact Hcs|]. rewrite Hl. unfold range_step.
      rewrite length_map, length_seq.
      assert (Hd' := Nat.div_mod_eq (length bits + 10 - 1) 10).
      assert (Hm' := Nat.mod_upper_bound (length bits + 10 - 1) 10). lia.
Qed.

(** The constructor validates the genome length, so that each half it
    hands to the vector decoder has exactly 90 bits and yields 9
    coefficients. *)
Lemma init_length (genome : list Z) :
  (length genome <> 180%nat ->
   Brain.__init__ genome = Raise (ValueError "Genome must be 180 bits long")) /\
  (length genome = 180%nat ->
   exists ec wc,
     Brain._bits_to_coefficients (firstn 90 genome) = Ok ec /\
     Brain._bits_to_coefficients (skipn 90 genome) = Ok wc /\
     length ec = 9%nat /\ length wc = 9%nat /\
     Brain.__init__ genome = Ok (Brain.mk genome ec wc)).
Proof.
  unfold Brain.__init__. split; intros Hlen.
  - apply Nat.eqb_neq in Hlen. now rewrite Hlen.
  - rewrite Hlen. cbn [Nat.eqb negb].
    destruct (bits_to_coefficients_length (firstn 90 genome)) as [_ He].
    destruct (bits_to_coefficients_length (skipn 90 genome)) as [_ Hw].
    rewrite length_firstn, Hlen in He. rewrite length_skipn, Hlen in Hw.
    destruct (He eq_refl) as (ec & Hec & Lec).
    destruct (Hw eq_refl) as (wc & Hwc & Lwc).
    exists ec, wc. rewrite Hec, Hwc. cbn. repeat split; assumption.
Qed.

(** C5, at a concrete input: 20 bits are not 90 bits, yet the vector
    decoder raises nothing and returns two coefficients. *)
Lemma vector_decode_accepts_20_bits :
  ~ ((exists e, Brain._bits_to_coefficients (repeat 0%Z 20) = Raise e) <->
     length (repeat 0%Z 20) <> 90%nat).
Proof.
  intros [_ Hflaw].
  destruct Hflaw as [e He]; [discriminate|].
  vm_compute in He. discriminate.
Qed.

(** C5 (as amended).  The single-coefficient decoder raises its length
    error exactly when the input is not 10 bits long, and returns a value
    otherwise.  The vector decoder raises that same error exactly when the
    input length is not a multiple of 10, and otherwise returns one
    coefficient per 10-bit chunk.  The constructor raises its own length
    error exactly when the genome is not 180 bits long, and otherwise
    decodes each 90-bit half into 9 coefficients.  No other exception is
    raised on any of these paths. *)
Theorem decode_length_errors :
  (forall bits : list Z,
      (Brain._binary_to_float bits = Raise (ValueError "Expected 10 bits") <->
       length bits <> 10%nat) /\
      (Brain._binary_to_float bits = Raise (ValueError "Expected 10 bits") \/
       exists v, Brain._binary_to_float bits = Ok v)) /\
  (forall bits : list Z,
      (Brain._bits_to_coefficients bits = Raise (ValueError "Expected 10 bits") <->
       (length bits mod 10 <> 0)%nat) /\
      (Brain._bits_to_coefficients bits = Raise (ValueError "Expected 10 bits") \/
       exists cs, Brain._bits_to_coefficients bits = Ok cs /\
                  length cs = (length bits / 10)%nat)) /\
  (forall genome : list Z,
      (Brain.__init__ genome = Raise (ValueError "Genome must be 180 bits long") <->
       length genome <> 180%nat) /\
      (Brain.__init__ genome = Raise (ValueError "Genome must be 180 bits long") \/
       exists brain, Brain.__init__ genome = Ok brain /\
                     length (Brain.engine_coefficients brain) = 9%nat /\
                     length (Brain.wheel_coefficients brain) = 9%nat)).
Proof.
  split; [|split].
  - intros bits. destruct (binary_to_float_length bits) as [Hne Heq].
    destruct (Nat.eq_dec (length bits) 10) as [E | E].
    + destruct (Heq E) as [v Hv]. split; [|right; now exists v].
      split; [congruence | intros; contradiction].
    + split; [|left; auto]. split; auto.
  - intros bits. destruct (bits_to_coefficients_length bits) as [Hne Heq].
    destruct (Nat.eq_dec (length bits mod 10) 0) as [E | E].
    + destruct (Heq E) as (cs & Hcs & Hl). split; [|right; now exists cs].
      split; [congruence | intros; contradiction].
    + split; [|left; auto]. split; auto.
  - intros genome. destruct (init_length genome) as [Hne Heq].
    destruct (Nat.eq_dec (length genome) 180) as [E | E].
    + destruct (Heq E) as (ec & wc & _ & _ & Lec & Lwc & Hb).
      split; [split; [congruence | intros; contradiction]|].
      right. exists (Brain.mk genome ec wc). repeat split; assumption.
    + split; [|left; auto]. split; auto.
Qed.
Section Decide.
Context `{MathLib}.

#[local] Instance min_proper : Proper (Qeq ==> Qeq ==> Qeq) min.
Proof.
  intros x x' Hx y y' Hy. unfold min. rewrite (Qltb_proper Hy Hx).
  destruct (Qltb y' x'); assumption.
Qed.

#[local] Instance max_proper : Proper (Qeq ==> Qeq ==> Qeq) max.
Proof.
  intros x x' Hx y y' Hy. unfold max. rewrite (Qltb_proper Hx Hy).
  destruct (Qltb x' y'); assumption.
Qed.

Lemma signal_to_action_spec (signal : Q) :
  exp_positive -> exp_respects ->
  Brain._signal_to_action signal = Ok (action signal).
Proof.
  intros Hpos Hresp. unfold Brain._signal_to_action, action, squash, threshold.
  assert (Hc : max (min signal 500) (-500) == clamp (-500) 500 signal)
    by (apply max_min_clamp; lra).
  rewrite (Hresp (- max (min signal 500) (-500)) (- clamp (-500) 500 signal))
    by (now rewrite Hc).
  destruct (math_exp (- clamp (-500) 500 signal)) as [e|] eqn:He.
  - apply Hpos in He. unfold div.
    destruct (Qeq_bool (1 + e) 0) eqn:Hz.
    + apply Qeq_bool_eq in Hz. lra.
    + cbn. destruct (Qltb (1 / (1 + e)) (33 # 100)); [reflexivity|].
      destruct (Qltb (66 # 100) (1 / (1 + e))); reflexivity.
  - cbn. rewrite (Qltb_proper (Qeq_refl 0) Hc).
    destruct (Qltb 0 (clamp (-500) 500 signal)); reflexivity.
Qed.

Lemma action_proper (x y : Q) :
  exp_respects -> x == y -> action x = action y.
Proof.
  intros Hresp Hxy. unfold action, squash.
  assert (Hc : clamp (-500) 500 x == clamp (-500) 500 y) by (now rewrite Hxy).
  rewrite (Hresp (- clamp (-500) 500 x) (- clamp (-500) 500 y)) by (now rewrite Hc).
  destruct (math_exp (- clamp (-500) 500 y)); [reflexivity|].
  now rewrite (Qltb_proper (Qeq_refl 0) Hc).
Qed.

Lemma list_len8 (l : list Q) :
  length l = 8%nat ->
  exists s0 s1 s2 s3 s4 s5 s6 s7, l = [s0; s1; s2; s3; s4; s5; s6; s7].
Proof.
  intros Hlen.
  do 8 (destruct l as [|? l]; [discriminate|]).
  destruct l; [|discriminate].
  repeat eexists.
Qed.

Lemma list_len9 (l : list Q) :
  length l = 9%nat ->
  exists w0 w1 w2 w3 w4 w5 w6 w7 w8, l = [w0; w1; w2; w3; w4; w5; w6; w7; w8].
Proof.
  intros Hlen.
  do 9 (destruct l as [|? l]; [discriminate|]).
  destruct l; [|discriminate].
  repeat eexists.
Qed.

(** The clamped signal of a channel, as the source computes it. *)
Lemma weighted_signal_spec (c sensors : list Q) :
  length c = 9%nat -> length sensors = 8%nat ->
  exists sig,
    Brain.weighted_signal c (map (fun s => max (min s 100) 0) sensors) = Ok sig /\
    max (min sig 100) (-100) == channel_signal c sensors.
Proof.
  intros Hc Hs.
  destruct (list_len9 c Hc) as (w0&w1&w2&w3&w4&w5&w6&w7&w8&->).
  destruct (list_len8 sensors Hs) as (s0&s1&s2&s3&s4&s5&s6&s7&->).
  eexists. split; [reflexivity|].
  rewrite max_min_clamp by lra. unfold channel_signal.
  cbn -[Qplus Qmult max min clamp].
  rewrite !max_min_clamp by lra. apply clamp_proper; try reflexivity. ring.
Qed.

Lemma slice_firstn {A} (lo hi n : nat) (l : list A) :
  (hi <= n)%nat -> slice lo hi (firstn n l) = slice lo hi l.
Proof.
  intros Hhi. unfold slice.
  rewrite skipn_firstn_comm, firstn_firstn. f_equal. lia.
Qed.

Lemma slice_skipn {A} (lo hi n : nat) (l : list A) :
  slice lo hi (skipn n l) = slice (n + lo) (n + hi) l.
Proof.
  unfold slice. rewrite skipn_skipn. f_equal; [lia|]. f_equal. lia.
Qed.

Lemma nth_range_step_90 (i : nat) :
  (i < 9)%nat -> nth i (range_step 90 10) O = (10 * i)%nat.
Proof.
  intros Hi. do 9 (destruct i as [|i]; [reflexivity|]). lia.
Qed.

(** Coefficient [i] of a decoded 90-bit vector is the decoding of
    chunk [i]. *)
Lemma coefficient_of_chunk (bits : list Z) (cs : list Q) (i : nat) :
  length bits = 90%nat ->
  Brain._bits_to_coefficients bits = Ok cs ->
  (i < 9)%nat ->
  Brain._binary_to_float (slice (10 * i) (10 * i + 10) bits) = Ok (nth i cs 0).
Proof.
  intros Hlen Hcs Hi. unfold Brain._bits_to_coefficients in Hcs.
  rewrite Hlen in Hcs. apply mapM_nth in Hcs. destruct Hcs as [_ Hnth].
  specialize (Hnth i O 0). rewrite nth_range_step_90 in Hnth by assumption.
  apply Hnth. cbn. exact Hi.
Qed.

(** C6.  For every 180-bit genome and every 8-element sensor vector, the
    controller is built, coefficient [i] of the engine channel being the
    decoding of bits [10 i .. 10 i + 9] and coefficient [i] of the
    steering channel that of bits [90 + 10 i .. 90 + 10 i + 9]; and
    [make_decision] returns, per channel, the threshold action (-1 below
    0.33, +1 above 0.66, 0 otherwise) of the logistic squashing (signal
    clamped to [[-500, 500]], with the overflow fallback) of the signal
    [sum of weight_i * clamp(sensor_i, 0, 100) for i in 0..7, plus bias],
    clamped to [[-100, 100]].  The decision is a function of the
    controller and the sensors alone: the source assigns to no attribute
    of the controller and to no element of the genome or of the sensor
    list. *)
Theorem make_decision_spec (genome : list Z) (sensors : list Q) :
  exp_positive -> exp_respects ->
  length genome = 180%nat ->
  length sensors = 8%nat ->
  exists ec wc,
    Brain.__init__ genome = Ok (Brain.mk genome ec wc) /\
    (forall i, (i < 9)%nat ->
       Brain._binary_to_float (slice (10 * i) (10 * i + 10) genome)
       = Ok (nth i ec 0)) /\
    (forall i, (i < 9)%nat ->
       Brain._binary_to_float (slice (90 + 10 * i) (90 + (10 * i + 10)) genome)
       = Ok (nth i wc 0)) /\
    Brain.make_decision (Brain.mk genome ec wc) sensors
    = Ok (Brain.mk_decision (action (channel_signal ec sensors))
                            (action (channel_signal wc sensors))).
Proof.
  intros Hpos Hresp Hg Hs.
  destruct (init_length genome) as [_ Hinit].
  destruct (Hinit Hg) as (ec & wc & Hec & Hwc & Lec & Lwc & Hb).
  exists ec, wc. split; [exact Hb|]. split; [|split].
  - intros i Hi.
    rewrite <- (@slice_firstn _ (10 * i) (10 * i + 10) 90 genome) by lia.
    apply coefficient_of_chunk; [|assumption|assumption].
    rewrite length_firstn. lia.
  - intros i Hi. rewrite <- slice_skipn.
    apply coefficient_of_chunk; [|assumption|assumption].
    rewrite length_skipn. lia.
  - unfold Brain.make_decision. rewrite Hs. cbn [Nat.eqb negb].
    cbn [Brain.engine_coefficients Brain.wheel_coefficients].
    destruct (weighted_signal_spec ec sensors Lec Hs) as (se & Hse & Ese).
    destruct (weighted_signal_spec wc sensors Lwc Hs) as (sw & Hsw & Esw).
    rewrite Hse, Hsw. cbn [bind].
    rewrite !signal_to_action_spec by assumption. cbn [bind].
    rewrite (action_proper Hresp Ese), (action_proper Hresp Esw).
    reflexivity.
Qed.

(** With a positive exponential, no division by zero: a decision is
    always returned. *)
Lemma signal_to_action_ok (signal : Q) :
  exp_positive -> exists z, Brain._signal_to_action signal = Ok z.
Proof.
  intros Hpos. unfold Brain._signal_to_action.
  destruct (math_exp (- max (min signal 500) (-500))) as [e|] eqn:He.
  - apply Hpos in He. unfold div.
    destruct (Qeq_bool (1 + e) 0) eqn:Hz.
    + apply Qeq_bool_eq in Hz. lra.
    + cbn. destruct (Qltb (1 / (1 + e)) (33 # 100)); [eexists; reflexivity|].
      destruct (Qltb (66 # 100) (1 / (1 + e))); eexists; reflexivity.
  - cbn.
    destruct (Qltb _ (33 # 100)); [eexists; reflexivity|].
    destruct (Qltb (66 # 100) _); eexists; reflexivity.
Qed.

Lemma make_decision_ok (brain : Brain.t) (sensors : list Q) :
  exp_positive ->
  length (Brain.engine_coefficients brain) = 9%nat ->
  length (Brain.wheel_coefficients brain) = 9%nat ->
  length sensors = 8%nat ->
  exists d, Brain.make_decision brain sensors = Ok d.
Proof.
  intros Hpos Le Lw Hs. unfold Brain.make_decision.
  rewrite Hs. cbn [Nat.eqb negb].
  destruct (weighted_signal_spec _ sensors Le Hs) as (se & Hse & _).
  destruct (weighted_signal_spec _ sensors Lw Hs) as (sw & Hsw & _).
  rewrite Hse, Hsw. cbn [bind].
  destruct (signal_to_action_ok (max (min se 100) (-100)) Hpos) as [ze Hze].
  destruct (signal_to_action_ok (max (min sw 100) (-100)) Hpos) as [zw Hzw].
  rewrite Hze, Hzw. cbn [bind]. eexists. reflexivity.
Qed.

(** A signal clamped to [[-100, 100]] is left as it is by the second
    clamp to [[-500, 500]]. *)
Lemma second_clamp_is_identity (c sensors : list Q) :
  clamp (-500) 500 (channel_signal c sensors) = channel_signal c sensors.
Proof.
  unfold channel_signal.
  set (v := clamp (-100) 100 _).
  assert (Hv : -100 <= v <= 100) by (apply clamp_bounds; lra).
  unfold clamp at 1.
  destruct (Qltb v (-500)) eqn:E1; [apply Qltb_lt in E1; lra|].
  destruct (Qltb 500 v) eqn:E2; [apply Qltb_lt in E2; lra|reflexivity].
Qed.
End Decide.

Import Host.

(** On the all-zeros genome every coefficient is 2^-7; with every sensor at
    50 both signals are 8 * 50 / 128 + 1 / 128, well above the upper
    threshold once squashed, and both actions are +1. *)
Lemma make_decision_spec_witness :
  exists ec wc,
    Brain.__init__ (repeat 0%Z 180) = Ok (Brain.mk (repeat 0%Z 180) ec wc) /\
    (forall i, (i < 9)%nat ->
       Brain._binary_to_float (slice (10 * i) (10 * i + 10) (repeat 0%Z 180))
       = Ok (nth i ec 0)) /\
    (forall i, (i < 9)%nat ->
       Brain._binary_to_float
         (slice (90 + 10 * i) (90 + (10 * i + 10)) (repeat 0%Z 180))
       = Ok (nth i wc 0)) /\
    Brain.make_decision (Brain.mk (repeat 0%Z 180) ec wc) (repeat 50 8)
    = Ok (Brain.mk_decision (action (channel_signal ec (repeat 50 8)))
                            (action (channel_signal wc (repeat 50 8)))).
Proof.
  apply (@make_decision_spec Host.math (repeat 0%Z 180) (repeat 50 8)).
  - exact HostFacts.exp_pow2_positive.
  - exact HostFacts.exp_pow2_respects.
  - reflexivity.
  - reflexivity.
Defined.

Example decision_all_zero_genome :
  exists brain,
    Brain.__init__ (repeat 0%Z 180) = Ok brain /\
    Brain.make_decision brain (repeat 50 8) = Ok (Brain.mk_decision 1 1) /\
    Brain.make_decision brain (repeat 0 8) = Ok (Brain.mk_decision 0 0).
Proof. eexists. split; [reflexivity|]. split; vm_compute; reflexivity. Qed.

End BrainFacts.

(* ================================================================== *)
(** * The simulation world *)
(* ================================================================== *)

Module EnvFacts.
Import PyFacts Doc Pygame Environment.

Section World.
Context `{MathLib} `{PygameLib}.

(** ** Which attributes each method touches *)

Lemma update_parking_distance_frame (e : t) :
  let e' := _update_parking_distance e in
  car_rect e' = car_rect e /\
  rotated_collision_rect e' = rotated_collision_rect e /\
  custom_rectangles e' = custom_rectangles e /\
  current_state e' = current_state e /\
  episode_finished e' = episode_finished e /\
  current_step e' = current_step e /\
  best_distance e' = best_distance e /\
  current_fitness e' = current_fitness e /\
  ray_distances e' = ray_distances e.
Proof.
  unfold _update_parking_distance.
  destruct (rotated_collision_rect e) eqn:E; cbn; rewrite ?E; repeat split.
Qed.

Lemma update_sensors_frame (e : t) :
  let e' := _update_sensors e in
  car_rect e' = car_rect e /\
  rotated_collision_rect e' = rotated_collision_rect e /\
  custom_rectangles e' = custom_rectangles e /\
  current_state e' = current_state e /\
  episode_finished e' = episode_finished e /\
  current_step e' = current_step e /\
  best_distance e' = best_distance e /\
  current_fitness e' = current_fitness e.
Proof.
  unfold _update_sensors. cbv zeta.
  match goal with |- context [set_ray_distances ?l e] => generalize l end.
  intros l.
  destruct (update_parking_distance_frame (set_ray_distances l e))
    as (H1 & H2 & H3 & H4 & H5 & H6 & H7 & H8 & _).
  repeat split; assumption.
Qed.

(** With a collision rectangle present, the average distance is a
    finite number; without one, it is left as it was. *)
Lemma update_sensors_average (e : t) :
  match rotated_collision_rect e with
  | Some _ => exists d, average_distance (_update_sensors e) = Fin d
  | None => average_distance (_update_sensors e) = average_distance e
  end.
Proof.
  unfold _update_sensors. cbv zeta.
  match goal with |- context [set_ray_distances ?l e] => generalize l end.
  intros l. unfold _update_parking_distance.
  change (rotated_collision_rect (set_ray_distances l e))
    with (rotated_collision_rect e).
  destruct (rotated_collision_rect e); [eexists|]; reflexivity.
Qed.

Lemma update_sensors_eight (e : t) :
  length (ray_distances (_update_sensors e)) = 8%nat.
Proof.
  unfold _update_sensors. cbv zeta.
  match goal with |- context [set_ray_distances ?l e] =>
    assert (Hl : length l = 8%nat) by (now rewrite length_map);
    revert Hl; generalize l end.
  intros l Hl. unfold _update_parking_distance.
  change (rotated_collision_rect (set_ray_distances l e))
    with (rotated_collision_rect e).
  destruct (rotated_collision_rect e); exact Hl.
Qed.

(** ** C8: a finished episode *)

(** C8.  Once the episode has terminated, a step with any action returns
    the current observation, reward 0, done = true and an empty info
    dictionary, and changes nothing in the world; so after any number of
    further steps the world is the same and the next step returns the
    same result again. *)
Theorem step_after_done_is_noop (e : t) (a : Brain.decision)
        (earlier : list Brain.decision) :
  episode_finished e = true ->
  step a e = (e, (get_state e, Fin 0, true, [])) /\
  run earlier e = e /\
  step a (run earlier e) = step a e.
Proof.
  intros Hdone.
  assert (Hstep : forall b, step b e = (e, (get_state e, Fin 0, true, []))).
  { intros b. unfold step. now rewrite Hdone. }
  assert (Hrun : run earlier e = e).
  { induction earlier as [|b rest IH]; [reflexivity|].
    cbn [run]. rewrite Hstep. exact IH. }
  split; [apply Hstep|]. split; [exact Hrun|]. now rewrite Hrun.
Qed.

(** ** The movement of the car *)

Ltac env_simpl :=
  cbv beta iota zeta delta
      [with_current_state set_car_speed set_rotation set_collision_counter
       set_car_pos set_rects set_custom_rectangles set_episode_finished
       set_current_step set_best_distance set_current_fitness
       set_ray_distances set_distances current_state
       car_speed rotation car_pos_x car_pos_y collision_counter time_elapsed
       car_rect rotated_collision_rect custom_rectangles episode_finished
       current_step best_distance current_fitness ray_distances
       distance_to_parking average_distance fst snd].

Lemma center_set (vx vy : Z) (r : Rect) :
  center (set_centery vy (set_centerx vx r)) = (vx, vy).
Proof.
  unfold center, centerx, centery, set_centery, set_centerx. cbn.
  f_equal; lia.
Qed.

(** [_apply_action] first sets speed and heading, then moves. *)
Lemma apply_action_controls (a : Brain.decision) (e : t) :
  _apply_action a e = _update_position (with_current_state (controlled a) e).
Proof.
  unfold _apply_action, controlled, controlled_speed, controlled_heading.
  f_equal.
  destruct e as [cr rr cu s fin st bd cf rd dp ad]; destruct s as [px py sp ro cc te].
  unfold min, max. env_simpl.
  rewrite !Qle_bool_negb_Qltb.
  destruct (Brain.engine a =? 1)%Z; [|destruct (Brain.engine a =? -1)%Z].
  - destruct (Qltb MAX_SPEED (sp + ACCELERATION));
      match goal with |- context [Qltb ?x MIN_TURN_SPEED] =>
        destruct (Qltb x MIN_TURN_SPEED) end; reflexivity.
  - destruct (Qltb (sp - DECELERATION) (- MAX_SPEED_BACKWARD));
      match goal with |- context [Qltb ?x MIN_TURN_SPEED] =>
        destruct (Qltb x MIN_TURN_SPEED) end; reflexivity.
  - destruct (Qltb (Qabs sp) MIN_TURN_SPEED); reflexivity.
Qed.

Lemma update_position_spec (e : t) :
  let s := current_state e in
  let cand :=
    candidate_position (car_pos_x s, car_pos_y s) (car_speed s) (rotation s) in
  let rect := car_rectangle cand (rotation s) in
  let e' := _update_position e in
  let s' := current_state e' in
  rotated_collision_rect e' = Some rect /\
  (custom_rectangles e' = custom_rectangles e /\
   episode_finished e' = episode_finished e /\
   current_step e' = current_step e /\
   best_distance e' = best_distance e /\
   current_fitness e' = current_fitness e) /\
  rotation s' = rotation s /\
  (overlaps rect (custom_rectangles e) = true ->
   car_speed s' = 0 /\
   collision_counter s' = (collision_counter s + 1)%Z /\
   car_pos_x s' = car_pos_x s /\ car_pos_y s' = car_pos_y s) /\
  (overlaps rect (custom_rectangles e) = false ->
   car_speed s' = car_speed s /\
   collision_counter s' = collision_counter s /\
   (Qeq_bool (car_speed s) 0 = false ->
    (car_pos_x s', car_pos_y s') = cand) /\
   (Qeq_bool (car_speed s) 0 = true ->
    car_pos_x s' = car_pos_x s /\ car_pos_y s' = car_pos_y s)).
Proof.
  destruct e as [cr rr cu s fin st bd cf rd dp ad]; destruct s as [px py sp ro cc te].
  unfold _update_position, _check_collisions, the_collision_rect, overlaps,
    car_rectangle, candidate_position.
  env_simpl. rewrite center_set.
  set (rect := get_rect _ _).
  destruct (existsb (colliderect rect) barriers) eqn:B1;
    env_simpl;
    destruct (existsb (colliderect rect) cu) eqn:B2;
    env_simpl;
    destruct ((left rect <? 0)%Z || (WIDTH <? right rect)%Z ||
              (top rect <? 0)%Z || (HEIGHT <? bottom rect)%Z) eqn:B3;
    env_simpl; cbn [negb andb orb];
    try (repeat split; try reflexivity; intros; try discriminate;
         repeat split; reflexivity).
  destruct (Qeq_bool sp 0) eqn:E; cbn [negb]; env_simpl;
    repeat split; try reflexivity; intros; try discriminate;
    repeat split; reflexivity.
Qed.

(** ** The parking predicate *)

(** Parking is judged on the collision rectangle and the heading only. *)
Lemma parked_depends (e1 e2 : t) :
  rotated_collision_rect e1 = rotated_collision_rect e2 ->
  rotation (current_state e1) = rotation (current_state e2) ->
  _is_parked_correctly e1 = _is_parked_correctly e2.
Proof. intros Hr Ha. unfold _is_parked_correctly. now rewrite Hr, Ha. Qed.

(** A non-empty rectangle inside the target overlaps it, so the overlap
    test that guards the containment test never rejects it. *)
Lemma contained_collides (r : Rect) :
  (0 < w r)%Z -> (0 < h r)%Z -> contained r parking_spot ->
  colliderect parking_spot r = true.
Proof.
  unfold contained. intros Hw Hh (H1 & H2 & H3 & H4).
  unfold colliderect, left, right, top, bottom in *.
  change (w parking_spot) with 66%Z in *. change (h parking_spot) with 44%Z in *.
  change (x parking_spot) with 600%Z in *. change (y parking_spot) with 200%Z in *.
  destruct (w r =? 0)%Z eqn:E1; [lia|].
  destruct (h r =? 0)%Z eqn:E2; [lia|].
  cbn [orb Z.eqb].
  repeat (apply andb_true_intro; split); apply Z.ltb_lt; lia.
Qed.

(** ** The reward *)

Lemma calculate_reward_spec (st : observation) (e : t) :
  let e' := fst (_calculate_reward st e) in
  let r := snd (_calculate_reward st e) in
  feq r (reward_sum (obs_collision st) (best_distance e)
                    (obs_distance_to_parking st) (_is_parked_correctly e)) /\
  best_distance e' =
    (if fltb (obs_distance_to_parking st) (best_distance e)
     then obs_distance_to_parking st else best_distance e) /\
  current_fitness e' = fadd (current_fitness e) r /\
  (car_rect e' = car_rect e /\
   rotated_collision_rect e' = rotated_collision_rect e /\
   custom_rectangles e' = custom_rectangles e /\
   current_state e' = current_state e /\
   episode_finished e' = episode_finished e /\
   current_step e' = current_step e /\
   ray_distances e' = ray_distances e /\
   average_distance e' = average_distance e).
Proof.
  unfold _calculate_reward, reward_sum, collision_term, shaping_term,
    parking_term, time_penalty.
  destruct (fltb (obs_distance_to_parking st) (best_distance e)) eqn:Elt.
  - rewrite (@parked_depends (set_best_distance (obs_distance_to_parking st) e) e)
      by reflexivity.
    destruct (_is_parked_correctly e), (obs_collision st); cbn [fst snd];
      (split; [|repeat split; reflexivity]);
      generalize (fmul (fsub (best_distance e) (obs_distance_to_parking st)) (Fin 10));
      intros [q| | |]; cbn; auto; ring.
  - destruct (_is_parked_correctly e), (obs_collision st); cbn [fst snd];
      (split; [|repeat split; reflexivity]);
      cbn; ring.
Qed.

Lemma check_episode_end_frame (st : observation) (e : t) :
  let e' := fst (_check_episode_end st e) in
  car_rect e' = car_rect e /\
  rotated_collision_rect e' = rotated_collision_rect e /\
  custom_rectangles e' = custom_rectangles e /\
  current_state e' = current_state e /\
  current_step e' = current_step e /\
  best_distance e' = best_distance e /\
  current_fitness e' = current_fitness e /\
  ray_distances e' = ray_distances e /\
  average_distance e' = average_distance e.
Proof.
  unfold _check_episode_end.
  destruct (obs_collision st || (max_episode_steps <=? current_step e)%Z ||
            _is_parked_correctly e); cbn; repeat split.
Qed.

(** ** One step of a running episode *)

(** What [after_move] keeps of the world after [_apply_action]. *)
Lemma after_move_frame (a : Brain.decision) (e : t) :
  let e1 := _apply_action a e in
  let w := after_move a e in
  rotated_collision_rect w = rotated_collision_rect e1 /\
  custom_rectangles w = custom_rectangles e1 /\
  current_state w = current_state e1 /\
  episode_finished w = episode_finished e1 /\
  current_step w = (current_step e1 + 1)%Z /\
  best_distance w = best_distance e1 /\
  current_fitness w = current_fitness e1.
Proof.
  unfold after_move. cbv zeta. generalize (_apply_action a e). intros e1.
  destruct (update_sensors_frame (set_current_step (current_step e1 + 1) e1))
    as (_ & H2 & H3 & H4 & H5 & H6 & H7 & H8).
  repeat split; assumption.
Qed.

(** After the move a collision rectangle exists, the one of the
    candidate position, and the average distance is a finite number. *)
Lemma after_move_rect (a : Brain.decision) (e : t) :
  let s1 := controlled a (current_state e) in
  let cand :=
    candidate_position (car_pos_x s1, car_pos_y s1) (car_speed s1) (rotation s1) in
  rotated_collision_rect (after_move a e) = Some (car_rectangle cand (rotation s1)) /\
  best_distance (after_move a e) = best_distance e /\
  current_fitness (after_move a e) = current_fitness e /\
  custom_rectangles (after_move a e) = custom_rectangles e /\
  exists d, average_distance (after_move a e) = Fin d.
Proof.
  cbv zeta.
  destruct (after_move_frame a e) as (Hr & Hcu & _ & _ & _ & Hb & Hf).
  destruct (update_position_spec (with_current_state (controlled a) e))
    as (Hrect & (Hc & _ & _ & Hbd & Hcf) & _).
  rewrite <- apply_action_controls in Hrect, Hc, Hbd, Hcf.
  rewrite Hr, Hb, Hf, Hcu.
  split; [exact Hrect|]. split; [exact Hbd|]. split; [exact Hcf|].
  split; [exact Hc|].
  unfold after_move. cbv zeta.
  revert Hrect. generalize (_apply_action a e). intros e1 Hrect.
  pose proof (update_sensors_average (set_current_step (current_step e1 + 1) e1))
    as Havg.
  change (rotated_collision_rect (set_current_step (current_step e1 + 1) e1))
    with (rotated_collision_rect e1) in Havg.
  rewrite Hrect in Havg. exact Havg.
Qed.


Lemma step_running (a : Brain.decision) (e : t) :
  episode_finished e = false -> step a e = finish (after_move a e).
Proof.
  intros Hrun. unfold step, after_move, finish. rewrite Hrun. cbv zeta.
  destruct (_calculate_reward _ _) as [e3 r]. cbn [fst snd].
  destruct (_check_episode_end _ e3) as [e4 d]. reflexivity.
Qed.

Lemma finish_fields (w : t) :
  let e' := fst (finish w) in
  let r := snd (fst (fst (snd (finish w)))) in
  fst (fst (fst (snd (finish w)))) = get_state w /\
  feq r (reward_sum (0 <? collision_counter (current_state w))%Z
                    (best_distance w) (average_distance w)
                    (_is_parked_correctly w)) /\
  best_distance e' =
    (if fltb (average_distance w) (best_distance w)
     then average_distance w else best_distance w) /\
  current_fitness e' = fadd (current_fitness w) r /\
  current_state e' = current_state w /\
  rotated_collision_rect e' = rotated_collision_rect w /\
  custom_rectangles e' = custom_rectangles w /\
  ray_distances e' = ray_distances w /\
  average_distance e' = average_distance w.
Proof.
  unfold finish. cbv zeta. cbn [fst snd].
  destruct (calculate_reward_spec (get_state w) w)
    as (Hr & Hb & Hf & (_ & R2 & R3 & R4 & _ & _ & R7 & R8)).
  destruct (check_episode_end_frame (get_state w)
              (fst (_calculate_reward (get_state w) w)))
    as (_ & C2 & C3 & C4 & _ & C6 & C7 & C8 & C9).
  rewrite C2, C3, C4, C6, C7, C8, C9, R2, R3, R4, R7, R8, Hb, Hf.
  split; [reflexivity|]. split; [exact Hr|].
  repeat split; reflexivity.
Qed.

(** The attributes of the world after a step of a running episode. *)
Lemma step_running_fields (a : Brain.decision) (e : t) :
  episode_finished e = false ->
  let w := after_move a e in
  let e' := fst (step a e) in
  let r := snd (fst (fst (snd (step a e)))) in
  fst (fst (fst (snd (step a e)))) = get_state w /\
  feq r (reward_sum (0 <? collision_counter (current_state w))%Z
                    (best_distance e) (average_distance w)
                    (_is_parked_correctly w)) /\
  best_distance e' =
    (if fltb (average_distance w) (best_distance e)
     then average_distance w else best_distance e) /\
  current_fitness e' = fadd (current_fitness e) r /\
  current_state e' = current_state w /\
  rotated_collision_rect e' = rotated_collision_rect w /\
  custom_rectangles e' = custom_rectangles w /\
  ray_distances e' = ray_distances w /\
  average_distance e' = average_distance w.
Proof.
  intros Hrun.
  destruct (after_move_rect a e) as (_ & Hbw & Hfw & _ & _).
  rewrite (@step_running a e Hrun), <- Hbw, <- Hfw.
  exact (finish_fields (after_move a e)).
Qed.

(** ** C1: the reward of a step *)

(** C1.  For every step of a running episode, the returned reward is the
    sum of four terms and no other: -100 if the collision counter is
    positive after the move (which, from a zero counter, is exactly when
    the car rectangle at the candidate position overlapped something this
    step), the shaping term (previous best - current average distance)
    * 10 if the current average distance is strictly below the best so
    far, +1000 if the parking predicate holds, and -0.1.  The best
    distance becomes the current one exactly in the shaping case, so it
    never increases; and the reward is added to the episode fitness. *)
Theorem step_reward_is_sum_of_terms (a : Brain.decision) (e : t) :
  episode_finished e = false ->
  let w := after_move a e in
  let e' := fst (step a e) in
  let reward := snd (fst (fst (snd (step a e)))) in
  let s1 := controlled a (current_state e) in
  let cand :=
    candidate_position (car_pos_x s1, car_pos_y s1) (car_speed s1) (rotation s1) in
  feq reward
      (fadd (fadd (fadd (collision_term (0 <? collision_counter (current_state w))%Z)
                        (shaping_term (best_distance e) (average_distance w)))
                  (parking_term (_is_parked_correctly w)))
            time_penalty) /\
  (collision_counter (current_state e) = 0%Z ->
   (0 <? collision_counter (current_state w))%Z
   = overlaps (car_rectangle cand (rotation s1)) (custom_rectangles e)) /\
  best_distance e' =
    (if fltb (average_distance w) (best_distance e)
     then average_distance w else best_distance e) /\
  fltb (best_distance e) (best_distance e') = false /\
  current_fitness e' = fadd (current_fitness e) reward.
Proof.
  intros Hrun. cbv zeta.
  destruct (@step_running_fields a e Hrun) as (_ & Hr & Hb & Hf & _).
  unfold reward_sum in Hr.
  split; [exact Hr|]. split; [|split; [exact Hb|split; [|exact Hf]]].
  - intros Hzero.
    destruct (after_move_frame a e) as (_ & _ & Hs & _).
    rewrite Hs, apply_action_controls.
    destruct (update_position_spec (with_current_state (controlled a) e))
      as (_ & _ & _ & Hhit & Hfree).
    change (current_state (with_current_state (controlled a) e))
      with (controlled a (current_state e)) in Hhit, Hfree.
    change (custom_rectangles (with_current_state (controlled a) e))
      with (custom_rectangles e) in Hhit, Hfree.
    destruct (overlaps _ (custom_rectangles e)) eqn:Eo.
    + destruct (Hhit eq_refl) as (_ & Hc & _).
      rewrite Hc. change (collision_counter (controlled a (current_state e)))
        with (collision_counter (current_state e)).
      rewrite Hzero. reflexivity.
    + destruct (Hfree eq_refl) as (_ & Hc & _).
      rewrite Hc. change (collision_counter (controlled a (current_state e)))
        with (collision_counter (current_state e)).
      rewrite Hzero. reflexivity.
  - rewrite Hb.
    destruct (fltb (average_distance (after_move a e)) (best_distance e)) eqn:E.
    + now apply fltb_asym.
    + apply fltb_irrefl.
Qed.

(** ** C7: collisions *)

(** C7.  In a step of a running episode, let the candidate position be
    the position advanced along the heading at the speed that the action
    leaves.  If the car rectangle at the candidate position overlaps a
    barrier, a registered obstacle or the arena edges, then after the
    step the speed is 0, the collision counter is one more than before
    and the stored position is unchanged.  If it does not overlap and
    the speed is not zero, the stored position is the candidate
    position (and the collision counter and speed are as the action left
    them). *)
Theorem step_collision_frame (a : Brain.decision) (e : t) :
  episode_finished e = false ->
  let s := current_state e in
  let s1 := controlled a s in
  let cand :=
    candidate_position (car_pos_x s, car_pos_y s) (car_speed s1) (rotation s1) in
  let rect := car_rectangle cand (rotation s1) in
  let s' := current_state (fst (step a e)) in
  (overlaps rect (custom_rectangles e) = true ->
   car_speed s' = 0 /\
   collision_counter s' = (collision_counter s + 1)%Z /\
   car_pos_x s' = car_pos_x s /\ car_pos_y s' = car_pos_y s) /\
  (overlaps rect (custom_rectangles e) = false ->
   ~ car_speed s1 == 0 ->
   (car_pos_x s', car_pos_y s') = cand /\
   collision_counter s' = collision_counter s /\
   car_speed s' = car_speed s1).
Proof.
  intros Hrun. cbv zeta.
  destruct (@step_running_fields a e Hrun) as (_ & _ & _ & _ & Hs & _).
  rewrite Hs.
  destruct (after_move_frame a e) as (_ & _ & Hs1 & _).
  rewrite Hs1, apply_action_controls.
  destruct (update_position_spec (with_current_state (controlled a) e))
    as (_ & _ & _ & Hhit & Hfree).
  change (current_state (with_current_state (controlled a) e))
    with (controlled a (current_state e)) in Hhit, Hfree.
  change (custom_rectangles (with_current_state (controlled a) e))
    with (custom_rectangles e) in Hhit, Hfree.
  change (car_pos_x (controlled a (current_state e)))
    with (car_pos_x (current_state e)) in Hhit, Hfree.
  change (car_pos_y (controlled a (current_state e)))
    with (car_pos_y (current_state e)) in Hhit, Hfree.
  change (collision_counter (controlled a (current_state e)))
    with (collision_counter (current_state e)) in Hhit, Hfree.
  split.
  - intros Ho. exact (Hhit Ho).
  - intros Ho Hsp. destruct (Hfree Ho) as (H1 & H2 & H3 & _).
    split; [|split; assumption].
    apply H3. apply not_true_is_false. intros Hz.
    apply Qeq_bool_eq in Hz. exact (Hsp Hz).
Qed.

Lemma reset_fields (e : t) :
  let e0 := fst (reset e) in
  rotated_collision_rect e0 = rotated_collision_rect e /\
  custom_rectangles e0 = custom_rectangles e /\
  current_state e0 = initial_state /\
  episode_finished e0 = false /\
  current_step e0 = 0%Z /\
  best_distance e0 = PInf /\
  current_fitness e0 = Fin 0 /\
  length (ray_distances e0) = 8%nat /\
  snd (reset e) = get_state e0.
Proof.
  unfold reset. cbv zeta. cbn [fst snd].
  match goal with |- context [_update_sensors ?x] =>
    destruct (update_sensors_frame x) as (_ & H2 & H3 & H4 & H5 & H6 & H7 & H8);
    pose proof (update_sensors_eight x) as H9
  end.
  cbv zeta in *. cbn in H2, H3, H4, H5, H6, H7, H8.
  repeat split; assumption.
Qed.

Lemma step_rect (a : Brain.decision) (e : t) :
  rotated_size_positive -> rect_ok e -> rect_ok (fst (step a e)).
Proof.
  intros Hpos Hok.
  destruct (episode_finished e) eqn:Hfin.
  - unfold step. rewrite Hfin. exact Hok.
  - destruct (@step_running_fields a e Hfin) as (_ & _ & _ & _ & _ & Hr & _).
    cbv zeta in Hr.
    destruct (after_move_rect a e) as (Hrect & _). cbv zeta in Hrect.
    intros r Er. rewrite Hr, Hrect in Er. injection Er as <-.
    unfold car_rectangle, get_rect, set_centery, set_centerx. cbn.
    apply Hpos.
Qed.

Lemma reachable_rect_ok (e : t) :
  rotated_size_positive -> reachable e -> rect_ok e.
Proof.
  intros Hpos Hreach. induction Hreach as [|e _ IH|a e _ IH|r e _ IH|r e _ IH].
  - intros r Er. discriminate.
  - destruct (reset_fields e) as (Hr & _). cbv zeta in Hr.
    intros r Er. rewrite Hr in Er. now apply IH.
  - now apply step_rect.
  - exact IH.
  - unfold remove_custom_rectangle.
    destruct (existsb _ _); exact IH.
Qed.

(** C9.  For every world whose collision rectangle, once computed, is
    not empty, the parking predicate holds if and only if the car's
    rotated bounding rectangle exists and lies within the parking target
    on all four sides, and the deviation of the heading (taken in
    [[0, 360)]) from the target heading 0, the smaller of the direct and
    the wrap-around difference, is at most 10 degrees. *)
Theorem parked_iff_contained_and_aligned (e : t) :
  rect_ok e ->
  (_is_parked_correctly e = true <->
   exists r, rotated_collision_rect e = Some r /\
             contained r parking_spot /\
             (heading_deviation (rotation (current_state e) mod 360) <= 10)%Z).
Proof.
  intros Hok. unfold _is_parked_correctly.
  destruct (rotated_collision_rect e) as [r|] eqn:Er.
  2: { split; [discriminate | intros (r & Hr & _); discriminate]. }
  destruct (Hok r Er) as [Hw Hh].
  assert (Ht : truth r = true).
  { unfold truth. apply andb_true_intro.
    split; apply negb_true_iff, Z.eqb_neq; lia. }
  rewrite Ht. cbn [negb]. unfold heading_deviation.
  change (0 + 360)%Z with 360%Z.
  split.
  - intros Hp.
    destruct (colliderect parking_spot r); [|discriminate].
    destruct ((left parking_spot <=? left r)%Z && (right r <=? right parking_spot)%Z &&
              (top parking_spot <=? top r)%Z && (bottom r <=? bottom parking_spot)%Z)
      eqn:Ec; [|discriminate].
    apply andb_prop in Ec. destruct Ec as [Ec E4].
    apply andb_prop in Ec. destruct Ec as [Ec E3].
    apply andb_prop in Ec. destruct Ec as [E1 E2].
    apply Z.leb_le in E1, E2, E3, E4.
    exists r. split; [reflexivity|].
    split; [unfold contained; repeat split; assumption|].
    destruct (_ <=? 10)%Z eqn:Ea in Hp; [|discriminate].
    apply Z.leb_le in Ea. exact Ea.
  - intros (r' & Hr & Hc & Ha). injection Hr as <-.
    rewrite (@contained_collides r Hw Hh Hc).
    unfold contained in Hc. destruct Hc as (H1 & H2 & H3 & H4).
    apply Z.leb_le in H1, H2, H3, H4, Ha.
    rewrite H1, H2, H3, H4. cbn [andb]. now rewrite Ha.
Qed.

(** ** C2: the fitness of an episode *)

Lemma feq_Fin (x : pyfloat) (q : Q) : feq x (Fin q) -> exists q', x = Fin q'.
Proof. destruct x; cbn; intros E; try contradiction. now eexists. Qed.

Lemma reward_sum_finite (c p : bool) (d d' : Q) :
  exists q, reward_sum c (Fin d) (Fin d') p = Fin q.
Proof.
  unfold reward_sum, collision_term, shaping_term, parking_term, time_penalty.
  cbn. destruct c, p, (Qltb d' d); cbn; eexists; reflexivity.
Qed.

Lemma reward_sum_infinite (c p : bool) (d' : Q) :
  shaping_term PInf (Fin d') = PInf /\
  reward_sum c PInf (Fin d') p = PInf.
Proof.
  unfold reward_sum, collision_term, shaping_term, parking_term, time_penalty.
  cbn. destruct c, p; split; reflexivity.
Qed.

(** The first step of an episode: the reward is infinite. *)
Lemma first_step (a : Brain.decision) (e : t) (f : Q) :
  episode_finished e = false ->
  best_distance e = PInf ->
  current_fitness e = Fin f ->
  snd (fst (fst (snd (step a e)))) = PInf /\ saturated (fst (step a e)).
Proof.
  intros Hrun Hbest Hfit.
  destruct (@step_running_fields a e Hrun) as (_ & Hr & Hb & Hf & _).
  cbv zeta in *.
  destruct (after_move_rect a e) as (_ & _ & _ & _ & (d & Hd)).
  rewrite Hbest, Hd in Hr, Hb.
  rewrite (proj2 (reward_sum_infinite _ _ d)) in Hr. apply feq_PInf in Hr.
  split; [exact Hr|]. split.
  - exists d. rewrite Hb. reflexivity.
  - rewrite Hf, Hr, Hfit. reflexivity.
Qed.

(** Every later step: the reward is finite and the fitness stays infinite. *)
Lemma later_step (a : Brain.decision) (e : t) :
  saturated e ->
  (exists q, snd (fst (fst (snd (step a e)))) = Fin q) /\
  saturated (fst (step a e)).
Proof.
  intros [[d Hbest] Hfit].
  destruct (episode_finished e) eqn:Hfin.
  - unfold step. rewrite Hfin. cbn. split; [now eexists|].
    split; [now exists d | exact Hfit].
  - destruct (@step_running_fields a e Hfin) as (_ & Hr & Hb & Hf & _).
    cbv zeta in *.
    destruct (after_move_rect a e) as (_ & _ & _ & _ & (d' & Hd)).
    rewrite Hbest, Hd in Hr, Hb.
    destruct (reward_sum_finite
                (0 <? collision_counter (current_state (after_move a e)))%Z
                (_is_parked_correctly (after_move a e)) d d') as [q Hq].
    rewrite Hq in Hr. apply feq_Fin in Hr. destruct Hr as [q' Hr].
    split; [now exists q'|]. split.
    + rewrite Hb. cbn. destruct (Qltb d' d); eexists; reflexivity.
    + rewrite Hf, Hr, Hfit. reflexivity.
Qed.

Lemma run_saturated (l : list Brain.decision) (e : t) :
  saturated e -> saturated (run l e).
Proof.
  revert e. induction l as [|a l IH]; intros e He; [exact He|].
  cbn [run]. apply IH. now apply later_step.
Qed.
End World.

Import Host Examples.

(** The crashed world is finished, and stepping it changes nothing. *)
Lemma step_after_done_is_noop_witness :
  episode_finished crashed = true /\
  step idle crashed = (crashed, (get_state crashed, Fin 0, true, [])) /\
  run [forward; idle] crashed = crashed /\
  step idle (run [forward; idle] crashed) = step idle crashed.
Proof.
  split; [vm_compute; reflexivity|].
  apply (@step_after_done_is_noop Host.math Host.pygame crashed idle [forward; idle]).
  vm_compute. reflexivity.
Defined.

(** Next to the wall, the reward of a forward step obeys the decomposition. *)
Lemma step_reward_is_sum_of_terms_witness :
  episode_finished near_wall = false /\
  let w := after_move forward near_wall in
  let e' := fst (step forward near_wall) in
  let reward := snd (fst (fst (snd (step forward near_wall)))) in
  let s1 := controlled forward (current_state near_wall) in
  let cand :=
    candidate_position (car_pos_x s1, car_pos_y s1) (car_speed s1) (rotation s1) in
  feq reward
      (fadd (fadd (fadd (collision_term (0 <? collision_counter (current_state w))%Z)
                        (shaping_term (best_distance near_wall) (average_distance w)))
                  (parking_term (_is_parked_correctly w)))
            time_penalty) /\
  (collision_counter (current_state near_wall) = 0%Z ->
   (0 <? collision_counter (current_state w))%Z
   = overlaps (car_rectangle cand (rotation s1)) (custom_rectangles near_wall)) /\
  best_distance e' =
    (if fltb (average_distance w) (best_distance near_wall)
     then average_distance w else best_distance near_wall) /\
  fltb (best_distance near_wall) (best_distance e') = false /\
  current_fitness e' = fadd (current_fitness near_wall) reward.
Proof.
  split; [reflexivity|].
  apply (@step_reward_is_sum_of_terms Host.math Host.pygame forward near_wall).
  reflexivity.
Defined.

(** There the car hits the right barrier: the reward is -100 - 0.1. *)
Example reward_next_to_the_wall :
  snd (fst (fst (snd (step forward near_wall)))) = Fin (-1001 # 10).
Proof. vm_compute. reflexivity. Qed.

(** A forward step next to the wall, and one in the open. *)
Lemma step_collision_frame_witness :
  episode_finished near_wall = false /\
  let s := current_state near_wall in
  let s1 := controlled forward s in
  let cand :=
    candidate_position (car_pos_x s, car_pos_y s) (car_speed s1) (rotation s1) in
  let rect := car_rectangle cand (rotation s1) in
  let s' := current_state (fst (step forward near_wall)) in
  (overlaps rect (custom_rectangles near_wall) = true ->
   car_speed s' = 0 /\
   collision_counter s' = (collision_counter s + 1)%Z /\
   car_pos_x s' = car_pos_x s /\ car_pos_y s' = car_pos_y s) /\
  (overlaps rect (custom_rectangles near_wall) = false ->
   ~ car_speed s1 == 0 ->
   (car_pos_x s', car_pos_y s') = cand /\
   collision_counter s' = collision_counter s /\
   car_speed s' = car_speed s1).
Proof.
  split; [reflexivity|].
  apply (@step_collision_frame Host.math Host.pygame forward near_wall).
  reflexivity.
Defined.

(** Driven straight into the right barrier, the car stays where it was,
    stopped, with one collision counted; in the open it advances. *)
Example drive_into_the_wall :
  overlaps (mkRect 755 285 44 30) [] = true /\
  current_state (fst (step forward near_wall)) = mk_car_state 775 300 0 0 1 0.
Proof. split; vm_compute; reflexivity. Qed.

Example drive_in_the_open :
  let s' := current_state (fst (step forward __init__)) in
  car_pos_x s' == 100 + (1 # 40) /\ car_pos_y s' == 300 /\
  car_speed s' == 1 # 40 /\ collision_counter s' = 0%Z.
Proof. vm_compute. repeat split. Qed.

(** A car rectangle inside the target, heading 0. *)
Lemma parked_iff_contained_and_aligned_witness :
  rect_ok (in_target 0) /\
  (_is_parked_correctly (in_target 0) = true <->
   exists r, rotated_collision_rect (in_target 0) = Some r /\
             contained r parking_spot /\
             (heading_deviation (rotation (current_state (in_target 0)) mod 360) <= 10)%Z).
Proof.
  assert (Hok : rect_ok (in_target 0)).
  { intros r Er. injection Er as <-. cbn. lia. }
  split; [exact Hok|].
  apply (@parked_iff_contained_and_aligned (in_target 0) Hok).
Defined.

(** Inside the target the car is parked at headings 0, 10 and 355, and
    not at 15 or 349; a rectangle that sticks out is never parked. *)
Example parked_by_heading :
  contained (mkRect 610 205 44 30) parking_spot /\
  _is_parked_correctly (in_target 0) = true /\
  _is_parked_correctly (in_target 10) = true /\
  _is_parked_correctly (in_target 355) = true /\
  _is_parked_correctly (in_target 15) = false /\
  _is_parked_correctly (in_target 349) = false /\
  _is_parked_correctly near_wall = false.
Proof. split; [unfold contained; cbn; lia|]. repeat split. Qed.

End EnvFacts.

(* ================================================================== *)
(** * The fitness of an episode *)
(* ================================================================== *)

Module EpisodeFacts.
Import PyFacts Doc Pygame Environment EnvFacts.

Section World.
Context `{MathLib} `{PygameLib}.

(** After the first step, the evaluation loop keeps an infinite total. *)
Lemma evaluate_loop_saturated (n : nat) (brain : Brain.t) :
  exp_positive ->
  length (Brain.engine_coefficients brain) = 9%nat ->
  length (Brain.wheel_coefficients brain) = 9%nat ->
  forall (env : t) (state : observation),
    saturated env ->
    length (obs_sensors state) = 8%nat ->
    exists env', Trainer._evaluate_loop n brain env state PInf = Ok (env', PInf).
Proof.
  intros Hpos Le Lw. induction n as [|n IH]; intros env state Hsat Hlen.
  - exists env. reflexivity.
  - cbn [Trainer._evaluate_loop].
    destruct (obs_collision state || episode_finished env) eqn:Hstop.
    + exists env. reflexivity.
    + apply orb_false_elim in Hstop. destruct Hstop as [_ Hrun].
      destruct (@BrainFacts.make_decision_ok _ brain
                  (map inject_Z (obs_sensors state)) Hpos Le Lw) as [d Hd].
      { now rewrite length_map. }
      rewrite Hd. cbn [bind].
      destruct (later_step d Hsat) as [[q Hq] Hsat'].
      destruct (@step_running_fields _ _ d env Hrun) as (Hst & _).
      cbv zeta in Hst.
      destruct (step d env) as [env1 [[[st1 r] dn] inf]].
      cbn [fst snd] in *. subst r st1.
      apply IH; [exact Hsat'|].
      cbn. unfold after_move. apply update_sensors_eight.
Qed.

(** The evaluation of a genome: the first step makes the total
    infinite, and it stays so. *)
Lemma evaluate_genome_infinite (env : t) (genome : list Z) :
  exp_positive ->
  length genome = 180%nat ->
  exists env', Trainer.evaluate_genome env genome = Ok (env', PInf).
Proof.
  intros Hpos Hlen. unfold Trainer.evaluate_genome.
  destruct (BrainFacts.init_length genome) as [_ Hinit].
  destruct (Hinit Hlen) as (ec & wc & _ & _ & Le & Lw & Hb).
  rewrite Hb. cbn [bind].
  destruct (reset_fields env) as (_ & _ & Hs & Hrun & _ & Hbest & Hfit & Hrays & Hobs).
  cbv zeta in *.
  destruct (reset env) as [e0 state]. cbn [fst snd] in *. subst state.
  change (1000%nat) with (S 999). generalize 999%nat. intros n.
  cbn [Trainer._evaluate_loop].
  assert (Hcoll : obs_collision (get_state e0) = false)
    by (cbn; rewrite Hs; reflexivity).
  rewrite Hcoll, Hrun. cbn [orb].
  destruct (@BrainFacts.make_decision_ok _ (Brain.mk genome ec wc)
              (map inject_Z (obs_sensors (get_state e0))) Hpos Le Lw) as [d Hd].
  { rewrite length_map. exact Hrays. }
  rewrite Hd. cbn [bind].
  destruct (@first_step _ _ d e0 0 Hrun Hbest Hfit) as [Hr Hsat].
  destruct (@step_running_fields _ _ d e0 Hrun) as (Hst & _).
  cbv zeta in Hst.
  destruct (step d e0) as [env1 [[[st1 r] dn] inf]].
  cbn [fst snd] in *. subst r st1.
  destruct (@evaluate_loop_saturated n (Brain.mk genome ec wc) Hpos Le Lw
              env1 (get_state (after_move d e0)) Hsat) as [env2 Hloop].
  { cbn. unfold after_move. apply update_sensors_eight. }
  change (fadd (Fin 0) PInf) with PInf. rewrite Hloop. cbn [bind].
  destruct (reset env2) as [env3 ?]. now exists env3.
Qed.

(** C2 (as amended).  [reset] sets the best-distance tracker to
    +infinity and leaves the collision rectangle as it is: absent in a
    freshly constructed world, where the reported average distance is
    therefore still the +infinity of construction.  A step computes the
    rectangle, and with it a finite average distance.  Hence, for every
    world, every action and every genome, on the first step after a
    reset the shaping term (previous best - current) * 10 is +infinity
    and so is the reward; the fitness accumulated over any episode of at
    least one step is +infinity, and so is the total that the trainer's
    evaluation of a genome returns. *)
Theorem episode_fitness_is_infinite (e : t) (a : Brain.decision)
        (rest : list Brain.decision) (genome : list Z) :
  exp_positive ->
  length genome = 180%nat ->
  let e0 := fst (reset e) in
  (best_distance e0 = PInf /\
   rotated_collision_rect e0 = rotated_collision_rect e) /\
  (rotated_collision_rect __init__ = None /\
   average_distance (fst (reset __init__)) = PInf) /\
  (exists r d, rotated_collision_rect (after_move a e0) = Some r /\
               average_distance (after_move a e0) = Fin d) /\
  shaping_term (best_distance e0) (average_distance (after_move a e0)) = PInf /\
  snd (fst (fst (snd (step a e0)))) = PInf /\
  current_fitness (run (a :: rest) e0) = PInf /\
  exists env', Trainer.evaluate_genome e genome = Ok (env', PInf).
Proof.
  intros Hpos Hlen. cbv zeta.
  destruct (reset_fields e) as (Hr & _ & _ & Hrun & _ & Hbest & Hfit & _).
  destruct (after_move_rect a (fst (reset e))) as (Hrect & _ & _ & _ & (d & Hd)).
  split; [split; assumption|]. split; [split; [reflexivity|]|].
  { unfold reset. cbv zeta. cbn [fst].
    match goal with |- context [_update_sensors ?x] =>
      pose proof (update_sensors_average x) as Havg end.
    exact Havg. }
  split; [eexists; exists d; split; [exact Hrect | exact Hd]|].
  rewrite Hbest, Hd.
  split; [exact (proj1 (reward_sum_infinite false false d))|].
  destruct (@first_step _ _ a (fst (reset e)) 0 Hrun Hbest Hfit) as [Hrew Hsat].
  split; [exact Hrew|]. split.
  - cbn [run]. exact (proj2 (run_saturated rest Hsat)).
  - now apply evaluate_genome_infinite.
Qed.
End World.

Import Host Examples.

(** C2, at a concrete input: in a world that has already made a step,
    [reset] does not report an infinite average distance. *)
Lemma reset_reports_stale_average_distance :
  rotated_collision_rect rolling = Some (mkRect 78 285 44 30) /\
  average_distance (fst (reset rolling)) <> PInf /\
  obs_distance_to_parking (snd (reset rolling)) <> PInf.
Proof.
  split; [vm_compute; reflexivity|].
  split; vm_compute; discriminate.
Qed.

(** An episode on the all-zeros genome, started from a used world. *)
Lemma episode_fitness_is_infinite_witness :
  let e0 := fst (reset rolling) in
  (best_distance e0 = PInf /\
   rotated_collision_rect e0 = rotated_collision_rect rolling) /\
  (rotated_collision_rect __init__ = None /\
   average_distance (fst (reset __init__)) = PInf) /\
  (exists r d, rotated_collision_rect (after_move forward e0) = Some r /\
               average_distance (after_move forward e0) = Fin d) /\
  shaping_term (best_distance e0) (average_distance (after_move forward e0)) = PInf /\
  snd (fst (fst (snd (step forward e0)))) = PInf /\
  current_fitness (run (forward :: [idle; forward]) e0) = PInf /\
  exists env', Trainer.evaluate_genome rolling (repeat 0%Z 180) = Ok (env', PInf).
Proof.
  apply (@episode_fitness_is_infinite Host.math Host.pygame rolling forward
           [idle; forward] (repeat 0%Z 180)).
  - exact HostFacts.exp_pow2_positive.
  - reflexivity.
Defined.

(** Two steps of an episode: the fitness is infinite from the first. *)
Example fitness_after_two_steps :
  map (fun l => current_fitness (run l (fst (reset __init__))))
      [[]; [forward]; [forward; idle]]
  = [Fin 0; PInf; PInf].
Proof. vm_compute. reflexivity. Qed.

End EpisodeFacts.

(* ================================================================== *)
(** * The evolution engine *)
(* ================================================================== *)

Module GAFacts.
Import PyFacts Doc Random GeneticAlgorithm.

(** ** Sampling *)

Lemma remove_nth_length {A} (j : nat) (l : list A) :
  (j < length l)%nat -> length (remove_nth j l) = (length l - 1)%nat.
Proof.
  revert j. induction l as [|a l IH]; intros j Hj; [inversion Hj|].
  destruct j as [|j]; cbn; [lia|].
  cbn in Hj. rewrite IH by lia. lia.
Qed.

Lemma remove_nth_In {A} (j : nat) (l : list A) (a : A) :
  In a (remove_nth j l) -> In a l.
Proof.
  revert j. induction l as [|b l IH]; intros j Hin; [destruct j; exact Hin|].
  destruct j as [|j]; cbn in Hin; [now right|].
  destruct Hin as [-> | Hin]; [now left | right; eauto].
Qed.

Lemma sample_loop_spec {A} (k : nat) (pool : list A) (g : rng) :
  (k <= length pool)%nat ->
  length (fst (sample_loop k pool g)) = k /\
  forall a, In a (fst (sample_loop k pool g)) -> In a pool.
Proof.
  revert pool g. induction k as [|k IH]; intros pool g Hk; cbn.
  - split; [reflexivity | intros a []].
  - destruct (draw g) as [v g1].
    assert (Hj : (Z.to_nat (v mod Z.of_nat (length pool)) < length pool)%nat).
    { assert (0 <= v mod Z.of_nat (length pool) < Z.of_nat (length pool))%Z
        by (apply Z.mod_pos_bound; lia).
      lia. }
    destruct (nth_error pool _) as [a|] eqn:Ea.
    2: { apply nth_error_None in Ea. lia. }
    specialize (IH (remove_nth (Z.to_nat (v mod Z.of_nat (length pool))) pool) g1).
    destruct (sample_loop k _ g1) as [rest g2]. cbn in *.
    destruct IH as [IH1 IH2]; [rewrite remove_nth_length; lia|].
    split; [now rewrite IH1|].
    intros b [<- | Hb].
    + eapply nth_error_In; eauto.
    + eapply remove_nth_In; eauto.
Qed.

(** [random.sample] succeeds exactly when the sample is not larger than
    the pool, and then returns [k] elements of the pool. *)
Lemma sample_ok {A} (pool : list A) (k : nat) (g : rng) :
  (k <= length pool)%nat ->
  exists l g', sample pool k g = Ok (l, g') /\ length l = k /\
               forall a, In a l -> In a pool.
Proof.
  intros Hk. unfold sample.
  destruct (length pool <? k)%nat eqn:E; [apply Nat.ltb_lt in E; lia|].
  destruct (@sample_loop_spec A k pool g Hk) as [H1 H2].
  destruct (sample_loop k pool g) as [l g'] eqn:Es. cbn in *.
  exists l, g'. repeat split; assumption.
Qed.

Lemma sample_too_large {A} (pool : list A) (k : nat) (g : rng) :
  (length pool < k)%nat ->
  sample pool k g = Raise (ValueError "Sample larger than population or is negative").
Proof.
  intros Hk. unfold sample. apply Nat.ltb_lt in Hk. now rewrite Hk.
Qed.

(** ** Selection *)

Lemma fold_best_In {A} (key : A -> Q) (l : list A) (a : A) :
  In (fold_left (fun best c => if Qltb (key best) (key c) then c else best) l a)
     (a :: l).
Proof.
  revert a. induction l as [|b l IH]; intros a; cbn; [now left|].
  destruct (Qltb (key a) (key b)).
  - right. apply IH.
  - destruct (IH a) as [E | Hin]; [left; exact E | right; now right].
Qed.

Lemma max_by_key_In {A} (key : A -> Q) (l : list A) :
  l <> [] -> exists a, max_by_key key l = Ok a /\ In a l.
Proof.
  destruct l as [|a l]; [congruence|]. intros _. cbn.
  eexists. split; [reflexivity|]. apply fold_best_In.
Qed.

Lemma enumerate_In {A} (l : list A) (i : nat) (a : A) :
  In (i, a) (enumerate l) -> (i < length l)%nat.
Proof.
  unfold enumerate. intros Hin. apply in_combine_l in Hin.
  apply in_seq in Hin. lia.
Qed.

Lemma enumerate_length {A} (l : list A) : length (enumerate l) = length l.
Proof.
  unfold enumerate. rewrite length_combine, length_seq. lia.
Qed.

Lemma select_parent_ok (self : t) (scores : list Q) (g : rng) :
  (1 <= tournament_size self <= length scores)%nat ->
  length scores = length (population self) ->
  exists p g', _select_parent self scores g = Ok (p, g') /\ In p (population self).
Proof.
  intros HT Hlen. unfold _select_parent.
  destruct (@sample_ok _ (enumerate scores) (tournament_size self) g)
    as (l & g' & Hs & Hl & Hin).
  { rewrite enumerate_length. lia. }
  rewrite Hs. cbn [bind].
  destruct (@max_by_key_In _ snd l) as (win & Hw & Hwin).
  { intros ->. cbn in Hl. lia. }
  rewrite Hw. cbn [bind].
  destruct win as [i f]. apply Hin, enumerate_In in Hwin. cbn [fst].
  unfold getitem.
  destruct (nth_error (population self) i) as [p|] eqn:Ep.
  - cbn. exists p, g'. split; [reflexivity|]. eapply nth_error_In; eauto.
  - apply nth_error_None in Ep. lia.
Qed.

(** ** Crossover and mutation keep the genome length *)

Lemma crossover_ok (p1 p2 : genome) (g : rng) :
  length p1 = length p2 -> (2 <= length p1)%nat ->
  exists c1 c2 g', _crossover p1 p2 g = Ok (c1, c2, g') /\
                   length c1 = length p1 /\ length c2 = length p1.
Proof.
  intros Hlen H2. unfold _crossover.
  rewrite Hlen, Nat.eqb_refl. cbn [negb].
  destruct (@sample_ok _ (seq 0 (length p2)) 2 g) as (l & g' & Hs & Hl & Hin).
  { rewrite length_seq. lia. }
  rewrite Hs. cbn [bind].
  destruct l as [|a [|b [|? ?]]]; try discriminate. cbn [nth].
  assert (Ha : (a < length p2)%nat) by (apply in_seq with (start := O); apply Hin; now left).
  assert (Hb : (b < length p2)%nat)
    by (apply in_seq with (start := O); apply Hin; right; now left).
  do 3 eexists. split; [reflexivity|].
  rewrite !length_app, !length_firstn, !length_skipn.
  unfold slice. rewrite !length_firstn, !length_skipn. lia.
Qed.

Lemma flip_length (i : nat) (l : genome) : length (flip i l) = length l.
Proof.
  revert i. induction l as [|b l IH]; intros [|i]; cbn; auto.
Qed.

Lemma mutate_step_length (rate : Q) (st : genome * rng) (i : nat) :
  length (fst (_mutate_step rate st i)) = length (fst st).
Proof.
  destruct st as [m g]. unfold _mutate_step.
  destruct (random g) as [r g1].
  destruct (Qltb r rate); [|reflexivity].
  destruct (0 <? i)%nat.
  - destruct (random g1) as [r2 g2].
    destruct (Qltb r2 (3 # 10));
      match goal with |- context [(i <? ?n)%nat] => destruct (i <? n)%nat end;
      try (destruct (random g2) as [r3 g3]; destruct (Qltb r3 (3 # 10)));
      cbn; rewrite ?flip_length; reflexivity.
  - match goal with |- context [(i <? ?n)%nat] => destruct (i <? n)%nat end;
      try (destruct (random g1) as [r3 g3]; destruct (Qltb r3 (3 # 10)));
      cbn; rewrite ?flip_length; reflexivity.
Qed.

Lemma mutate_length (self : t) (gen : genome) (g : rng) :
  length (fst (_mutate self gen g)) = length gen.
Proof.
  unfold _mutate.
  assert (Hgen : forall l st,
             length (fst (fold_left (_mutate_step (mutation_rate self)) l st))
             = length (fst st)).
  { induction l as [|i l IH]; intros st; [reflexivity|].
    cbn [fold_left]. rewrite IH. apply mutate_step_length. }
  apply Hgen.
Qed.

(** ** The ranking *)

Lemma insert_desc_perm (key : nat -> Q) (i : nat) (l : list nat) :
  Permutation (insert_desc key i l) (i :: l).
Proof.
  induction l as [|j l IH]; cbn; [reflexivity|].
  destruct (Qltb (key i) (key j)); [|reflexivity].
  rewrite IH. apply perm_swap.
Qed.

Lemma sorted_desc_perm (key : nat -> Q) (l : list nat) :
  Permutation (sorted_desc key l) l.
Proof.
  induction l as [|i l IH]; cbn; [reflexivity|].
  rewrite insert_desc_perm. now constructor.
Qed.

Lemma insert_desc_sorted (scores : list Q) (i : nat) (l : list nat) :
  StronglySorted (ranks_before scores) l ->
  Forall (fun j => (i < j)%nat) l ->
  StronglySorted (ranks_before scores) (insert_desc (fun k => nth k scores 0) i l).
Proof.
  intros Hs Hlt. induction Hs as [|j l Hs IH Hj]; cbn.
  - repeat constructor.
  - inversion Hlt as [|? ? Hij Hlt']; subst.
    destruct (Qltb (nth i scores 0) (nth j scores 0)) eqn:E.
    + apply Qltb_lt in E. constructor; [now apply IH|].
      rewrite insert_desc_perm. constructor; [now left | exact Hj].
    + apply Qltb_ge in E. constructor; [now constructor|].
      assert (Hij' : ranks_before scores i j).
      { destruct (Qlt_le_dec (nth j scores 0) (nth i scores 0)) as [L | L];
          [now left | right]. split; [lra | exact Hij]. }
      constructor; [exact Hij'|].
      rewrite Forall_forall in *. intros k Hk.
      specialize (Hj k Hk). specialize (Hlt' k Hk).
      unfold ranks_before in *.
      destruct Hj as [Hj | [Hj _]];
        (destruct (Qlt_le_dec (nth k scores 0) (nth i scores 0)) as [L | L];
         [now left | right; split; [lra | exact Hlt']]).
Qed.

Lemma seq_above (a n : nat) : Forall (fun j => (a < j)%nat) (seq (S a) n).
Proof.
  apply Forall_forall. intros j Hj. apply in_seq in Hj. lia.
Qed.

Lemma sorted_desc_seq_sorted (scores : list Q) (a n : nat) :
  StronglySorted (ranks_before scores)
                 (sorted_desc (fun k => nth k scores 0) (seq a n)).
Proof.
  revert a. induction n as [|n IH]; intros a; cbn; [constructor|].
  apply insert_desc_sorted; [apply IH|].
  apply Forall_forall. intros j Hj.
  apply (Permutation_in _ (sorted_desc_perm _ _)) in Hj.
  apply in_seq in Hj. lia.
Qed.

(** ** Normalisation *)

Lemma min_list_In (l : list Q) :
  l <> [] -> exists m, min_list l = Ok m /\ In m l.
Proof.
  destruct l as [|a l]; [congruence|]. intros _. cbn.
  eexists. split; [reflexivity|].
  revert a. induction l as [|b l IH]; intros a; cbn; [now left|].
  destruct (Qltb b a).
  - right. apply IH.
  - destruct (IH a) as [E | Hin]; [left; exact E | right; now right].
Qed.

Lemma div_ok (x y : Q) : ~ y == 0 -> div x y = Ok (x / y).
Proof.
  intros Hy. unfold div. destruct (Qeq_bool y 0) eqn:E; [|reflexivity].
  apply Qeq_bool_eq in E. contradiction.
Qed.

Lemma normalize_ok (scores : list Q) :
  scores <> [] ->
  exists n, normalize scores = Ok n /\ length n = length scores.
Proof.
  intros Hne. unfold normalize.
  destruct (@min_list_In scores Hne) as (mn & Hmn & _).
  destruct (@max_by_key_In _ (fun v => v) scores Hne) as (mx & Hmx & _).
  unfold max_list. rewrite Hmn, Hmx. cbn [bind].
  destruct (Qeq_bool mx mn) eqn:E; cbn [negb].
  - rewrite div_ok.
    + cbn [bind]. eexists. split; [reflexivity|]. apply repeat_length.
    + destruct scores; [congruence|]. cbn [length].
      intros Hz. unfold Qeq in Hz. cbn in Hz. lia.
  - destruct (@BrainFacts.mapM_ok _ _ (fun f => div (f - mn) (mx - mn)) scores)
      as (n & Hn & Hl).
    + intros a _. eexists. apply div_ok.
      intros Hz. apply Qeq_bool_neq in E. apply E. lra.
    + exists n. split; assumption.
Qed.

(** With all scores equal, minimum and maximum coincide and every member
    gets the share 1/N. *)
Lemma normalize_equal (scores : list Q) (c : Q) :
  scores <> [] ->
  Forall (fun f => f == c) scores ->
  normalize scores
  = Ok (repeat (1 / inject_Z (Z.of_nat (length scores))) (length scores)).
Proof.
  intros Hne Hall. unfold normalize.
  destruct (@min_list_In scores Hne) as (mn & Hmn & Imn).
  destruct (@max_by_key_In _ (fun v => v) scores Hne) as (mx & Hmx & Imx).
  unfold max_list. rewrite Hmn, Hmx. cbn [bind].
  rewrite Forall_forall in Hall.
  assert (E : Qeq_bool mx mn = true).
  { apply Qeq_bool_iff. rewrite (Hall _ Imn), (Hall _ Imx). reflexivity. }
  rewrite E. cbn [negb].
  rewrite div_ok; [reflexivity|].
  destruct scores; [congruence|]. cbn [length].
  intros Hz. unfold Qeq in Hz. cbn in Hz. lia.
Qed.

(** ** The loop that fills the new generation *)

Lemma firstn_prefix {A} (acc more new : list A) :
  firstn (length (acc ++ more)) new = acc ++ more ->
  firstn (length acc) new = acc.
Proof.
  intros Hp.
  assert (Ha : firstn (length acc) (acc ++ more) = acc).
  { rewrite firstn_app, Nat.sub_diag, firstn_all. cbn. apply app_nil_r. }
  rewrite <- Hp, firstn_firstn in Ha.
  rewrite length_app in Ha.
  replace (Nat.min (length acc) (length acc + length more)) with (length acc) in Ha
    by lia.
  exact Ha.
Qed.

Lemma evolve_loop_ok (self : t) (norm : list Q) :
  well_formed self ->
  (1 <= tournament_size self <= length norm)%nat ->
  length norm = population_size self ->
  (2 <= genome_length self)%nat ->
  forall (fuel : nat) (acc : list genome) (g : rng),
    Forall (fun c => length c = genome_length self) acc ->
    (length acc <= population_size self)%nat ->
    (population_size self - length acc <= fuel)%nat ->
    exists new g',
      _evolve_loop fuel self norm acc g = Some (Ok (new, g')) /\
      length new = population_size self /\
      firstn (length acc) new = acc /\
      Forall (fun c => length c = genome_length self) new.
Proof.
  intros [Hsize Hgen] HT Hnorm HL.
  induction fuel as [|fuel IH]; intros acc g Hacc Hle Hfuel.
  - exists acc, g. cbn [_evolve_loop].
    destruct (length acc <? population_size self)%nat eqn:E;
      [apply Nat.ltb_lt in E; lia|].
    cbn [negb]. repeat split; [lia | apply firstn_all | exact Hacc].
  - cbn [_evolve_loop].
    destruct (length acc <? population_size self)%nat eqn:E; cbn [negb].
    2: { apply Nat.ltb_ge in E. exists acc, g.
         repeat split; [lia | apply firstn_all | exact Hacc]. }
    apply Nat.ltb_lt in E.
    destruct (@select_parent_ok self norm g) as (p1 & g1 & Hp1 & I1); [lia|lia|].
    rewrite Hp1.
    destruct (@select_parent_ok self norm g1) as (p2 & g2 & Hp2 & I2); [lia|lia|].
    rewrite Hp2.
    rewrite Forall_forall in Hgen.
    destruct (@crossover_ok p1 p2 g2) as (c1 & c2 & g3 & Hc & L1 & L2).
    { now rewrite (Hgen _ I1), (Hgen _ I2). }
    { rewrite (Hgen _ I1). exact HL. }
    rewrite Hc.
    pose proof (mutate_length self c1 g3) as M1.
    destruct (_mutate self c1 g3) as [m1 g4]. cbn [fst] in M1.
    cbv beta iota.
    assert (Hacc1 : Forall (fun c => length c = genome_length self) (acc ++ [m1])).
    { apply Forall_app. split; [exact Hacc|]. constructor; [|constructor].
      rewrite M1, L1. now apply Hgen. }
    destruct (length (acc ++ [m1]) <? population_size self)%nat eqn:E2.
    + pose proof (mutate_length self c2 g4) as M2.
      destruct (_mutate self c2 g4) as [m2 g5]. cbn [fst] in M2. cbv beta iota.
      apply Nat.ltb_lt in E2. rewrite length_app in E2. cbn in E2.
      destruct (IH ((acc ++ [m1]) ++ [m2]) g5) as (new & g' & Hnew & Ln & Pn & Fn).
      * apply Forall_app. split; [exact Hacc1|]. constructor; [|constructor].
        rewrite M2, L2. now apply Hgen.
      * rewrite !length_app. cbn. lia.
      * rewrite !length_app. cbn. lia.
      * exists new, g'. repeat split; try assumption.
        rewrite <- app_assoc in Pn. exact (firstn_prefix _ _ _ Pn).
    + apply Nat.ltb_ge in E2. rewrite length_app in E2. cbn in E2.
      destruct (IH (acc ++ [m1]) g4) as (new & g' & Hnew & Ln & Pn & Fn).
      * exact Hacc1.
      * rewrite length_app. cbn. lia.
      * rewrite length_app. cbn. lia.
      * exists new, g'. repeat split; try assumption.
        exact (firstn_prefix _ _ _ Pn).
Qed.

(** ** One generation *)

Lemma mapM_getitem {A} (l : list A) (d : A) (idx : list nat) :
  Forall (fun i => (i < length l)%nat) idx ->
  mapM (getitem l) idx = Ok (map (fun i => nth i l d) idx).
Proof.
  induction idx as [|i idx IH]; intros Hall; [reflexivity|].
  inversion Hall as [|? ? Hi Hall']; subst. cbn. unfold getitem at 1.
  destruct (nth_error l i) as [a|] eqn:Ea.
  - cbn. rewrite IH by assumption. cbn.
    now rewrite (nth_error_nth _ _ d Ea).
  - apply nth_error_None in Ea. lia.
Qed.

Lemma firstn_In {A} (n : nat) (l : list A) (a : A) :
  In a (firstn n l) -> In a l.
Proof.
  intros Hin. rewrite <- (firstn_skipn n l). apply in_or_app. now left.
Qed.

Lemma ranking_spec (scores : list Q) :
  Permutation (ranking scores) (seq 0 (length scores)) /\
  StronglySorted (ranks_before scores) (ranking scores).
Proof.
  split; [apply sorted_desc_perm | apply sorted_desc_seq_sorted].
Qed.

Lemma evolve_ok (self : t) (scores : list Q) (g : rng) :
  well_formed self ->
  length scores = population_size self ->
  (1 <= tournament_size self <= population_size self)%nat ->
  (2 <= genome_length self)%nat ->
  exists new g',
    evolve self scores g
    = Some (Ok (set_population new (generation self + 1) self,
                (new, (generation self + 1)%Z), g')) /\
    length new = population_size self /\
    firstn (Nat.min (elite_size self) (population_size self)) new
    = map (fun i => nth i (population self) [])
          (firstn (elite_size self) (ranking scores)) /\
    Forall (fun c => length c = genome_length self) new.
Proof.
  intros Hwf Hlen HT HL. unfold evolve.
  destruct (@normalize_ok scores) as (norm & Hnorm & Lnorm).
  { intros ->. cbn in Hlen. lia. }
  rewrite Hnorm.
  destruct (ranking_spec scores) as [Hperm _].
  assert (Hidx : Forall (fun i => (i < length (population self))%nat)
                        (elite_indices self scores)).
  { apply Forall_forall. intros i Hi. unfold elite_indices in Hi.
    apply firstn_In in Hi. apply (Permutation_in _ Hperm) in Hi.
    apply in_seq in Hi. destruct Hwf as [Hsize _]. lia. }
  rewrite (@mapM_getitem _ (population self) [] _ Hidx).
  set (acc := map _ (elite_indices self scores)).
  assert (Lacc : length acc = Nat.min (elite_size self) (population_size self)).
  { unfold acc, elite_indices. rewrite length_map, length_firstn.
    fold (ranking scores). rewrite (Permutation_length Hperm), length_seq. lia. }
  destruct (@evolve_loop_ok self norm Hwf) with (fuel := population_size self)
                                                 (acc := acc) (g := g)
    as (new & g' & Hloop & Ln & Pn & Fn); try lia.
  { apply Forall_forall. intros c Hc. unfold acc in Hc.
    apply in_map_iff in Hc. destruct Hc as (i & <- & Hi).
    rewrite Forall_forall in Hidx. specialize (Hidx i Hi).
    destruct Hwf as [_ Hgen]. rewrite Forall_forall in Hgen.
    apply Hgen. now apply nth_In. }
  rewrite Hloop. exists new, g'. split; [reflexivity|].
  split; [exact Ln|]. split; [|exact Fn].
  rewrite <- Lacc. exact Pn.
Qed.

(** C3 (as amended).  For every call of [evolve] on a population of N
    genomes of a common length of at least 2, with one score per genome,
    elite size E <= N and tournament size between 1 and N: the ranking of
    the indices by raw score (descending, equal scores by lower index) is
    the one sorted arrangement of all N indices; [evolve] returns the new
    population and the generation counter increased by exactly 1, and
    stores both; the new population has exactly N members; and its first E
    members are the genomes at the first E indices of the ranking, in that
    order and unchanged. *)
Theorem evolve_keeps_elite (self : t) (scores : list Q) (g : rng) :
  well_formed self ->
  length scores = population_size self ->
  (elite_size self <= population_size self)%nat ->
  (1 <= tournament_size self <= population_size self)%nat ->
  (2 <= genome_length self)%nat ->
  Permutation (ranking scores) (seq 0 (population_size self)) /\
  StronglySorted (ranks_before scores) (ranking scores) /\
  exists new g',
    evolve self scores g
    = Some (Ok (set_population new (generation self + 1) self,
                (new, (generation self + 1)%Z), g')) /\
    length new = population_size self /\
    firstn (elite_size self) new
    = map (fun i => nth i (population self) [])
          (firstn (elite_size self) (ranking scores)).
Proof.
  intros Hwf Hlen HE HT HL.
  destruct (ranking_spec scores) as [Hperm Hsorted].
  split; [now rewrite <- Hlen|]. split; [exact Hsorted|].
  destruct (@evolve_ok self scores g Hwf Hlen HT HL) as (new & g' & He & Ln & Pn & _).
  exists new, g'. split; [exact He|]. split; [exact Ln|].
  rewrite Nat.min_l in Pn by exact HE. exact Pn.
Qed.

(** C10 (as amended).  For every population of N genomes of a common
    length of at least 2 and every list of N scores that are all equal,
    with a tournament size between 1 and N: the equal-share branch is
    taken, every member gets the normalised fitness 1/N, no exception is
    raised, and [evolve] returns a new population of exactly N genomes. *)
Theorem evolve_equal_scores (self : t) (scores : list Q) (c : Q) (g : rng) :
  well_formed self ->
  length scores = population_size self ->
  Forall (fun f => f == c) scores ->
  (1 <= tournament_size self <= population_size self)%nat ->
  (2 <= genome_length self)%nat ->
  normalize scores
  = Ok (repeat (1 / inject_Z (Z.of_nat (population_size self)))
               (population_size self)) /\
  exists new g',
    evolve self scores g
    = Some (Ok (set_population new (generation self + 1) self,
                (new, (generation self + 1)%Z), g')) /\
    length new = population_size self.
Proof.
  intros Hwf Hlen Hall HT HL. split.
  - rewrite <- Hlen. apply (@normalize_equal scores c); [|exact Hall].
    intros ->. cbn in Hlen. lia.
  - destruct (@evolve_ok self scores g Hwf Hlen HT HL) as (new & g' & He & Ln & _).
    now exists new, g'.
Qed.

Import Examples.

Lemma four_well_formed (tournament : nat) : well_formed (four tournament).
Proof. split; [reflexivity|]. repeat constructor. Qed.

(** C3, at concrete inputs that satisfy its conditions: with a tournament
    size of 0 the tournament is empty and its maximum does not exist; with
    genomes of one bit there are no two crossover points.  [evolve] raises
    in both cases. *)
Lemma evolve_raises_on_scores_1234 :
  (length [1; 2; 3; 4] = population_size (four 0) /\
   (elite_size (four 0) <= population_size (four 0))%nat /\
   (tournament_size (four 0) <= population_size (four 0))%nat /\
   evolve (four 0) [1; 2; 3; 4] tape
   = Some (Raise (ValueError "max() arg is an empty sequence"))) /\
  (length [1; 2] = population_size one_bit /\
   (elite_size one_bit <= population_size one_bit)%nat /\
   (tournament_size one_bit <= population_size one_bit)%nat /\
   evolve one_bit [1; 2] tape
   = Some (Raise (ValueError "Sample larger than population or is negative"))).
Proof. repeat split; cbn; try lia; vm_compute; reflexivity. Qed.

(** C10, at concrete inputs that satisfy its conditions: equal scores,
    and no next generation. *)
Lemma evolve_raises_on_equal_scores :
  (length [5; 5; 5; 5] = population_size (four 0) /\
   (tournament_size (four 0) <= population_size (four 0))%nat /\
   evolve (four 0) [5; 5; 5; 5] tape
   = Some (Raise (ValueError "max() arg is an empty sequence"))) /\
  (length [5; 5] = population_size one_bit /\
   (tournament_size one_bit <= population_size one_bit)%nat /\
   evolve one_bit [5; 5] tape
   = Some (Raise (ValueError "Sample larger than population or is negative"))).
Proof. repeat split; cbn; try lia; vm_compute; reflexivity. Qed.

(** Population 4, elite size 1, scores 1, 2, 3, 4, tournament size 2. *)
Lemma evolve_keeps_elite_witness :
  Permutation (ranking [1; 2; 3; 4]) (seq 0 (population_size (four 2))) /\
  StronglySorted (ranks_before [1; 2; 3; 4]) (ranking [1; 2; 3; 4]) /\
  exists new g',
    evolve (four 2) [1; 2; 3; 4] tape
    = Some (Ok (set_population new (generation (four 2) + 1) (four 2),
                (new, (generation (four 2) + 1)%Z), g')) /\
    length new = population_size (four 2) /\
    firstn (elite_size (four 2)) new
    = map (fun i => nth i (population (four 2)) [])
          (firstn (elite_size (four 2)) (ranking [1; 2; 3; 4])).
Proof.
  apply (@evolve_keeps_elite (four 2) [1; 2; 3; 4] tape).
  - apply four_well_formed.
  - reflexivity.
  - cbn. lia.
  - cbn. lia.
  - cbn. lia.
Defined.

(** After that call the generation counter is 1, the population has 4
    members, and the first of them is the genome that had score 4. *)
Example evolve_scenario :
  ranking [1; 2; 3; 4] = [3; 2; 1; 0]%nat /\
  exists self' new g',
    evolve (four 2) [1; 2; 3; 4] tape = Some (Ok (self', (new, 1%Z), g')) /\
    generation self' = 1%Z /\ population self' = new /\
    length new = 4%nat /\ nth 0 new [] = marked 3.
Proof.
  split; [reflexivity|].
  destruct (evolve (four 2) [1; 2; 3; 4] tape) as [[[[s [p n]] g']|]|] eqn:E;
    vm_compute in E; try discriminate.
  injection E as <- <- <- <-.
  do 3 eexists. split; [reflexivity|]. repeat split.
Qed.

(** Equal scores. *)
Lemma evolve_equal_scores_witness :
  normalize [5; 5; 5; 5]
  = Ok (repeat (1 / inject_Z (Z.of_nat (population_size (four 2))))
               (population_size (four 2))) /\
  exists new g',
    evolve (four 2) [5; 5; 5; 5] tape
    = Some (Ok (set_population new (generation (four 2) + 1) (four 2),
                (new, (generation (four 2) + 1)%Z), g')) /\
    length new = population_size (four 2).
Proof.
  apply (@evolve_equal_scores (four 2) [5; 5; 5; 5] 5 tape).
  - apply four_well_formed.
  - reflexivity.
  - repeat constructor; reflexivity.
  - cbn. lia.
  - cbn. lia.
Defined.

End GAFacts.

(* ================================================================== *)
(** * Further properties of the controller *)
(* ================================================================== *)

Module BrainMore.
Import PyFacts Doc More.

Lemma binary_in_all_binary (b : list Z) :
  binary b -> In b (all_binary (length b)).
Proof.
  induction 1 as [|v b Hv _ IH]; cbn; [now left|].
  apply in_flat_map. exists b. split; [exact IH|].
  destruct Hv as [-> | ->]; [now left | right; now left].
Qed.

(** X1.  Every 10-bit gene decodes to a non-zero coefficient: its
    magnitude lies between 2^-7 and 100, it is negative when bit 0 is 1
    and positive when bit 0 is 0.  The codec has no encoding of zero. *)
Theorem decode_never_zero (b : list Z) :
  length b = 10%nat ->
  binary b ->
  exists v,
    Brain._binary_to_float b = Ok v /\
    1 # 128 <= Qabs v <= 100 /\
    (nth 0 b 0%Z = 1%Z -> v < 0) /\
    (nth 0 b 0%Z = 0%Z -> 0 < v).
Proof.
  intros Hlen Hbin.
  assert (Hall : forallb gene_in_range (all_binary 10) = true)
    by (vm_compute; reflexivity).
  rewrite forallb_forall in Hall.
  pose proof (@binary_in_all_binary b Hbin) as Hin. rewrite Hlen in Hin.
  specialize (Hall b Hin). unfold gene_in_range in Hall.
  destruct (Brain._binary_to_float b) as [v|]; [|discriminate].
  apply andb_prop in Hall. destruct Hall as [Hall Hsign].
  apply andb_prop in Hall. destruct Hall as [Hlo Hhi].
  apply Qle_bool_iff in Hlo, Hhi.
  exists v. split; [reflexivity|]. split; [split; assumption|].
  split; intros Hb; rewrite Hb in Hsign; cbn in Hsign; now apply Qltb_lt.
Qed.

(** The gene 0 1111 00000 is 2^8 before the clamp and decodes to 100. *)
Lemma decode_never_zero_witness :
  exists v,
    Brain._binary_to_float [0; 1; 1; 1; 1; 0; 0; 0; 0; 0]%Z = Ok v /\
    1 # 128 <= Qabs v <= 100 /\
    (nth 0 [0; 1; 1; 1; 1; 0; 0; 0; 0; 0]%Z 0%Z = 1%Z -> v < 0) /\
    (nth 0 [0; 1; 1; 1; 1; 0; 0; 0; 0; 0]%Z 0%Z = 0%Z -> 0 < v).
Proof.
  apply (@decode_never_zero [0; 1; 1; 1; 1; 0; 0; 0; 0; 0]%Z).
  - reflexivity.
  - unfold binary. repeat (apply Forall_cons; [auto|]). apply Forall_nil.
Defined.

Section Decide.
Context `{MathLib}.

Lemma clamp_sensor_idempotent (s : Q) :
  max (min (max (min s 100) 0) 100) 0 = max (min s 100) 0.
Proof.
  assert (Hb : 0 <= max (min s 100) 0 <= 100) by (apply max_min_bounds; lra).
  apply max_min_id; apply Hb.
Qed.

(** X2.  A decision depends on the sensor readings only through their
    saturation to [[0, 100]]: readings above 100 (the rays reach 150)
    count as 100 and negative ones as 0.  This holds for every
    controller and every sensor list, including those that make
    [make_decision] raise. *)
Theorem decision_saturates_sensors (brain : Brain.t) (sensors : list Q) :
  Brain.make_decision brain (map (fun s => max (min s 100) 0) sensors)
  = Brain.make_decision brain sensors.
Proof.
  unfold Brain.make_decision. rewrite length_map.
  destruct (negb (length sensors =? 8)%nat); [reflexivity|].
  rewrite map_map.
  rewrite (map_ext _ (fun s => max (min s 100) 0)
                   (fun s => clamp_sensor_idempotent s)).
  reflexivity.
Qed.

Lemma signal_to_action_range (signal : Q) (z : Z) :
  Brain._signal_to_action signal = Ok z -> is_action z.
Proof.
  unfold Brain._signal_to_action, is_action.
  destruct (math_exp _) as [e|].
  - unfold div. destruct (Qeq_bool (1 + e) 0); cbn; [discriminate|].
    destruct (Qltb _ (33 # 100)); [intros [= <-]; auto|].
    destruct (Qltb (66 # 100) _); intros [= <-]; auto.
  - cbn.
    destruct (Qltb _ (33 # 100)); [intros [= <-]; auto|].
    destruct (Qltb (66 # 100) _); intros [= <-]; auto.
Qed.

(** X3.  For a controller built from a genome, [make_decision] raises
    its length error exactly when it is not given 8 sensor values, and
    otherwise returns a pair of actions, each of them -1, 0 or 1. *)
Theorem decision_error_and_range (genome : list Z) (brain : Brain.t)
        (sensors : list Q) :
  exp_positive ->
  Brain.__init__ genome = Ok brain ->
  (Brain.make_decision brain sensors
   = Raise (ValueError "Expected 8 sensor values") <->
   length sensors <> 8%nat) /\
  (length sensors = 8%nat ->
   exists d, Brain.make_decision brain sensors = Ok d /\
             is_action (Brain.engine d) /\ is_action (Brain.wheels d)).
Proof.
  intros Hpos Hinit.
  assert (Hc : length (Brain.engine_coefficients brain) = 9%nat /\
               length (Brain.wheel_coefficients brain) = 9%nat).
  { destruct (BrainFacts.init_length genome) as [Hne Heq].
    destruct (Nat.eq_dec (length genome) 180) as [E | E].
    - destruct (Heq E) as (ec & wc & _ & _ & Le & Lw & Hb).
      rewrite Hb in Hinit. injection Hinit as <-. now split.
    - rewrite (Hne E) in Hinit. discriminate. }
  destruct Hc as [Le Lw].
  assert (Hok : length sensors = 8%nat ->
                exists d, Brain.make_decision brain sensors = Ok d /\
                          is_action (Brain.engine d) /\ is_action (Brain.wheels d)).
  { intros Hs. unfold Brain.make_decision. rewrite Hs. cbn [Nat.eqb negb].
    destruct (BrainFacts.weighted_signal_spec _ sensors Le Hs) as (se & Hse & _).
    destruct (BrainFacts.weighted_signal_spec _ sensors Lw Hs) as (sw & Hsw & _).
    rewrite Hse, Hsw. cbn [bind].
    destruct (BrainFacts.signal_to_action_ok (max (min se 100) (-100)) Hpos)
      as [ze Hze].
    destruct (BrainFacts.signal_to_action_ok (max (min sw 100) (-100)) Hpos)
      as [zw Hzw].
    rewrite Hze, Hzw. cbn [bind]. eexists. split; [reflexivity|].
    split; eapply signal_to_action_range; eassumption. }
  split; [|exact Hok]. split.
  - intros Hr Hs. destruct (Hok Hs) as (d & Hd & _). congruence.
  - intros Hs. unfold Brain.make_decision.
    apply Nat.eqb_neq in Hs. now rewrite Hs.
Qed.
End Decide.

Import Host.

Lemma decision_error_and_range_witness :
  (Brain.make_decision (Brain.mk (repeat 0%Z 180) (repeat (32768 # 4194304) 9)
                                 (repeat (32768 # 4194304) 9)) [150; 150; 150]
   = Raise (ValueError "Expected 8 sensor values") <->
   length [150; 150; 150] <> 8%nat) /\
  (length [150; 150; 150] = 8%nat ->
   exists d,
     Brain.make_decision (Brain.mk (repeat 0%Z 180) (repeat (32768 # 4194304) 9)
                                   (repeat (32768 # 4194304) 9)) [150; 150; 150] = Ok d /\
     is_action (Brain.engine d) /\ is_action (Brain.wheels d)).
Proof.
  apply (@decision_error_and_range Host.math (repeat 0%Z 180)).
  - exact HostFacts.exp_pow2_positive.
  - vm_compute. reflexivity.
Defined.

End BrainMore.

(* ================================================================== *)
(** * Further properties of the simulation world *)
(* ================================================================== *)

Module EnvMore.
Import PyFacts Doc More Pygame Environment EnvFacts.

Section World.
Context `{MathLib} `{PygameLib}.

(** ** Rays *)

Lemma ray_loop_range (n : nat) (i : Z) (px py dx dy : Q) (bs : list Rect) (j : Z) :
  _ray_loop n i px py dx dy bs = Some j -> (i <= j < i + Z.of_nat n)%Z.
Proof.
  revert i px py. induction n as [|n IH]; intros i px py; cbn [_ray_loop].
  - discriminate.
  - destruct (existsb _ bs); [intros [= <-]; lia|].
    destruct (_ || _ || _ || _); [intros [= <-]; lia|].
    intros Hj. apply IH in Hj. lia.
Qed.

Lemma ray_distance_range (p : Q * Q) (angle : Z) (bs : list Rect) :
  (0 <= _ray_distance p angle bs 150 <= 150)%Z.
Proof.
  unfold _ray_distance. destruct p as [px py].
  destruct (_ray_loop _ _ _ _ _ _ _) as [j|] eqn:E; [|lia].
  apply ray_loop_range in E. lia.
Qed.

Lemma update_sensors_range (e : t) :
  Forall (fun d => (0 <= d <= 150)%Z) (ray_distances (_update_sensors e)).
Proof.
  unfold _update_sensors. cbv zeta.
  match goal with |- context [set_ray_distances ?l e] =>
    assert (Hl : Forall (fun d => (0 <= d <= 150)%Z) l)
      by (apply Forall_map, Forall_forall; intros; apply ray_distance_range);
    revert Hl; generalize l end.
  intros l Hl. unfold _update_parking_distance.
  change (rotated_collision_rect (set_ray_distances l e))
    with (rotated_collision_rect e).
  destruct (rotated_collision_rect e); exact Hl.
Qed.

(** ** The end of a step *)

Lemma finish_end (w : t) :
  let c := obs_collision (get_state w) ||
           (max_episode_steps <=? current_step w)%Z ||
           _is_parked_correctly w in
  done_of (finish w) = c /\
  episode_finished (fst (finish w)) = c || episode_finished w /\
  current_step (fst (finish w)) = current_step w.
Proof.
  cbv zeta. unfold done_of, finish. cbv zeta. cbn [fst snd].
  destruct (calculate_reward_spec (get_state w) w)
    as (_ & _ & _ & (_ & R2 & _ & R4 & R5 & R6 & _ & _)).
  unfold _check_episode_end.
  rewrite (@parked_depends (fst (_calculate_reward (get_state w) w)) w)
    by (rewrite ?R2, ?R4; reflexivity).
  rewrite R6.
  destruct (obs_collision (get_state w) ||
            (max_episode_steps <=? current_step w)%Z ||
            _is_parked_correctly w); cbn [fst snd].
  - repeat split. exact R6.
  - repeat split; [exact R5 | exact R6].
Qed.

(** ** Controls *)

Lemma controlled_speed_bounds (engine : Z) (speed : Q) :
  - MAX_SPEED_BACKWARD <= speed <= MAX_SPEED ->
  - MAX_SPEED_BACKWARD <= controlled_speed engine speed <= MAX_SPEED.
Proof.
  intros Hs. unfold controlled_speed.
  assert (Ha : ACCELERATION == 1 # 40) by reflexivity.
  assert (Hd : DECELERATION == 1 # 40) by reflexivity.
  assert (Hf : MAX_SPEED == 5 # 2) by reflexivity.
  assert (Hb : MAX_SPEED_BACKWARD == 5 # 4) by reflexivity.
  destruct (engine =? 1)%Z; [|destruct (engine =? -1)%Z]; [| |exact Hs].
  - destruct (Qltb MAX_SPEED (speed + ACCELERATION)) eqn:E; [lra|].
    apply Qltb_ge in E. lra.
  - destruct (Qltb (speed - DECELERATION) (- MAX_SPEED_BACKWARD)) eqn:E; [lra|].
    apply Qltb_ge in E. lra.
Qed.

Lemma controlled_heading_range (wheels : Z) (speed : Q) (heading : Z) :
  (0 <= heading < 360)%Z ->
  (0 <= controlled_heading wheels speed heading < 360)%Z.
Proof.
  intros Hh. unfold controlled_heading.
  destruct (Qle_bool MIN_TURN_SPEED (Qabs speed)); [|exact Hh].
  apply Z.mod_pos_bound. lia.
Qed.

(** The state of the car after a step of a running episode. *)
Lemma step_running_car (a : Brain.decision) (e : t) :
  episode_finished e = false ->
  let s := current_state e in
  let s1 := controlled a s in
  let cand :=
    candidate_position (car_pos_x s, car_pos_y s) (car_speed s1) (rotation s1) in
  let hit := overlaps (car_rectangle cand (rotation s1)) (custom_rectangles e) in
  let s' := current_state (fst (step a e)) in
  rotation s' = rotation s1 /\
  (hit = true ->
   car_speed s' = 0 /\
   collision_counter s' = (collision_counter s + 1)%Z /\
   car_pos_x s' = car_pos_x s /\ car_pos_y s' = car_pos_y s) /\
  (hit = false ->
   car_speed s' = car_speed s1 /\
   collision_counter s' = collision_counter s /\
   (Qeq_bool (car_speed s1) 0 = true ->
    car_pos_x s' = car_pos_x s /\ car_pos_y s' = car_pos_y s)).
Proof.
  intros Hrun. cbv zeta.
  destruct (@step_running_fields _ _ a e Hrun) as (_ & _ & _ & _ & Hs & _).
  rewrite Hs.
  destruct (after_move_frame a e) as (_ & _ & Hs1 & _).
  rewrite Hs1, apply_action_controls.
  destruct (update_position_spec (with_current_state (controlled a) e))
    as (_ & _ & Hrot & Hhit & Hfree).
  change (current_state (with_current_state (controlled a) e))
    with (controlled a (current_state e)) in Hrot, Hhit, Hfree.
  change (custom_rectangles (with_current_state (controlled a) e))
    with (custom_rectangles e) in Hhit, Hfree.
  change (car_pos_x (controlled a (current_state e)))
    with (car_pos_x (current_state e)) in Hhit, Hfree.
  change (car_pos_y (controlled a (current_state e)))
    with (car_pos_y (current_state e)) in Hhit, Hfree.
  change (collision_counter (controlled a (current_state e)))
    with (collision_counter (current_state e)) in Hhit, Hfree.
  split; [exact Hrot|]. split; [exact Hhit|].
  intros Ho. destruct (Hfree Ho) as (H1 & H2 & _ & H4).
  repeat split; try assumption; now apply H4.
Qed.

(** How a step of a running episode ends. *)
Lemma step_running_end (a : Brain.decision) (e : t) :
  episode_finished e = false ->
  let e' := fst (step a e) in
  let c := (0 <? collision_counter (current_state e'))%Z ||
           (1000 <=? current_step e + 1)%Z ||
           _is_parked_correctly e' in
  done_of (step a e) = c /\
  episode_finished e' = c /\
  current_step e' = (current_step e + 1)%Z /\
  length (ray_distances e') = 8%nat /\
  Forall (fun d => (0 <= d <= 150)%Z) (ray_distances e').
Proof.
  intros Hrun. cbv zeta.
  destruct (@step_running_fields _ _ a e Hrun)
    as (_ & _ & _ & _ & Hs & Hr & _ & Hrays & _).
  rewrite (@parked_depends (fst (step a e)) (after_move a e))
    by (rewrite ?Hr, ?Hs; reflexivity).
  rewrite Hs, Hrays. clear Hs Hr Hrays.
  destruct (after_move_frame a e) as (_ & _ & _ & Hfin & Hstep & _).
  assert (Hfin' : episode_finished (after_move a e) = false).
  { rewrite Hfin, apply_action_controls.
    destruct (update_position_spec (with_current_state (controlled a) e))
      as (_ & (_ & Hf & _) & _).
    rewrite Hf. exact Hrun. }
  assert (Hstep' : current_step (after_move a e) = (current_step e + 1)%Z).
  { rewrite Hstep, apply_action_controls.
    destruct (update_position_spec (with_current_state (controlled a) e))
      as (_ & (_ & _ & Hc & _) & _).
    rewrite Hc. reflexivity. }
  assert (H8 : length (ray_distances (after_move a e)) = 8%nat)
    by (unfold after_move; cbv zeta; apply update_sensors_eight).
  assert (Hrange : Forall (fun d => (0 <= d <= 150)%Z)
                          (ray_distances (after_move a e)))
    by (unfold after_move; cbv zeta; apply update_sensors_range).
  rewrite (@step_running _ _ a e Hrun).
  revert Hfin' Hstep' H8 Hrange. generalize (after_move a e).
  intros w Hfin' Hstep' H8 Hrange.
  destruct (finish_end w) as (Hd & Hf & Hc).
  rewrite Hd, Hf, Hc, Hfin', Hstep', orb_false_r.
  repeat split; assumption.
Qed.

(** ** What every world keeps *)

Lemma init_ok : world_ok __init__.
Proof.
  unfold world_ok. cbv zeta.
  split; [split; vm_compute; discriminate|].
  split; [cbn; lia|]. split; [left; reflexivity|].
  split; [cbn; lia|]. split; [intros _; cbn; lia|].
  split; [reflexivity|].
  cbn. repeat (apply Forall_cons; [lia|]). apply Forall_nil.
Qed.

Lemma reset_ok (e : t) : world_ok (fst (reset e)).
Proof.
  destruct (reset_fields e) as (_ & _ & Hs & Hfin & Hstep & _ & _ & H8 & _).
  assert (Hrange : Forall (fun d => (0 <= d <= 150)%Z)
                          (ray_distances (fst (reset e))))
    by (unfold reset; cbv zeta; cbn [fst]; apply update_sensors_range).
  unfold world_ok. cbv zeta. rewrite Hs, Hstep.
  split; [split; vm_compute; discriminate|].
  split; [cbn; lia|]. split; [left; reflexivity|].
  split; [lia|]. split; [intros _; lia|].
  split; assumption.
Qed.

Lemma step_ok (a : Brain.decision) (e : t) :
  world_ok e -> world_ok (fst (step a e)).
Proof.
  intros Hok. destruct (episode_finished e) eqn:Hrun.
  { unfold step. rewrite Hrun. exact Hok. }
  destruct Hok as (Hsp & Hrot & Hcnt & Hst & Hlt & _ & _).
  cbv zeta in *. specialize (Hlt Hrun).
  assert (Hzero : collision_counter (current_state e) = 0%Z).
  { destruct Hcnt as [Hz | [_ Hf]]; [exact Hz | congruence]. }
  destruct (@step_running_car a e Hrun) as (Hr' & Hhit & Hfree).
  destruct (@step_running_end a e Hrun) as (_ & Hfin' & Hstep' & H8 & Hrange).
  cbv zeta in *.
  pose proof (@controlled_speed_bounds (Brain.engine a) _ Hsp) as Hsp1.
  pose proof (@controlled_heading_range (Brain.wheels a)
                (controlled_speed (Brain.engine a) (car_speed (current_state e)))
                _ Hrot) as Hrot1.
  change (car_speed (controlled a (current_state e)))
    with (controlled_speed (Brain.engine a) (car_speed (current_state e)))
    in Hhit, Hfree.
  change (rotation (controlled a (current_state e)))
    with (controlled_heading (Brain.wheels a)
            (controlled_speed (Brain.engine a) (car_speed (current_state e)))
            (rotation (current_state e))) in Hr', Hhit, Hfree.
  unfold world_ok. cbv zeta. rewrite Hr', Hstep'.
  split; [|split; [exact Hrot1|split; [|split; [lia|split; [|split; assumption]]]]].
  - destruct (overlaps _ (custom_rectangles e)).
    + destruct (Hhit eq_refl) as (-> & _).
      assert (Hb : MAX_SPEED_BACKWARD == 5 # 4) by reflexivity.
      assert (Hf : MAX_SPEED == 5 # 2) by reflexivity. lra.
    + destruct (Hfree eq_refl) as (-> & _). exact Hsp1.
  - destruct (overlaps _ (custom_rectangles e)).
    + destruct (Hhit eq_refl) as (_ & Hc & _). right.
      rewrite Hfin', Hc, Hzero. split; reflexivity.
    + destruct (Hfree eq_refl) as (_ & Hc & _). left. now rewrite Hc.
  - rewrite Hfin'. intros Hf.
    apply orb_false_elim in Hf. destruct Hf as [Hf _].
    apply orb_false_elim in Hf. destruct Hf as [_ Hf].
    apply Z.leb_gt in Hf. exact Hf.
Qed.

Lemma reachable_ok (e : t) : reachable e -> world_ok e.
Proof.
  induction 1 as [|e _ IH|a e _ IH|r e _ IH|r e _ IH].
  - apply init_ok.
  - apply reset_ok.
  - now apply step_ok.
  - exact IH.
  - unfold remove_custom_rectangle. destruct (existsb _ _); exact IH.
Qed.

(** X4.  In every world that the public methods can produce, the speed
    lies between the reverse cap -1.25 and the forward cap 2.5, and the
    heading is an integer number of degrees in [[0, 360)]. *)
Theorem speed_and_heading_stay_in_range (e : t) :
  reachable e ->
  - (5 # 4) <= car_speed (current_state e) <= 5 # 2 /\
  (0 <= rotation (current_state e) < 360)%Z.
Proof.
  intros Hreach. destruct (@reachable_ok e Hreach) as (Hsp & Hrot & _).
  cbv zeta in *. split; [|exact Hrot].
  assert (Hb : MAX_SPEED_BACKWARD == 5 # 4) by reflexivity.
  assert (Hf : MAX_SPEED == 5 # 2) by reflexivity. lra.
Qed.

(** X5.  In every world that the public methods can produce, the
    collision counter is 0 or 1: it is 0 as long as the episode runs,
    and the step that counts a collision ends the episode. *)
Theorem at_most_one_collision (e : t) :
  reachable e ->
  (collision_counter (current_state e) = 0%Z \/
   collision_counter (current_state e) = 1%Z) /\
  (episode_finished e = false -> collision_counter (current_state e) = 0%Z).
Proof.
  intros Hreach. destruct (@reachable_ok e Hreach) as (_ & _ & Hcnt & _).
  cbv zeta in Hcnt. split.
  - destruct Hcnt as [Hz | [Ho _]]; [now left | now right].
  - intros Hrun. destruct Hcnt as [Hz | [_ Hf]]; [exact Hz | congruence].
Qed.

(** X6.  In every world that the public methods can produce there are
    exactly 8 sensor readings, each an integer between 0 and the ray
    range 150; the observation returned by [get_state] carries them. *)
Theorem eight_readings_in_range (e : t) :
  reachable e ->
  length (obs_sensors (get_state e)) = 8%nat /\
  Forall (fun d => (0 <= d <= 150)%Z) (obs_sensors (get_state e)).
Proof.
  intros Hreach.
  destruct (@reachable_ok e Hreach) as (_ & _ & _ & _ & _ & H8 & Hrange).
  split; assumption.
Qed.

(** ** Termination *)

Lemma run_ok (l : list Brain.decision) (e : t) :
  world_ok e -> world_ok (run l e).
Proof.
  revert e. induction l as [|a l IH]; intros e Hok; [exact Hok|].
  cbn [run]. apply IH. now apply step_ok.
Qed.

Lemma run_counts_steps (l : list Brain.decision) (e : t) :
  episode_finished (run l e) = false ->
  current_step (run l e) = (current_step e + Z.of_nat (length l))%Z.
Proof.
  revert e. induction l as [|a l IH]; intros e Hrun; cbn [run length] in *.
  - lia.
  - rewrite (IH _ Hrun).
    destruct (episode_finished e) eqn:Hfin.
    + exfalso.
      assert (Hstay : forall l' , run l' e = e).
      { induction l' as [|b l' IHl]; [reflexivity|].
        cbn [run]. unfold step at 1. rewrite Hfin. exact IHl. }
      unfold step in Hrun at 1. rewrite Hfin in Hrun. cbn [fst] in Hrun.
      rewrite Hstay in Hrun. congruence.
    + destruct (@step_running_end a e Hfin) as (_ & _ & Hstep & _).
      cbv zeta in Hstep. rewrite Hstep. lia.
Qed.

(** X7.  An episode lasts at most 1000 steps: for every world and every
    sequence of at least 1000 actions, after a reset and those actions
    the episode is finished; and while an episode started by a reset is
    still running, its step counter is the number of steps made. *)
Theorem episode_ends_within_1000_steps (e : t) (actions : list Brain.decision) :
  (1000 <= length actions)%nat ->
  episode_finished (run actions (fst (reset e))) = true /\
  forall earlier,
    episode_finished (run earlier (fst (reset e))) = false ->
    current_step (run earlier (fst (reset e))) = Z.of_nat (length earlier) /\
    (length earlier < 1000)%nat.
Proof.
  intros Hlen.
  assert (Hcount : forall l,
             episode_finished (run l (fst (reset e))) = false ->
             current_step (run l (fst (reset e))) = Z.of_nat (length l) /\
             (length l < 1000)%nat).
  { intros l Hrun.
    pose proof (run_counts_steps l _ Hrun) as Hc.
    destruct (reset_fields e) as (_ & _ & _ & _ & Hstep & _).
    rewrite Hstep in Hc. split; [lia|].
    destruct (@run_ok l _ (reset_ok e)) as (_ & _ & _ & _ & Hlt & _).
    specialize (Hlt Hrun). lia. }
  split; [|exact Hcount].
  destruct (episode_finished (run actions (fst (reset e)))) eqn:Hfin;
    [reflexivity|].
  destruct (Hcount actions Hfin) as [_ Hlt]. lia.
Qed.

(** X8.  The done flag that [step] returns is the episode state of the
    world it leaves; and a step of a running episode is done exactly
    when the collision counter is then positive, or this was step 1000,
    or the car is then correctly parked. *)
Theorem done_flag (a : Brain.decision) (e : t) :
  done_of (step a e) = episode_finished (fst (step a e)) /\
  (episode_finished e = false ->
   done_of (step a e)
   = (0 <? collision_counter (current_state (fst (step a e))))%Z ||
     (1000 <=? current_step e + 1)%Z ||
     _is_parked_correctly (fst (step a e))).
Proof.
  destruct (episode_finished e) eqn:Hfin.
  - unfold step. rewrite Hfin. cbn. split; [now rewrite Hfin | discriminate].
  - destruct (@step_running_end a e Hfin) as (Hd & Hf & _). cbv zeta in *.
    split; [now rewrite Hd, Hf | intros _; exact Hd].
Qed.

Ltac env_simpl :=
  cbv beta iota zeta delta
      [with_current_state set_car_speed set_rotation set_collision_counter
       set_car_pos set_rects set_custom_rectangles set_episode_finished
       set_current_step set_best_distance set_current_fitness
       set_ray_distances set_distances current_state
       car_speed rotation car_pos_x car_pos_y collision_counter time_elapsed
       car_rect rotated_collision_rect custom_rectangles episode_finished
       current_step best_distance current_fitness ray_distances
       distance_to_parking average_distance fst snd].

(** X9.  [reset] puts the car back at (100, 300), stopped, heading 0,
    with no collision counted, no step made, a running episode, zero
    fitness and an infinite best distance; it keeps the registered
    obstacles; and resetting twice is the same as resetting once. *)
Theorem reset_restores_and_is_idempotent (e : t) :
  let e0 := fst (reset e) in
  current_state e0 = mk_car_state 100 300 0 0 0 0 /\
  episode_finished e0 = false /\
  current_step e0 = 0%Z /\
  current_fitness e0 = Fin 0 /\
  best_distance e0 = PInf /\
  custom_rectangles e0 = custom_rectangles e /\
  snd (reset e) = get_state e0 /\
  reset e0 = reset e.
Proof.
  cbv zeta.
  destruct (reset_fields e) as (_ & Hc & Hs & Hf & Hst & Hb & Hfit & _ & Ho).
  repeat (split; [assumption|]).
  destruct e as [cr rr cu s fin st bd cf rd dp ad].
  unfold reset, get_state, _update_sensors, _update_parking_distance.
  env_simpl.
  destruct rr as [r|]; env_simpl; reflexivity.
Qed.

(** ** Obstacles *)

Lemma rect_eqb_eq (a b : Rect) : rect_eqb a b = true <-> a = b.
Proof.
  unfold rect_eqb. destruct a as [xa ya wa ha], b as [xb yb wb hb]. cbn.
  rewrite !andb_true_iff, !Z.eqb_eq. split.
  - intros [[[-> ->] ->] ->]. reflexivity.
  - intros [= -> -> -> ->]. repeat split.
Qed.

Lemma existsb_rect (r : Rect) (l : list Rect) :
  existsb (fun x => rect_eqb x r) l = true <-> In r l.
Proof.
  rewrite existsb_exists. split.
  - intros (x & Hx & E). apply rect_eqb_eq in E. now subst.
  - intros Hin. exists r. split; [exact Hin|]. now apply rect_eqb_eq.
Qed.

Lemma list_remove_absent (r : Rect) (l : list Rect) :
  ~ In r l -> list_remove r (l ++ [r]) = l /\ list_remove r l = l.
Proof.
  induction l as [|x l IH]; intros Hnin; cbn.
  - destruct (rect_eqb r r) eqn:E; [now split|].
    assert (Hr : rect_eqb r r = true) by now apply rect_eqb_eq.
    congruence.
  - destruct (rect_eqb x r) eqn:E.
    + apply rect_eqb_eq in E. subst. exfalso. apply Hnin. now left.
    + destruct IH as [IH1 IH2]; [intros Hin; apply Hnin; now right|].
      now rewrite IH1, IH2.
Qed.

Lemma list_remove_present (r : Rect) (l : list Rect) :
  In r l -> S (length (list_remove r l)) = length l.
Proof.
  induction l as [|x l IH]; intros Hin; [destruct Hin|]. cbn.
  destruct (rect_eqb x r) eqn:E; [reflexivity|].
  destruct Hin as [-> | Hin].
  - assert (Hr : rect_eqb r r = true) by now apply rect_eqb_eq. congruence.
  - cbn. now rewrite IH.
Qed.

(** X10.  Registering an obstacle appends it to the obstacle list.
    Removing a rectangle that is not registered changes nothing, so
    registering a new obstacle and removing it again gives the world
    back exactly; removing a registered one deletes a single
    occurrence. *)
Theorem obstacle_round_trip (r : Rect) (e : t) :
  custom_rectangles (add_custom_rectangle r e) = custom_rectangles e ++ [r] /\
  (~ In r (custom_rectangles e) ->
   remove_custom_rectangle r e = e /\
   remove_custom_rectangle r (add_custom_rectangle r e) = e) /\
  (In r (custom_rectangles e) ->
   S (length (custom_rectangles (remove_custom_rectangle r e)))
   = length (custom_rectangles e)).
Proof.
  split; [reflexivity|]. split.
  - intros Hnin. destruct (@list_remove_absent r (custom_rectangles e) Hnin) as [L1 L2].
    unfold remove_custom_rectangle, add_custom_rectangle. split.
    + destruct (existsb _ (custom_rectangles e)) eqn:E; [|reflexivity].
      apply existsb_rect in E. contradiction.
    + change (custom_rectangles
                (set_custom_rectangles (custom_rectangles e ++ [r]) e))
        with (custom_rectangles e ++ [r]).
      destruct (existsb _ (custom_rectangles e ++ [r])) eqn:E.
      * rewrite L1. destruct e; reflexivity.
      * exfalso.
        assert (Hin : In r (custom_rectangles e ++ [r]))
          by (apply in_or_app; right; now left).
        apply existsb_rect in Hin. congruence.
  - intros Hin. unfold remove_custom_rectangle.
    pose proof (proj2 (existsb_rect r (custom_rectangles e)) Hin) as E.
    rewrite E. cbn. now apply list_remove_present.
Qed.

(** ** Geometry *)

(** X11.  For a rectangle of non-negative size, the nearest point that
    [_nearest_point_on_rect] returns lies inside the rectangle (edges
    included), and it is the given point when that point is inside. *)
Theorem nearest_point_is_inside (rect : Rect) (p : Q * Q) :
  (0 <= w rect)%Z ->
  (0 <= h rect)%Z ->
  _point_inside_rect (_nearest_point_on_rect rect p) rect = true /\
  (_point_inside_rect p rect = true ->
   fst (_nearest_point_on_rect rect p) == fst p /\
   snd (_nearest_point_on_rect rect p) == snd p).
Proof.
  intros Hw Hh. destruct p as [px py].
  assert (Hx : inject_Z (left rect) <= inject_Z (right rect))
    by (rewrite <- Zle_Qle; unfold left, right; lia).
  assert (Hy : inject_Z (top rect) <= inject_Z (bottom rect))
    by (rewrite <- Zle_Qle; unfold top, bottom; lia).
  unfold _nearest_point_on_rect, _point_inside_rect. cbn [fst snd].
  set (l := inject_Z (left rect)) in *. set (r := inject_Z (right rect)) in *.
  set (t := inject_Z (top rect)) in *. set (b := inject_Z (bottom rect)) in *.
  assert (Hnx : l <= max l (min px r) <= r).
  { unfold max, min.
    destruct (Qltb r px) eqn:E1; [apply Qltb_lt in E1 | apply Qltb_ge in E1];
      match goal with |- context [Qltb l ?v] =>
        destruct (Qltb l v) eqn:E2;
        [apply Qltb_lt in E2 | apply Qltb_ge in E2] end; lra. }
  assert (Hny : t <= max t (min py b) <= b).
  { unfold max, min.
    destruct (Qltb b py) eqn:E1; [apply Qltb_lt in E1 | apply Qltb_ge in E1];
      match goal with |- context [Qltb t ?v] =>
        destruct (Qltb t v) eqn:E2;
        [apply Qltb_lt in E2 | apply Qltb_ge in E2] end; lra. }
  split.
  - rewrite !andb_true_iff, !negb_true_iff, !Qltb_ge. intuition.
  - rewrite !andb_true_iff, !negb_true_iff, !Qltb_ge.
    intros [[[H1 H2] H3] H4]. unfold max, min. split.
    + destruct (Qltb r px) eqn:E1; [apply Qltb_lt in E1; lra|].
      destruct (Qltb l px) eqn:E2; [reflexivity|].
      apply Qltb_ge in E2. lra.
    + destruct (Qltb b py) eqn:E1; [apply Qltb_lt in E1; lra|].
      destruct (Qltb t py) eqn:E2; [reflexivity|].
      apply Qltb_ge in E2. lra.
Qed.

(** ** A stopped car *)

Lemma stopped_step (a : Brain.decision) (e : t) :
  car_speed (current_state e) == 0 ->
  Brain.engine a = 0%Z ->
  same_pose (fst (step a e)) e /\
  car_speed (current_state (fst (step a e))) == 0.
Proof.
  intros Hs Ha. destruct (episode_finished e) eqn:Hrun.
  { unfold step. rewrite Hrun. cbn [fst]. split; [repeat split | exact Hs]. }
  destruct (@step_running_car a e Hrun) as (Hr & Hhit & Hfree).
  cbv zeta in *.
  assert (Hsp : car_speed (controlled a (current_state e))
                = car_speed (current_state e)).
  { unfold controlled, controlled_speed. rewrite Ha. reflexivity. }
  assert (Hrot : rotation (controlled a (current_state e))
                 = rotation (current_state e)).
  { unfold controlled, controlled_heading, controlled_speed. rewrite Ha. cbn.
    rewrite Qle_bool_negb_Qltb.
    assert (Hlt : Qltb (Qabs (car_speed (current_state e))) MIN_TURN_SPEED = true).
    { apply Qltb_lt. rewrite Hs. reflexivity. }
    now rewrite Hlt. }
  rewrite Hsp, Hrot in *.
  unfold same_pose. rewrite Hr.
  destruct (overlaps _ (custom_rectangles e)).
  - destruct (Hhit eq_refl) as (Hz & _ & Hx & Hy).
    rewrite Hz, Hx, Hy. repeat split; reflexivity.
  - destruct (Hfree eq_refl) as (Hz & _ & Hp).
    destruct Hp as [Hx Hy]; [now apply Qeq_bool_iff|].
    rewrite Hz, Hx, Hy. repeat split; try reflexivity. exact Hs.
Qed.

(** X12.  A stopped car cannot be moved or turned without the engine:
    from every world whose speed is 0, any sequence of actions that all
    leave the engine at 0, whatever they do to the wheels, leaves the
    position and the heading exactly as they were and the speed at 0. *)
Theorem stopped_car_stays (actions : list Brain.decision) (e : t) :
  car_speed (current_state e) == 0 ->
  Forall (fun a => Brain.engine a = 0%Z) actions ->
  same_pose (run actions e) e /\
  car_speed (current_state (run actions e)) == 0.
Proof.
  intros Hs Hall. revert e Hs.
  induction Hall as [|a l Ha _ IH]; intros e Hs; cbn [run].
  - split; [repeat split | exact Hs].
  - destruct (@stopped_step a e Hs Ha) as [(P1 & P2 & P3) Hs1].
    destruct (IH _ Hs1) as [(Q1 & Q2 & Q3) Hs2].
    split; [|exact Hs2]. unfold same_pose. repeat split; congruence.
Qed.
End World.

Import Host Examples.

Lemma speed_and_heading_stay_in_range_witness :
  - (5 # 4) <= car_speed (current_state crashed) <= 5 # 2 /\
  (0 <= rotation (current_state crashed) < 360)%Z.
Proof.
  apply (@speed_and_heading_stay_in_range Host.math Host.pygame crashed).
  apply reach_step, reach_add, reach_init.
Defined.

Lemma at_most_one_collision_witness :
  (collision_counter (current_state crashed) = 0%Z \/
   collision_counter (current_state crashed) = 1%Z) /\
  (episode_finished crashed = false ->
   collision_counter (current_state crashed) = 0%Z).
Proof.
  apply (@at_most_one_collision Host.math Host.pygame crashed).
  apply reach_step, reach_add, reach_init.
Defined.

Lemma eight_readings_in_range_witness :
  length (obs_sensors (get_state crashed)) = 8%nat /\
  Forall (fun d => (0 <= d <= 150)%Z) (obs_sensors (get_state crashed)).
Proof.
  apply (@eight_readings_in_range Host.math Host.pygame crashed).
  apply reach_step, reach_add, reach_init.
Defined.

Lemma episode_ends_within_1000_steps_witness :
  episode_finished (run (repeat idle 1000) (fst (reset rolling))) = true /\
  forall earlier,
    episode_finished (run earlier (fst (reset rolling))) = false ->
    current_step (run earlier (fst (reset rolling))) = Z.of_nat (length earlier) /\
    (length earlier < 1000)%nat.
Proof.
  apply (@episode_ends_within_1000_steps Host.math Host.pygame rolling
           (repeat idle 1000)).
  rewrite repeat_length. apply Nat.le_refl.
Defined.

Lemma nearest_point_is_inside_witness :
  _point_inside_rect (_nearest_point_on_rect parking_spot (100, 300)) parking_spot
  = true /\
  (_point_inside_rect (100, 300) parking_spot = true ->
   fst (_nearest_point_on_rect parking_spot (100, 300)) == fst (100, 300) /\
   snd (_nearest_point_on_rect parking_spot (100, 300)) == snd (100, 300)).
Proof.
  apply (@nearest_point_is_inside parking_spot (100, 300)); vm_compute; discriminate.
Defined.

(** From the start the nearest point of the target is its lower left
    corner (600, 244). *)
Example nearest_point_from_start :
  _nearest_point_on_rect parking_spot (100, 300) = (600, 244).
Proof. reflexivity. Qed.

Lemma stopped_car_stays_witness :
  same_pose (run [Brain.mk_decision 0 1; Brain.mk_decision 0 (-1)] __init__) __init__ /\
  car_speed (current_state
               (run [Brain.mk_decision 0 1; Brain.mk_decision 0 (-1)] __init__)) == 0.
Proof.
  apply (@stopped_car_stays Host.math Host.pygame
           [Brain.mk_decision 0 1; Brain.mk_decision 0 (-1)] __init__).
  - reflexivity.
  - repeat constructor.
Defined.

End EnvMore.

(* ================================================================== *)
(** * Further properties of the evolution engine *)
(* ================================================================== *)

Module GAMore.
Import PyFacts Doc More Random GeneticAlgorithm GAFacts.

(** ** Which exceptions can be raised *)










(** ** Crossover *)

Lemma sample_loop_subset {A} (k : nat) (pool : list A) (g : rng) (a : A) :
  In a (fst (sample_loop k pool g)) -> In a pool.
Proof.
  revert pool g. induction k as [|k IH]; intros pool g; cbn; [intros []|].
  destruct (draw g) as [v g1].
  destruct (nth_error pool _) as [b|] eqn:Eb; [|intros []].
  specialize (IH (remove_nth (Z.to_nat (v mod Z.of_nat (length pool))) pool) g1).
  destruct (sample_loop k _ g1) as [rest g2]. cbn in *.
  intros [<- | Hin].
  - eapply nth_error_In; eauto.
  - eapply remove_nth_In; eauto.
Qed.

Lemma remove_nth_NoDup {A} (j : nat) (l : list A) :
  NoDup l -> NoDup (remove_nth j l).
Proof.
  intros Hnd. revert j. induction Hnd as [|a l Hnin Hnd IH]; intros j.
  - destruct j; constructor.
  - destruct j as [|j]; cbn; [exact Hnd|].
    constructor; [|apply IH].
    intros Hin. apply Hnin. eapply remove_nth_In; eauto.
Qed.

Lemma remove_nth_not_In {A} (j : nat) (l : list A) (a : A) :
  NoDup l -> nth_error l j = Some a -> ~ In a (remove_nth j l).
Proof.
  intros Hnd. revert j. induction Hnd as [|b l Hnin Hnd IH]; intros j Hj.
  - destruct j; discriminate.
  - destruct j as [|j]; cbn in *.
    + injection Hj as <-. exact Hnin.
    + intros [-> | Hin].
      * apply Hnin. eapply nth_error_In; eauto.
      * now apply (IH j).
Qed.

(** A sample from a pool without repetitions has no repetitions. *)
Lemma sample_loop_NoDup {A} (k : nat) (pool : list A) (g : rng) :
  NoDup pool -> NoDup (fst (sample_loop k pool g)).
Proof.
  revert pool g. induction k as [|k IH]; intros pool g Hnd; cbn.
  - constructor.
  - destruct (draw g) as [v g1].
    destruct (nth_error pool _) as [a|] eqn:Ea; [|constructor].
    pose proof (@remove_nth_not_In _ _ pool a Hnd Ea) as Hnot.
    pose proof (@remove_nth_NoDup _ (Z.to_nat (v mod Z.of_nat (length pool))) pool Hnd)
      as Hnd'.
    specialize (IH _ g1 Hnd').
    pose proof (fun b => @sample_loop_subset A k
                          (remove_nth (Z.to_nat (v mod Z.of_nat (length pool))) pool)
                          g1 b) as Hsub.
    destruct (sample_loop k _ g1) as [rest g2]. cbn in *.
    constructor; [|exact IH].
    intros Hin. apply Hnot. now apply Hsub.
Qed.

Lemma nth_splice (l1 l2 : genome) (a b i : nat) (d : Z) :
  length l1 = length l2 ->
  (a <= b <= length l1)%nat ->
  nth i (firstn a l1 ++ slice a b l2 ++ skipn b l1) d
  = if ((a <=? i) && (i <? b))%nat then nth i l2 d else nth i l1 d.
Proof.
  intros Hlen Hab.
  assert (La : length (firstn a l1) = a) by (rewrite length_firstn; lia).
  assert (Ls : length (slice a b l2) = (b - a)%nat)
    by (unfold slice; rewrite length_firstn, length_skipn; lia).
  destruct (a <=? i)%nat eqn:E1; cbn [andb].
  - apply Nat.leb_le in E1.
    rewrite app_nth2 by lia. rewrite La.
    destruct (i <? b)%nat eqn:E2.
    + apply Nat.ltb_lt in E2.
      rewrite app_nth1 by lia. unfold slice.
      rewrite nth_firstn.
      assert (E3 : (i - a <? b - a)%nat = true) by (apply Nat.ltb_lt; lia).
      rewrite E3, nth_skipn. f_equal. lia.
    + apply Nat.ltb_ge in E2.
      rewrite app_nth2 by lia. rewrite Ls, nth_skipn. f_equal. lia.
  - apply Nat.leb_gt in E1.
    rewrite app_nth1 by lia. rewrite nth_firstn.
    assert (E3 : (i <? a)%nat = true) by (apply Nat.ltb_lt; lia).
    now rewrite E3.
Qed.

Lemma splice_self (l : genome) (a b : nat) :
  (a <= b)%nat -> firstn a l ++ slice a b l ++ skipn b l = l.
Proof.
  intros Hab. unfold slice.
  replace (skipn b l) with (skipn (b - a) (skipn a l))
    by (rewrite skipn_skipn; f_equal; lia).
  now rewrite !firstn_skipn.
Qed.

(** The two crossover points: distinct positions of the genome. *)
Lemma crossover_points (n : nat) (g : rng) :
  (2 <= n)%nat ->
  exists x y g',
    sample (seq 0 n) 2 g = Ok ([x; y], g') /\
    x <> y /\ (x < n)%nat /\ (y < n)%nat.
Proof.
  intros Hn.
  destruct (@sample_ok _ (seq 0 n) 2 g) as (l & g' & Hs & Hl & Hin).
  { rewrite length_seq. exact Hn. }
  assert (Hnd : NoDup l).
  { pose proof (@sample_loop_NoDup _ 2 (seq 0 n) g (seq_NoDup n 0)) as Hnd.
    unfold sample in Hs. destruct (length (seq 0 n) <? 2)%nat; [discriminate|].
    assert (E : sample_loop 2 (seq 0 n) g = (l, g')) by congruence.
    now rewrite E in Hnd. }
  destruct l as [|x [|y [|? ?]]]; try discriminate.
  exists x, y, g'. split; [exact Hs|].
  assert (Hx : In x (seq 0 n)) by (apply Hin; now left).
  assert (Hy : In y (seq 0 n)) by (apply Hin; right; now left).
  apply in_seq in Hx, Hy.
  inversion Hnd as [|? ? Hnin _]; subst.
  repeat split; try lia.
  intros ->. apply Hnin. now left.
Qed.

(** X14.  For two parents of the same length, at least 2, crossover
    returns two children of that length: there are two positions
    [a < b], both before the last position, such that the children take
    the positions [a .. b - 1] from the other parent and every other
    position, the last one included, from their own parent.  At least one
    position is exchanged, and at every position the two children hold
    the same two values as the two parents. *)
Theorem crossover_exchanges_a_segment (p1 p2 : genome) (g : rng) :
  length p1 = length p2 ->
  (2 <= length p1)%nat ->
  exists c1 c2 g' a b,
    _crossover p1 p2 g = Ok (c1, c2, g') /\
    (a < b < length p1)%nat /\
    length c1 = length p1 /\ length c2 = length p1 /\
    forall i d,
      nth i c1 d = (if ((a <=? i) && (i <? b))%nat then nth i p2 d else nth i p1 d) /\
      nth i c2 d = (if ((a <=? i) && (i <? b))%nat then nth i p1 d else nth i p2 d).
Proof.
  intros Hlen H2. unfold _crossover.
  rewrite Hlen, Nat.eqb_refl. cbn [negb].
  destruct (@crossover_points (length p2) g) as (x & y & g' & Hs & Hne & Hx & Hy);
    [lia|].
  rewrite Hs. cbn [bind nth].
  do 3 eexists. exists (Nat.min x y), (Nat.max x y).
  split; [reflexivity|]. split; [lia|].
  split; [|split].
  - rewrite !length_app, length_firstn, length_skipn. unfold slice.
    rewrite length_firstn, length_skipn. lia.
  - rewrite !length_app, length_firstn, length_skipn. unfold slice.
    rewrite length_firstn, length_skipn. lia.
  - intros i d. split; apply nth_splice; lia.
Qed.

(** X15.  Crossover raises exactly when the parents differ in length or
    have fewer than 2 positions: the first is reported as the source's
    own value error, the second comes from drawing two crossover points
    out of fewer than two positions. *)
Theorem crossover_fails_iff (p1 p2 : genome) (g : rng) :
  (length p1 <> length p2 ->
   _crossover p1 p2 g = Raise (ValueError "Parents must have same length")) /\
  (length p1 = length p2 -> (length p1 < 2)%nat ->
   _crossover p1 p2 g
   = Raise (ValueError "Sample larger than population or is negative")) /\
  ((exists e, _crossover p1 p2 g = Raise e) <->
   length p1 <> length p2 \/ (length p1 < 2)%nat).
Proof.
  assert (H1 : length p1 <> length p2 ->
               _crossover p1 p2 g
               = Raise (ValueError "Parents must have same length")).
  { intros Hne. unfold _crossover. apply Nat.eqb_neq in Hne. now rewrite Hne. }
  assert (H2 : length p1 = length p2 -> (length p1 < 2)%nat ->
               _crossover p1 p2 g
               = Raise (ValueError "Sample larger than population or is negative")).
  { intros Heq Hlt. unfold _crossover. rewrite Heq, Nat.eqb_refl. cbn [negb].
    rewrite sample_too_large; [reflexivity|]. rewrite length_seq. lia. }
  split; [exact H1|]. split; [exact H2|]. split.
  - intros [e He].
    destruct (Nat.eq_dec (length p1) (length p2)) as [Heq | Hne]; [|now left].
    right. destruct (Nat.lt_ge_cases (length p1) 2) as [Hlt | Hge]; [exact Hlt|].
    destruct (@crossover_ok p1 p2 g Heq Hge) as (c1 & c2 & g' & Hc & _).
    congruence.
  - intros [Hne | Hlt].
    + eexists. now apply H1.
    + destruct (Nat.eq_dec (length p1) (length p2)) as [Heq | Hne].
      * eexists. now apply H2.
      * eexists. now apply H1.
Qed.

(** X16.  Crossing a genome of at least 2 positions with itself returns
    that genome twice: crossover alone creates no variation. *)
Theorem crossover_with_itself (p : genome) (g : rng) :
  (2 <= length p)%nat ->
  exists g', _crossover p p g = Ok (p, p, g').
Proof.
  intros H2. unfold _crossover. rewrite Nat.eqb_refl. cbn [negb].
  destruct (@crossover_points (length p) g H2) as (x & y & g' & Hs & _).
  rewrite Hs. cbn [bind nth]. exists g'.
  rewrite splice_self by lia. reflexivity.
Qed.

(** ** Mutation *)

Lemma kept_refl (l : genome) : Forall2 kept_or_inverted l l.
Proof. induction l; constructor; [now left | assumption]. Qed.

Lemma kept_trans (a b c : genome) :
  Forall2 kept_or_inverted a b -> Forall2 kept_or_inverted b c ->
  Forall2 kept_or_inverted a c.
Proof.
  intros Hab. revert c. induction Hab as [|x y a b Hxy _ IH]; intros c Hbc.
  - inversion Hbc. constructor.
  - inversion Hbc as [|? z ? c' Hyz Hbc']; subst.
    constructor; [|now apply IH].
    unfold kept_or_inverted in *. lia.
Qed.

Lemma flip_kept (i : nat) (l : genome) : Forall2 kept_or_inverted l (flip i l).
Proof.
  revert i. induction l as [|b l IH]; intros [|i]; cbn; try constructor.
  - now right.
  - apply kept_refl.
  - now left.
  - apply IH.
Qed.

Lemma mutate_step_kept (rate : Q) (st : genome * rng) (i : nat) :
  Forall2 kept_or_inverted (fst st) (fst (_mutate_step rate st i)).
Proof.
  destruct st as [m g]. unfold _mutate_step.
  destruct (random g) as [r g1].
  destruct (Qltb r rate); [|apply kept_refl].
  pose proof (flip_kept i m) as H0.
  assert (H1 : forall (c : bool) g0 (x : genome),
             Forall2 kept_or_inverted m x ->
             forall j, Forall2 kept_or_inverted m
               (fst (if c
                     then let '(r, g) := random g0 in
                          if Qltb r (3 # 10) then (flip j x, g) else (x, g)
                     else (x, g0)))).
  { intros c g0 x Hx j. destruct c; [|exact Hx].
    destruct (random g0) as [r0 g0']. destruct (Qltb r0 (3 # 10)); [|exact Hx].
    cbn [fst]. exact (@kept_trans _ _ _ Hx (flip_kept j x)). }
  pose proof (H1 (0 <? i)%nat g1 (flip i m) H0 (i - 1)%nat) as H2.
  destruct (if (0 <? i)%nat then _ else _) as [m2 g2]. cbn [fst] in H2.
  pose proof (H1 (i <? length m2 - 1)%nat g2 m2 H2 (i + 1)%nat) as H3.
  destruct (if (i <? length m2 - 1)%nat then _ else _) as [m3 g3].
  exact H3.
Qed.

Lemma kept_binary (a b : genome) :
  Forall2 kept_or_inverted a b -> binary a -> binary b.
Proof.
  unfold binary. induction 1 as [|x y a b Hxy _ IH]; intros Ha; [constructor|].
  inversion Ha as [|? ? Hx Ha']; subst.
  constructor; [|now apply IH]. unfold kept_or_inverted in Hxy. lia.
Qed.

Lemma mutate_kept (self : t) (gen : genome) (g : rng) :
  Forall2 kept_or_inverted gen (fst (_mutate self gen g)).
Proof.
  unfold _mutate.
  assert (Hgen : forall l st,
             Forall2 kept_or_inverted (fst st)
               (fst (fold_left (_mutate_step (mutation_rate self)) l st))).
  { induction l as [|i l IH]; intros st; cbn [fold_left]; [apply kept_refl|].
    exact (@kept_trans _ _ _ (mutate_step_kept (mutation_rate self) st i) (IH _)). }
  exact (Hgen (seq 0 (length gen)) (gen, g)).
Qed.

Lemma mutate_binary (self : t) (gen : genome) (g : rng) :
  binary gen -> binary (fst (_mutate self gen g)).
Proof. apply kept_binary, mutate_kept. Qed.

(** X17.  Mutation changes a genome only by inverting bits: the result
    has the same length, every position holds either the old value [v] or
    [1 - v], and a genome of zeros and ones stays one. *)
Theorem mutation_only_inverts_bits (self : t) (gen : genome) (g : rng) :
  let mutated := fst (_mutate self gen g) in
  Forall2 kept_or_inverted gen mutated /\
  length mutated = length gen /\
  (binary gen -> binary mutated).
Proof.
  cbv zeta. split; [apply mutate_kept|].
  split; [apply mutate_length | apply mutate_binary].
Qed.

Lemma random_nonneg (g : rng) : 0 <= fst (random g).
Proof.
  unfold random. destruct (draw g) as [v g1]. cbn [fst].
  assert (Hv : (0 <= v mod 2 ^ 53)%Z)
    by (apply Z.mod_pos_bound; reflexivity).
  unfold Qle. cbn [Qnum Qden]. rewrite Z.mul_1_r. exact Hv.
Qed.

(** X18.  With a mutation rate of 0 or less no bit is ever inverted:
    mutation returns the genome unchanged, having drawn one random number
    per position. *)
Theorem mutation_rate_zero_is_identity (self : t) (gen : genome) (g : rng) :
  mutation_rate self <= 0 ->
  _mutate self gen g = (gen, skipn (length gen) g).
Proof.
  intros Hrate. unfold _mutate.
  assert (Hstep : forall m g0 i,
             _mutate_step (mutation_rate self) (m, g0) i = (m, skipn 1 g0)).
  { intros m g0 i. unfold _mutate_step.
    pose proof (random_nonneg g0) as Hr.
    assert (Hg : snd (random g0) = skipn 1 g0)
      by (unfold random, draw; destruct g0; reflexivity).
    destruct (random g0) as [r g1]. cbn [fst snd] in *.
    assert (E : Qltb r (mutation_rate self) = false)
      by (apply Qltb_ge; now apply Qle_trans with 0).
    rewrite E. now subst. }
  assert (Hgen : forall l g0,
             fold_left (_mutate_step (mutation_rate self)) l (gen, g0)
             = (gen, skipn (length l) g0)).
  { induction l as [|i l IH]; intros g0; [reflexivity|].
    cbn [fold_left length]. rewrite Hstep, IH, skipn_skipn.
    do 2 f_equal. lia. }
  rewrite Hgen, length_seq. reflexivity.
Qed.

(** ** Tournament selection *)

Lemma fold_best_max {A} (key : A -> Q) (l : list A) (a : A) :
  forall c, In c (a :: l) ->
    key c <= key (fold_left (fun best c => if Qltb (key best) (key c)
                                           then c else best) l a).
Proof.
  revert a. induction l as [|b l IH]; intros a c Hc; cbn [fold_left].
  - destruct Hc as [-> | []]. apply Qle_refl.
  - destruct (Qltb (key a) (key b)) eqn:E.
    + apply Qltb_lt in E.
      destruct Hc as [-> | Hc].
      * apply Qle_trans with (key b); [now apply Qlt_le_weak|].
        apply IH. now left.
      * apply IH. exact Hc.
    + apply Qltb_ge in E.
      destruct Hc as [-> | [-> | Hc]].
      * apply IH. now left.
      * apply Qle_trans with (key a); [exact E|]. apply IH. now left.
      * apply IH. now right.
Qed.




(** ** One generation keeps the population well formed *)

Lemma select_parent_In (self : t) (scores : list Q) (g g' : rng) (p : genome) :
  _select_parent self scores g = Ok (p, g') -> In p (population self).
Proof.
  unfold _select_parent.
  destruct (sample _ _ g) as [[tour g1]|]; [|discriminate]. cbn [bind].
  destruct (max_by_key snd tour) as [w|]; [|discriminate]. cbn [bind].
  unfold getitem.
  destruct (nth_error (population self) (fst w)) as [q|] eqn:Eq; [|discriminate].
  cbn [bind]. intros [= <- _]. exact (@nth_error_In _ _ _ _ Eq).
Qed.

Lemma binary_firstn (n : nat) (l : genome) : binary l -> binary (firstn n l).
Proof.
  unfold binary. rewrite !Forall_forall. intros Hl x Hx.
  apply Hl. exact (@firstn_In _ _ _ _ Hx).
Qed.

Lemma binary_skipn (n : nat) (l : genome) : binary l -> binary (skipn n l).
Proof.
  unfold binary. rewrite !Forall_forall. intros Hl x Hx.
  apply Hl. rewrite <- (firstn_skipn n l). apply in_or_app. now right.
Qed.

Lemma crossover_binary (p1 p2 c1 c2 : genome) (g g' : rng) :
  _crossover p1 p2 g = Ok (c1, c2, g') ->
  binary p1 -> binary p2 -> binary c1 /\ binary c2.
Proof.
  unfold _crossover.
  destruct (negb _); [discriminate|].
  destruct (sample _ 2 g) as [[pts g1]|]; [|discriminate]. cbn [bind].
  intros [= <- <- _] B1 B2. unfold slice.
  assert (Happ : forall a b c : genome,
             binary a -> binary b -> binary c -> binary (a ++ b ++ c)).
  { unfold binary. intros a b c Ha Hb Hc.
    apply Forall_app. split; [exact Ha|]. apply Forall_app. now split. }
  split; apply Happ; auto using binary_firstn, binary_skipn.
Qed.

Lemma evolve_loop_binary (self : t) (norm : list Q) :
  Forall binary (population self) ->
  forall (fuel : nat) (acc : list genome) (g : rng) new g',
    Forall binary acc ->
    _evolve_loop fuel self norm acc g = Some (Ok (new, g')) ->
    Forall binary new.
Proof.
  intros Hpop. rewrite Forall_forall in Hpop.
  induction fuel as [|fuel IH]; intros acc g new g' Hacc; cbn [_evolve_loop];
    destruct (length acc <? population_size self)%nat eqn:E; cbn [negb];
    try discriminate; try (intros [= <- _]; exact Hacc).
  destruct (_select_parent self norm g) as [[p1 g1]|] eqn:E1; [|discriminate].
  destruct (_select_parent self norm g1) as [[p2 g2]|] eqn:E2; [|discriminate].
  destruct (_crossover p1 p2 g2) as [[[c1 c2] g3]|] eqn:E3; [|discriminate].
  destruct (@crossover_binary _ _ _ _ _ _ E3) as [B1 B2];
    [apply Hpop; exact (@select_parent_In _ _ _ _ _ E1)
    |apply Hpop; exact (@select_parent_In _ _ _ _ _ E2)|].
  pose proof (@mutate_binary self c1 g3 B1) as M1.
  destruct (_mutate self c1 g3) as [m1 g4]. cbn [fst] in M1. cbv beta iota.
  assert (Hacc1 : Forall binary (acc ++ [m1])).
  { apply Forall_app. split; [exact Hacc|]. now repeat constructor. }
  destruct (length (acc ++ [m1]) <? population_size self)%nat.
  - pose proof (@mutate_binary self c2 g4 B2) as M2.
    destruct (_mutate self c2 g4) as [m2 g5]. cbn [fst] in M2. cbv beta iota.
    apply IH. apply Forall_app. split; [exact Hacc1|]. now repeat constructor.
  - apply IH. exact Hacc1.
Qed.

Lemma mapM_getitem_In {A} (l : list A) (idx : list nat) (r : list A) :
  mapM (getitem l) idx = Ok r -> Forall (fun x => In x l) r.
Proof.
  revert r. induction idx as [|i idx IH]; intros r; cbn.
  - intros [= <-]. constructor.
  - unfold getitem at 1. destruct (nth_error l i) as [a|] eqn:Ea; [|discriminate].
    cbn [bind]. destruct (mapM (getitem l) idx) as [r'|]; [|discriminate].
    cbn [bind]. intros [= <-]. constructor; [exact (@nth_error_In _ _ _ _ Ea)|].
    now apply IH.
Qed.

Lemma evolve_binary (self self' : t) (scores : list Q) (g g' : rng)
      (out : list genome * Z) :
  Forall binary (population self) ->
  evolve self scores g = Some (Ok (self', out, g')) ->
  Forall binary (population self').
Proof.
  intros Hpop. unfold evolve.
  destruct (normalize scores) as [norm|]; [|discriminate].
  destruct (mapM _ _) as [acc|] eqn:Eacc; [|discriminate].
  destruct (_evolve_loop _ self norm acc g) as [[[new g1]|]|] eqn:El;
    try discriminate.
  intros [= <- _ _]. cbn.
  apply (@evolve_loop_binary self norm Hpop (population_size self) acc g new g1);
    [|exact El].
  apply mapM_getitem_In in Eacc.
  rewrite Forall_forall in *. intros x Hx. apply Hpop. now apply Eacc.
Qed.

(** X20.  One generation keeps the population well formed.  For a
    population of N genomes of zeros and ones of the configured length (at
    least 2), one score per genome and a tournament size between 1 and N,
    [evolve] returns normally; the stored population is the returned one
    and again has N genomes of zeros and ones of the configured length;
    the settings are untouched and the generation counter has grown by
    one.  The conditions therefore hold again for the next call. *)
Theorem evolve_keeps_the_population_well_formed
        (self : t) (scores : list Q) (g : rng) :
  well_formed self ->
  Forall binary (population self) ->
  length scores = population_size self ->
  (1 <= tournament_size self <= population_size self)%nat ->
  (2 <= genome_length self)%nat ->
  exists self' g',
    evolve self scores g
    = Some (Ok (self', (population self', generation self'), g')) /\
    well_formed self' /\
    Forall binary (population self') /\
    same_settings self' self /\
    generation self' = (generation self + 1)%Z.
Proof.
  intros Hwf Hbin Hlen HT HL.
  destruct (@evolve_ok self scores g Hwf Hlen HT HL) as (new & g' & He & Ln & _ & Fn).
  exists (set_population new (generation self + 1) self), g'.
  split; [exact He|].
  split; [split; [exact Ln | exact Fn]|].
  split; [exact (@evolve_binary _ _ _ _ _ _ Hbin He)|].
  split; [repeat split | reflexivity].
Qed.

(** ** Normalisation of the scores *)

Lemma fold_min_le (l : list Q) (a : Q) :
  forall c, In c (a :: l) ->
    fold_left (fun best c => if Qltb c best then c else best) l a <= c.
Proof.
  revert a. induction l as [|b l IH]; intros a c Hc; cbn [fold_left].
  - destruct Hc as [-> | []]. apply Qle_refl.
  - destruct (Qltb b a) eqn:E.
    + apply Qltb_lt in E.
      destruct Hc as [-> | Hc].
      * apply Qle_trans with b; [apply IH; now left | now apply Qlt_le_weak].
      * apply IH. exact Hc.
    + apply Qltb_ge in E.
      destruct Hc as [-> | [-> | Hc]].
      * apply IH. now left.
      * apply Qle_trans with a; [apply IH; now left | exact E].
      * apply IH. now right.
Qed.

Lemma mapM_map {A B} (f : A -> result B) (h : A -> B) (l : list A) :
  (forall a, In a l -> f a = Ok (h a)) -> mapM f l = Ok (map h l).
Proof.
  induction l as [|a l IH]; intros Hall; [reflexivity|].
  cbn. rewrite (Hall a (or_introl eq_refl)). cbn [bind].
  rewrite IH; [reflexivity|]. intros a' Ha'. apply Hall. now right.
Qed.

Lemma nth_repeat_below {A} (x d : A) (n i : nat) :
  (i < n)%nat -> nth i (repeat x n) d = x.
Proof.
  intros Hi. apply (@repeat_spec _ n x). apply nth_In. now rewrite repeat_length.
Qed.

(** X21.  The normalisation at the start of [evolve], for a non-empty
    score list (scores as exact numbers): it yields one normalised score
    per genome, each between 0 and 1, and it never reverses the order of
    two scores.  When two scores differ, a lowest score is sent to 0 and
    a highest to 1. *)
Theorem normalized_scores_lie_in_the_unit_interval (scores : list Q) :
  scores <> [] ->
  exists norm,
    normalize scores = Ok norm /\
    length norm = length scores /\
    Forall (fun v => 0 <= v <= 1) norm /\
    (forall i j, (i < length scores)%nat -> (j < length scores)%nat ->
                 nth i scores 0 <= nth j scores 0 ->
                 nth i norm 0 <= nth j norm 0) /\
    (forall a b, In a scores -> In b scores -> a < b ->
                 exists i j, (i < length scores)%nat /\ (j < length scores)%nat /\
                             nth i norm 0 == 0 /\ nth j norm 0 == 1).
Proof.
  intros Hne. unfold normalize.
  destruct (@min_list_In scores Hne) as (mn & Hmn & Imn).
  destruct (@max_by_key_In _ (fun v => v) scores Hne) as (mx & Hmx & Imx).
  assert (Hlo : forall c, In c scores -> mn <= c).
  { destruct scores as [|a l]; [congruence|]. cbn in Hmn. injection Hmn as <-.
    apply fold_min_le. }
  assert (Hhi : forall c, In c scores -> c <= mx).
  { destruct scores as [|a l]; [congruence|]. cbn in Hmx. injection Hmx as <-.
    intros c Hc. exact (@fold_best_max _ (fun v => v) l a c Hc). }
  unfold max_list. rewrite Hmn, Hmx. cbn [bind].
  destruct (Qeq_bool mx mn) eqn:E; cbn [negb].
  - apply Qeq_bool_iff in E.
    assert (Hn : (1 <= length scores)%nat)
      by (destruct scores; [congruence | cbn; lia]).
    rewrite div_ok.
    2: { intros Hz. unfold Qeq in Hz. cbn in Hz. lia. }
    cbn [bind]. eexists. split; [reflexivity|].
    assert (Hshare : 0 <= 1 / inject_Z (Z.of_nat (length scores)) <= 1).
    { assert (Hpos : 0 < inject_Z (Z.of_nat (length scores)))
        by (unfold Qlt; cbn; lia).
      split.
      - apply Qle_shift_div_l; [exact Hpos|]. rewrite Qmult_0_l. discriminate.
      - apply Qle_shift_div_r; [exact Hpos|]. rewrite Qmult_1_l.
        unfold Qle. cbn. lia. }
    split; [apply repeat_length|]. split; [|split].
    + apply Forall_forall. intros v Hv. apply repeat_spec in Hv. now subst.
    + intros i j Hi Hj _. rewrite !nth_repeat_below by assumption. apply Qle_refl.
    + intros a b Ha Hb Hab. exfalso.
      pose proof (Hlo a Ha). pose proof (Hhi b Hb). lra.
  - apply Qeq_bool_neq in E.
    assert (Hd : 0 < mx - mn).
    { pose proof (Hlo mx Imx). destruct (Qlt_le_dec mn mx) as [Hlt | Hge]; [lra|].
      exfalso. apply E. lra. }
    rewrite (@mapM_map _ _ (fun f => div (f - mn) (mx - mn))
               (fun f => (f - mn) / (mx - mn))).
    2: { intros a _. apply div_ok. lra. }
    assert (Hnth : forall i, (i < length scores)%nat ->
               nth i (map (fun f => (f - mn) / (mx - mn)) scores) 0
               = (nth i scores 0 - mn) / (mx - mn)).
    { intros i Hi.
      rewrite (nth_indep _ 0 ((fun f => (f - mn) / (mx - mn)) 0))
        by (now rewrite length_map).
      exact (map_nth (fun f => (f - mn) / (mx - mn)) scores 0 i). }
    eexists. split; [reflexivity|].
    split; [apply length_map|]. split; [|split].
    + apply Forall_forall. intros v Hv. apply in_map_iff in Hv.
      destruct Hv as (f & <- & Hf).
      pose proof (Hlo f Hf). pose proof (Hhi f Hf). split.
      * apply Qle_shift_div_l; [exact Hd | lra].
      * apply Qle_shift_div_r; [exact Hd | lra].
    + intros i j Hi Hj Hij.
      rewrite !Hnth by assumption. unfold Qdiv.
      apply Qmult_le_compat_r; [lra|].
      apply Qinv_le_0_compat. lra.
    + intros _ _ _ _ _.
      destruct (In_nth _ _ 0 Imn) as (i & Hi & Ei).
      destruct (In_nth _ _ 0 Imx) as (j & Hj & Ej).
      exists i, j. split; [exact Hi|]. split; [exact Hj|].
      rewrite !Hnth by assumption. rewrite Ei, Ej. split.
      * unfold Qdiv. setoid_replace (mn - mn) with 0 by ring. apply Qmult_0_l.
      * field. lra.
Qed.

(** ** The initial population *)

Lemma repeat_draw_spec {A} (P : A -> Prop) (f : rng -> A * rng) (n : nat) :
  (forall g, P (fst (f g))) ->
  forall g, length (fst (repeat_draw f n g)) = n /\
            Forall P (fst (repeat_draw f n g)).
Proof.
  intros Hf. induction n as [|n IH]; intros g; cbn [repeat_draw].
  - split; [reflexivity | constructor].
  - specialize (Hf g). destruct (f g) as [a g1]. cbn [fst] in Hf.
    specialize (IH g1). destruct (repeat_draw f n g1) as [l g2].
    cbn [fst] in *. destruct IH as [IH1 IH2].
    split; [now rewrite <- IH1 | now constructor].
Qed.

(** X22.  Whatever the random outcomes, the constructor builds a well
    formed population: as many genomes as configured, each of the
    configured length and made of zeros and ones, at generation 0 and
    with the settings it was given. *)
Theorem initial_population_is_well_formed
        (size len : nat) (rate : Q) (elite tournament : nat) (g : rng) :
  let ga := fst (__init__ size len rate elite tournament g) in
  well_formed ga /\
  Forall binary (population ga) /\
  generation ga = 0%Z /\
  same_settings ga (mk size len rate elite tournament [] 0).
Proof.
  cbv zeta. unfold __init__, _initialize_population.
  assert (Hbit : forall g0, (fun v => v = 0%Z \/ v = 1%Z) (fst (randint01 g0))).
  { intros g0. unfold randint01. destruct (draw g0) as [v g1]. cbn [fst].
    pose proof (Z.mod_pos_bound v 2). lia. }
  assert (Hgen : forall g0,
             (fun x => length x = len /\ binary x)
               (fst (repeat_draw randint01 len g0))).
  { intros g0. exact (@repeat_draw_spec _ _ randint01 len Hbit g0). }
  destruct (@repeat_draw_spec _ _ (repeat_draw randint01 len) size Hgen g)
    as [Hl Hall].
  destruct (repeat_draw (repeat_draw randint01 len) size g) as [p g1].
  cbn [fst] in *. unfold well_formed. cbn.
  split; [split; [exact Hl|]|split; [|split; [reflexivity | repeat split]]].
  - eapply Forall_impl; [|exact Hall]. now intros x [Hx _].
  - eapply Forall_impl; [|exact Hall]. now intros x [_ Hx].
Qed.

Import Examples.

Lemma crossover_exchanges_a_segment_witness :
  exists c1 c2 g' a b,
    _crossover (marked 0) (marked 3) tape = Ok (c1, c2, g') /\
    (a < b < length (marked 0))%nat /\
    length c1 = length (marked 0) /\ length c2 = length (marked 0) /\
    forall i d,
      nth i c1 d = (if ((a <=? i) && (i <? b))%nat
                    then nth i (marked 3) d else nth i (marked 0) d) /\
      nth i c2 d = (if ((a <=? i) && (i <? b))%nat
                    then nth i (marked 0) d else nth i (marked 3) d).
Proof.
  apply (@crossover_exchanges_a_segment (marked 0) (marked 3) tape).
  - reflexivity.
  - vm_compute. lia.
Defined.

Lemma crossover_with_itself_witness :
  exists g', _crossover (marked 2) (marked 2) tape = Ok (marked 2, marked 2, g').
Proof.
  apply (@crossover_with_itself (marked 2) tape). vm_compute. lia.
Defined.


Lemma mutation_rate_zero_is_identity_witness :
  _mutate (mk 4 180 0 1 2 [] 0) (marked 1) tape
  = (marked 1, skipn (length (marked 1)) tape).
Proof.
  apply (@mutation_rate_zero_is_identity (mk 4 180 0 1 2 [] 0) (marked 1) tape).
  cbn. apply Qle_refl.
Defined.

Lemma normalized_scores_lie_in_the_unit_interval_witness :
  exists norm,
    normalize [1; 2; 3; 4] = Ok norm /\
    length norm = length [1; 2; 3; 4] /\
    Forall (fun v => 0 <= v <= 1) norm /\
    (forall i j, (i < length [1; 2; 3; 4])%nat -> (j < length [1; 2; 3; 4])%nat ->
                 nth i [1; 2; 3; 4] 0 <= nth j [1; 2; 3; 4] 0 ->
                 nth i norm 0 <= nth j norm 0) /\
    (forall a b, In a [1; 2; 3; 4] -> In b [1; 2; 3; 4] -> a < b ->
                 exists i j, (i < length [1; 2; 3; 4])%nat /\
                             (j < length [1; 2; 3; 4])%nat /\
                             nth i norm 0 == 0 /\ nth j norm 0 == 1).
Proof.
  apply (@normalized_scores_lie_in_the_unit_interval [1; 2; 3; 4]).
  discriminate.
Defined.

Lemma four_binary (tournament : nat) : Forall binary (population (four tournament)).
Proof.
  assert (Hm : forall k, binary (marked k)).
  { intros k. unfold binary, marked.
    apply Forall_app. split; [|apply Forall_app; split].
    - apply Forall_forall. intros x Hx. apply repeat_spec in Hx. now left.
    - constructor; [now right | constructor].
    - apply Forall_forall. intros x Hx. apply repeat_spec in Hx. now left. }
  unfold four. cbn [population].
  repeat (apply Forall_cons; [apply Hm|]). apply Forall_nil.
Qed.


Lemma evolve_keeps_the_population_well_formed_witness :
  exists self' g',
    evolve (four 2) [1; 2; 3; 4] tape
    = Some (Ok (self', (population self', generation self'), g')) /\
    well_formed self' /\
    Forall binary (population self') /\
    same_settings self' (four 2) /\
    generation self' = (generation (four 2) + 1)%Z.
Proof.
  apply (@evolve_keeps_the_population_well_formed (four 2) [1; 2; 3; 4] tape).
  - apply four_well_formed.
  - apply four_binary.
  - reflexivity.
  - cbn. lia.
  - cbn. lia.
Defined.

End GAMore.
(* ================================================================== *)
(** * Further properties of the evaluation of a genome *)
(* ================================================================== *)

Module TrainerMore.
Import PyFacts Doc More Pygame Environment EnvFacts.

Section World.
Context `{MathLib} `{PygameLib}.

Lemma step_keeps_obstacles (a : Brain.decision) (e : t) :
  custom_rectangles (fst (step a e)) = custom_rectangles e.
Proof.
  destruct (episode_finished e) eqn:Hrun.
  - unfold step. rewrite Hrun. reflexivity.
  - destruct (@step_running_fields _ _ a e Hrun)
      as (_ & _ & _ & _ & _ & _ & Hc & _).
    destruct (after_move_rect a e) as (_ & _ & _ & Hw & _).
    cbv zeta in Hc. now rewrite Hc.
Qed.

Lemma evaluate_loop_keeps_obstacles (n : nat) (brain : Brain.t) :
  forall (env : t) (state : observation) (total : pyfloat) env' total',
    Trainer._evaluate_loop n brain env state total = Ok (env', total') ->
    custom_rectangles env' = custom_rectangles env.
Proof.
  induction n as [|n IH]; intros env state total env' total';
    cbn [Trainer._evaluate_loop].
  - now intros [= <- _].
  - destruct (obs_collision state || episode_finished env);
      [now intros [= <- _]|].
    destruct (Brain.make_decision brain _) as [d|]; [|discriminate].
    cbn [bind].
    pose proof (step_keeps_obstacles d env) as Hc.
    destruct (step d env) as [env1 [[[st1 r] dn] inf]]. cbn [fst] in Hc.
    intros Hloop. rewrite <- Hc. exact (IH _ _ _ _ _ Hloop).
Qed.

(** X23.  The evaluation of a genome.  A genome that does not have 180
    positions is rejected with a value error.  A genome of 180
    positions is evaluated without error, and the world that the
    trainer keeps afterwards is a reset one: the car back at its start
    state, step counter 0, episode running, fitness 0 and best distance
    infinite, with the obstacles it had before. *)
Theorem evaluation_leaves_a_reset_world (env : t) (genome : list Z) :
  exp_positive ->
  (length genome <> 180%nat ->
   Trainer.evaluate_genome env genome
   = Raise (ValueError "Genome must be 180 bits long")) /\
  (length genome = 180%nat ->
   exists env' total,
     Trainer.evaluate_genome env genome = Ok (env', total) /\
     current_state env' = initial_state /\
     current_step env' = 0%Z /\
     episode_finished env' = false /\
     current_fitness env' = Fin 0 /\
     best_distance env' = PInf /\
     custom_rectangles env' = custom_rectangles env).
Proof.
  intros Hpos. split; intros Hlen.
  - unfold Trainer.evaluate_genome.
    rewrite (proj1 (BrainFacts.init_length genome) Hlen). reflexivity.
  - destruct (@EpisodeFacts.evaluate_genome_infinite _ _ env genome Hpos Hlen)
      as [env' He].
    exists env', PInf. split; [exact He|].
    unfold Trainer.evaluate_genome in He.
    destruct (Brain.__init__ genome) as [brain|]; [|discriminate].
    cbn [bind] in He.
    destruct (reset_fields env) as (_ & Hc0 & _).
    cbv zeta in Hc0.
    destruct (reset env) as [e0 state]. cbn [fst] in Hc0.
    destruct (Trainer._evaluate_loop 1000 brain e0 state (Fin 0))
      as [[e1 tot]|] eqn:Hloop; [|discriminate].
    apply evaluate_loop_keeps_obstacles in Hloop.
    cbn [bind] in He.
    destruct (reset_fields e1) as (_ & Hc & Hs & Hrun & Hstep & Hbest & Hfit & _).
    cbv zeta in *.
    destruct (reset e1) as [e2 ?]. cbn [fst] in *.
    injection He as <- _.
    repeat split; try assumption. congruence.
Qed.

End World.

Import Host Examples.

Lemma evaluation_leaves_a_reset_world_witness :
  (length (repeat 0%Z 180) <> 180%nat ->
   Trainer.evaluate_genome rolling (repeat 0%Z 180)
   = Raise (ValueError "Genome must be 180 bits long")) /\
  (length (repeat 0%Z 180) = 180%nat ->
   exists env' total,
     Trainer.evaluate_genome rolling (repeat 0%Z 180) = Ok (env', total) /\
     current_state env' = initial_state /\
     current_step env' = 0%Z /\
     episode_finished env' = false /\
     current_fitness env' = Fin 0 /\
     best_distance env' = PInf /\
     custom_rectangles env' = custom_rectangles rolling).
Proof.
  apply (@evaluation_leaves_a_reset_world Host.math Host.pygame rolling
           (repeat 0%Z 180)).
  exact HostFacts.exp_pow2_positive.
Defined.

End TrainerMore.
